(** * psycopg3 core: cursor, COPY engine and array codec

    A shallow embedding of [psycopg3/cursor.py], [psycopg3/copy.py] and
    [types/array.py], followed by the properties of the specification
    that are settled on it.

    Conventions of the embedding:
    - Python [bytes] are [list byte]; Python integers are [Z];
    - a Python exception is a constructor of [exn]; a method that can
      raise returns [result];
    - attributes of [self] that a method assigns are fields of a record
      that is passed in and returned;
    - the server is an oracle that answers the calls sent so far. *)

From Stdlib Require Import ZArith List Lia Bool.
From Stdlib Require Import Strings.Byte.
From stdpp Require Import base decidable countable gmap list strings.
Import ListNotations.

Open Scope Z_scope.

Set Warnings "-register-all,-clear-no-such-hyp".

(** ** Bytes *)

Abbreviation bytes := (list byte).

#[global] Instance byte_eq_dec : EqDecision byte := Byte.byte_eq_dec.

(** ** Exceptions and results *)

(** The exceptions that the code at hand raises or lets through;
    [ServerError] is an error decoded from a result of the server,
    [Exception] one that the code of the caller raises. *)
Inductive exn : Type :=
  | InterfaceError
  | ProgrammingError
  | DataError
  | InternalError
  | TypeError
  | ValueError
  | StructError
  | AssertionError
  | UnboundLocalError
  | AttributeError
  | KeyError
  | IndexError
  | ServerError (sqlstate : bytes)
  | Exception (message : string).

Inductive result (A : Type) : Type :=
  | Ok (a : A)
  | Raise (e : exn).
Arguments Ok {A} a.
Arguments Raise {A} e.

Definition bind {A B} (m : result A) (k : A -> result B) : result B :=
  match m with
  | Ok a => k a
  | Raise e => Raise e
  end.

Notation "x <- m ;; k" := (bind m (fun x => k))
  (at level 100, m at next level, right associativity).

Lemma bind_Ok_inv {A B} (m : result A) (k : A -> result B) (b : B) :
  bind m k = Ok b -> exists a, m = Ok a /\ k a = Ok b.
Proof. destruct m as [a|e]; simpl; [eauto | discriminate]. Qed.

(** [[f(x) for x in l]] for an [f] that can raise. *)
Fixpoint mapM {A B} (f : A -> result B) (l : list A) : result (list B) :=
  match l with
  | [] => Ok []
  | x :: l' => y <- f x ;; ys <- mapM f l' ;; Ok (y :: ys)
  end.

(** ** The libpq wrapper: statuses, formats, results *)

Module Pq.

(** Modelled from the spec: the enumeration [pq.ExecStatus] is declared
    outside the files at hand; the members are libpq's [ExecStatusType],
    of which the specification names TuplesOk, CommandOk, EmptyQuery,
    CopyIn, CopyOut, CopyBoth and FatalError. *)
Inductive ExecStatus : Type :=
  | EMPTY_QUERY
  | COMMAND_OK
  | TUPLES_OK
  | COPY_OUT
  | COPY_IN
  | BAD_RESPONSE
  | NONFATAL_ERROR
  | FATAL_ERROR
  | COPY_BOTH
  | SINGLE_TUPLE.

#[global] Instance ExecStatus_eq_dec : EqDecision ExecStatus.
Proof. solve_decision. Defined.

Definition ExecStatus_value (s : ExecStatus) : nat :=
  match s with
  | EMPTY_QUERY => 0 | COMMAND_OK => 1 | TUPLES_OK => 2 | COPY_OUT => 3
  | COPY_IN => 4 | BAD_RESPONSE => 5 | NONFATAL_ERROR => 6
  | FATAL_ERROR => 7 | COPY_BOTH => 8 | SINGLE_TUPLE => 9
  end%nat.

Definition ExecStatus_of_value (n : nat) : ExecStatus :=
  match n with
  | 0 => EMPTY_QUERY | 1 => COMMAND_OK | 2 => TUPLES_OK | 3 => COPY_OUT
  | 4 => COPY_IN | 5 => BAD_RESPONSE | 6 => NONFATAL_ERROR
  | 7 => FATAL_ERROR | 8 => COPY_BOTH | _ => SINGLE_TUPLE
  end%nat.

#[global] Instance ExecStatus_countable : Countable ExecStatus.
Proof.
  apply (inj_countable' ExecStatus_value ExecStatus_of_value).
  by intros [].
Defined.

(** [pq.Format]: the two wire formats. *)
Inductive Format : Type := TEXT | BINARY.

#[global] Instance Format_eq_dec : EqDecision Format.
Proof. solve_decision. Defined.

(** One [PGresult]: the attributes the cursor and the COPY engine read.
    [sqlstate] stands for what [error_from_result] decodes out of a
    FatalError result. *)
Record PGresult : Type := mkPGresult {
  status : ExecStatus;
  command_tuples : option Z;
  binary_tuples : Format;
  ntuples : Z;
  sqlstate : bytes;
}.

(** [errors.error_from_result(result, encoding)]: the decoded server
    error, as an exception value. *)
Definition error_from_result (r : PGresult) : exn := ServerError (sqlstate r).

End Pq.
Export Pq.

(** ** Cursor core ([psycopg3/cursor.py]) *)

Module CursorModel.

(** The wire-level tuple that [PostgresQuery] computes. *)
Record PostgresQuery : Type := mkPostgresQuery {
  pgq_query : bytes;
  pgq_params : option (list (option bytes));
  pgq_formats : list Format;
  pgq_types : list Z;
}.

(** The calls the cursor issues on [self._conn.pgconn]. *)
Inductive PQcall : Type :=
  | send_query (query : bytes)
  | send_query_params (query : bytes) (params : option (list (option bytes)))
      (param_formats : list Format) (param_types : list Z)
      (result_format : Format)
  | send_prepare (name : bytes) (query : bytes) (param_types : list Z)
  | send_query_prepared (name : bytes) (params : option (list (option bytes)))
      (param_formats : list Format) (result_format : Format).

(** [self._conn]: what the cursor reads of it, and the log of the calls
    sent on its [pgconn], oldest first. *)
Record Connection : Type := mkConnection {
  conn_closed : bool;
  pgconn_status_ok : bool;
  sent : list PQcall;
}.

(** [adapt.Transformer]: the cursor only sets and reads its [pgresult]. *)
Record Transformer : Type := mkTransformer {
  tx_pgresult : option PGresult;
}.

Record Cursor : Type := mkCursor {
  _conn : Connection;
  format : Format;
  arraysize : Z;
  _closed : bool;
  _results : list PGresult;
  _pgresult : option PGresult;
  _pos : Z;
  _iresult : Z;
  _rowcount : Z;
  _query : option bytes;
  _params : option (list (option bytes));
  _transformer : option Transformer;
}.

Definition set_conn (c : Cursor) (v : Connection) : Cursor :=
  mkCursor v (format c) (arraysize c) (_closed c) (_results c) (_pgresult c)
    (_pos c) (_iresult c) (_rowcount c) (_query c) (_params c)
    (_transformer c).
Definition set_closed (c : Cursor) (v : bool) : Cursor :=
  mkCursor (_conn c) (format c) (arraysize c) v (_results c) (_pgresult c)
    (_pos c) (_iresult c) (_rowcount c) (_query c) (_params c)
    (_transformer c).
Definition set_results (c : Cursor) (v : list PGresult) : Cursor :=
  mkCursor (_conn c) (format c) (arraysize c) (_closed c) v (_pgresult c)
    (_pos c) (_iresult c) (_rowcount c) (_query c) (_params c)
    (_transformer c).
Definition set_pos (c : Cursor) (v : Z) : Cursor :=
  mkCursor (_conn c) (format c) (arraysize c) (_closed c) (_results c)
    (_pgresult c) v (_iresult c) (_rowcount c) (_query c) (_params c)
    (_transformer c).
Definition set_iresult (c : Cursor) (v : Z) : Cursor :=
  mkCursor (_conn c) (format c) (arraysize c) (_closed c) (_results c)
    (_pgresult c) (_pos c) v (_rowcount c) (_query c) (_params c)
    (_transformer c).
Definition set_rowcount (c : Cursor) (v : Z) : Cursor :=
  mkCursor (_conn c) (format c) (arraysize c) (_closed c) (_results c)
    (_pgresult c) (_pos c) (_iresult c) v (_query c) (_params c)
    (_transformer c).
Definition set_query (c : Cursor) (v : option bytes) : Cursor :=
  mkCursor (_conn c) (format c) (arraysize c) (_closed c) (_results c)
    (_pgresult c) (_pos c) (_iresult c) (_rowcount c) v (_params c)
    (_transformer c).
Definition set_params (c : Cursor) (v : option (list (option bytes))) : Cursor :=
  mkCursor (_conn c) (format c) (arraysize c) (_closed c) (_results c)
    (_pgresult c) (_pos c) (_iresult c) (_rowcount c) (_query c) v
    (_transformer c).
Definition set_transformer (c : Cursor) (v : option Transformer) : Cursor :=
  mkCursor (_conn c) (format c) (arraysize c) (_closed c) (_results c)
    (_pgresult c) (_pos c) (_iresult c) (_rowcount c) (_query c) (_params c)
    v.

(** The assignment [self._pgresult = result] alone. *)
Definition store_pgresult (c : Cursor) (r : option PGresult) : Cursor :=
  mkCursor (_conn c) (format c) (arraysize c) (_closed c) (_results c) r
    (_pos c) (_iresult c) (_rowcount c) (_query c) (_params c)
    (_transformer c).

(** The [pgresult] setter. The result is stored, then
    [result and self._transformer] is evaluated: with no result the
    transformer is not read; with a result it is, and the attribute has
    no value before [_start_query] has assigned it, so reading it raises
    AttributeError; a transformer that is there gets the result too. *)
Definition set_pgresult (c : Cursor) (r : option PGresult) : result Cursor :=
  let c := store_pgresult c r in
  match r with
  | None => Ok c
  | Some _ =>
      match _transformer c with
      | None => Raise AttributeError
      | Some _ => Ok (set_transformer c (Some (mkTransformer r)))
      end
  end.

(** [pgconn.send_*]: the call is appended to the log. *)
Definition pgconn_send (c : Cursor) (call : PQcall) : Cursor :=
  set_conn c
    (mkConnection (conn_closed (_conn c)) (pgconn_status_ok (_conn c))
       (sent (_conn c) ++ [call])).

(** [BaseCursor._reset]. [self.pgresult = None] goes through the setter
    with no result, which stores it and reads nothing else. *)
Definition _reset (self : Cursor) : Cursor :=
  let self := set_results self [] in
  let self := store_pgresult self None in
  let self := set_pos self 0 in
  let self := set_iresult self 0 in
  let self := set_rowcount self (-1) in
  let self := set_query self None in
  set_params self None.

Definition nextset (self : Cursor) : result (option bool * Cursor) :=
  let self := set_iresult self (_iresult self + 1) in
  if decide (_iresult self < Z.of_nat (length (_results self))) then
    match _results self !! Z.to_nat (_iresult self) with
    | Some r =>
        self <- set_pgresult self (Some r) ;;
        let self := set_pos self 0 in
        let nrows := command_tuples r in
        Ok (Some true,
            set_rowcount self (match nrows with Some n => n | None => -1 end))
    | None => Ok (None, self)
    end
  else Ok (None, self).

Definition _status_ok : gset ExecStatus :=
  {[ TUPLES_OK; COMMAND_OK; EMPTY_QUERY ]}.

Definition _status_copy : gset ExecStatus :=
  {[ COPY_IN; COPY_OUT; COPY_BOTH ]}.

(** [BaseCursor._execute_results]. [List.last results r0] is
    [results[-1]] of the non-empty sequence. *)
Definition _execute_results (self : Cursor) (results : list PGresult)
  : result Cursor :=
  match results with
  | [] => Raise InternalError
  | r0 :: _ =>
      let statuses : gset ExecStatus := list_to_set (status <$> results) in
      let badstats := statuses ∖ _status_ok in
      if decide (badstats = ∅) then
        let self := set_results self results in
        self <- set_pgresult self (Some r0) ;;
        match command_tuples r0 with
        | Some nrows =>
            if decide (_rowcount self < 0)
            then Ok (set_rowcount self nrows)
            else Ok (set_rowcount self (_rowcount self + nrows))
        | None => Ok self
        end
      else if decide (status (List.last results r0) = FATAL_ERROR) then
        Raise (error_from_result (List.last results r0))
      else if decide (badstats ∩ _status_copy ≠ ∅) then
        Raise ProgrammingError
      else
        Raise InternalError
  end.

Definition _check_result (self : Cursor) : result unit :=
  match _pgresult self with
  | None => Raise ProgrammingError
  | Some res =>
      if decide (status res ≠ TUPLES_OK) then Raise ProgrammingError
      else Ok tt
  end.

Definition _check_copy_results (results : list PGresult) : result unit :=
  match results with
  | [r] =>
      if decide (status r = COPY_IN \/ status r = COPY_OUT) then Ok tt
      else if decide (status r = FATAL_ERROR) then
        Raise (error_from_result r)
      else Raise ProgrammingError
  | _ => Raise InternalError
  end.

(** [BaseCursor.__init__]: the attributes as they are when it returns;
    the transformer is not assigned yet. *)
Definition Cursor_init (connection : Connection) (format : Format) : Cursor :=
  mkCursor connection format 1 false [] None 0 0 (-1) None None None.

Definition close (self : Cursor) : Cursor :=
  _reset (set_closed self true).

Section WithEnvironment.

(** What lies outside the files at hand is a parameter:
    the query builder, the server and the row decoder. *)
Context {Query Params Row : Type}.

(** [PostgresQuery(tx).convert(query, params)] and [pgq.dump(params)]. *)
Variable convert : Query -> option Params -> result PostgresQuery.
Variable dump : PostgresQuery -> Params -> result PostgresQuery.

(** [self._conn._start_query()]: it may raise; its own traffic is not
    part of the cursor's log. *)
Variable conn_start_query : Connection -> option exn.

(** [self._conn.wait(execute(pgconn))]: the results that the server
    gives for the calls sent so far. *)
Variable server : list PQcall -> list PGresult.

(** [Transformer.load_row(i)] on the transformer's current result. *)
Variable load_row : PGresult -> Z -> option Row.

Definition wait_execute (self : Cursor) : list PGresult :=
  server (sent (_conn self)).

Definition _start_query (self : Cursor) : result Cursor :=
  if _closed self then Raise InterfaceError
  else if conn_closed (_conn self) then Raise InterfaceError
  else if negb (pgconn_status_ok (_conn self)) then Raise InterfaceError
  else
    let self := _reset self in
    Ok (set_transformer self (Some (mkTransformer None))).

Definition conn__start_query (self : Cursor) : result Cursor :=
  match conn_start_query (_conn self) with
  | Some e => Raise e
  | None => Ok self
  end.

(** Truth value of [pgq.params]: a non-empty list. *)
Definition params_truthy (p : option (list (option bytes))) : bool :=
  match p with
  | Some (_ :: _) => true
  | _ => false
  end.

Definition _execute_send (self : Cursor) (query : Query)
    (params : option Params) (no_pqexec : bool) : result Cursor :=
  pgq <- convert query params ;;
  if params_truthy (pgq_params pgq) || no_pqexec
     || bool_decide (format self = BINARY)
  then
    let self := set_query self (Some (pgq_query pgq)) in
    let self := set_params self (pgq_params pgq) in
    Ok (pgconn_send self
          (send_query_params (pgq_query pgq) (pgq_params pgq)
             (pgq_formats pgq) (pgq_types pgq) (format self)))
  else
    let self := set_query self (Some (pgq_query pgq)) in
    let self := set_params self None in
    Ok (pgconn_send self (send_query (pgq_query pgq))).

Definition _send_prepare (self : Cursor) (name : bytes) (query : Query)
    (params : option Params) : result (PostgresQuery * Cursor) :=
  pgq <- convert query params ;;
  let self := set_query self (Some (pgq_query pgq)) in
  Ok (pgq,
      pgconn_send self (send_prepare name (pgq_query pgq) (pgq_types pgq))).

Definition _send_query_prepared (self : Cursor) (name : bytes)
    (pgq : PostgresQuery) : Cursor :=
  let self := set_params self (pgq_params pgq) in
  pgconn_send self
    (send_query_prepared name (pgq_params pgq) (pgq_formats pgq)
       (format self)).

(** [Cursor.execute]; the lock is not modelled. *)
Definition execute (self : Cursor) (query : Query) (params : option Params)
  : result Cursor :=
  self <- _start_query self ;;
  self <- conn__start_query self ;;
  self <- _execute_send self query params false ;;
  let results := wait_execute self in
  _execute_results self results.

(** [(result,) = ...]: unpacking a sequence of exactly one element. *)
Definition unpack1 (results : list PGresult) : result PGresult :=
  match results with
  | [r] => Ok r
  | _ => Raise ValueError
  end.

(** The body of the [for params in params_seq] loop of
    [Cursor.executemany]. The loop state is [(first, pgq, self)];
    [pgq] is unbound until [_send_prepare] has returned. No statement
    of the body assigns [first], so it is handed on as it came. *)
Definition executemany_body (query : Query) (first : bool)
    (pgq : option PostgresQuery) (self : Cursor) (params : Params)
  : result (bool * option PostgresQuery * Cursor) :=
  st <- (if first then
           r <- _send_prepare self [] query (Some params) ;;
           let '(pgq, self) := r in
           res <- unpack1 (wait_execute self) ;;
           if decide (status res = FATAL_ERROR)
           then Raise (error_from_result res)
           else Ok (pgq, self)
         else
           match pgq with
           | None => Raise UnboundLocalError
           | Some pgq => pgq <- dump pgq params ;; Ok (pgq, self)
           end) ;;
  let '(pgq, self) := st in
  let self := _send_query_prepared self [] pgq in
  res <- unpack1 (wait_execute self) ;;
  self <- _execute_results self [res] ;;
  Ok (first, Some pgq, self).

Fixpoint executemany_loop (query : Query) (first : bool)
    (pgq : option PostgresQuery) (self : Cursor) (params_seq : list Params)
  : result Cursor :=
  match params_seq with
  | [] => Ok self
  | params :: rest =>
      st <- executemany_body query first pgq self params ;;
      let '(first, pgq, self) := st in
      executemany_loop query first pgq self rest
  end.

(** [Cursor.executemany]. *)
Definition executemany (self : Cursor) (query : Query)
    (params_seq : list Params) : result Cursor :=
  self <- _start_query self ;;
  self <- conn__start_query self ;;
  executemany_loop query true None self params_seq.

(** [self._transformer.load_row(i)]. *)
Definition tx_load_row (self : Cursor) (i : Z) : result (option Row) :=
  match _transformer self with
  | Some (mkTransformer (Some r)) => Ok (load_row r i)
  | _ => Raise AttributeError
  end.

(** [Cursor.fetchone]. *)
Definition fetchone (self : Cursor) : result (option Row * Cursor) :=
  _ <- _check_result self ;;
  rv <- tx_load_row self (_pos self) ;;
  match rv with
  | Some _ => Ok (rv, set_pos self (_pos self + 1))
  | None => Ok (rv, self)
  end.

(** The [for _ in range(size)] loop of [Cursor.fetchmany], on the
    locals [pos] and [rv]. *)
Fixpoint fetchmany_loop (self : Cursor) (n : nat) (pos : Z) (rv : list Row)
  : result (Z * list Row) :=
  match n with
  | O => Ok (pos, rv)
  | S n' =>
      row <- tx_load_row self pos ;;
      match row with
      | None => Ok (pos, rv)
      | Some r => fetchmany_loop self n' (pos + 1) (rv ++ [r])
      end
  end.

(** [Cursor.fetchmany]; [range(size)] is empty for a negative size. *)
Definition fetchmany (self : Cursor) (size : Z)
  : result (list Row * Cursor) :=
  _ <- _check_result self ;;
  let size := if decide (size = 0) then arraysize self else size in
  r <- fetchmany_loop self (Z.to_nat size) (_pos self) [] ;;
  let '(pos, rv) := r in
  Ok (rv, set_pos self pos).

(** [Cursor.__iter__] is a generator. [iter_start] is the code that
    runs before the loop, on the first [next]; [iter_next] is one trip
    round the [while 1] loop: [None] when the generator returns, the
    row that is yielded otherwise. *)
Definition iter_start (self : Cursor) : result unit := _check_result self.

Definition iter_next (self : Cursor) : result (option Row * Cursor) :=
  row <- tx_load_row self (_pos self) ;;
  match row with
  | None => Ok (None, self)
  | Some _ => Ok (row, set_pos self (_pos self + 1))
  end.

(** [list(self)]: the generator is resumed until it returns. The loop
    is unbounded in the source; [fuel] bounds the number of trips and
    [None] tells that it ran out. *)
Fixpoint iter_collect (fuel : nat) (self : Cursor) (acc : list Row)
  : option (result (list Row * Cursor)) :=
  match fuel with
  | O => None
  | S fuel' =>
      match iter_next self with
      | Raise e => Some (Raise e)
      | Ok (None, self') => Some (Ok (acc, self'))
      | Ok (Some row, self') => iter_collect fuel' self' (acc ++ [row])
      end
  end.

(** [Cursor.fetchall]. *)
Definition fetchall (fuel : nat) (self : Cursor)
  : option (result (list Row * Cursor)) :=
  match iter_start self with
  | Raise e => Some (Raise e)
  | Ok _ => iter_collect fuel self []
  end.

End WithEnvironment.

End CursorModel.

(** ** [struct] packing, network byte order *)

Module Struct.

Definition byte_of_Z (z : Z) : byte :=
  match Byte.of_N (Z.to_N (Z.land z 255)) with
  | Some b => b
  | None => x00
  end.

Definition Z_of_byte (b : byte) : Z := Z.of_N (Byte.to_N b).

(** The [w] low-order bytes of [z], most significant first. *)
Fixpoint be_bytes (w : nat) (z : Z) : bytes :=
  match w with
  | O => []
  | S w' => byte_of_Z (Z.shiftr z (8 * Z.of_nat w')) :: be_bytes w' z
  end.

Definition be_value (bs : bytes) : Z :=
  fold_left (fun acc b => acc * 256 + Z_of_byte b) bs 0.

(** [pack] of the format [!h]: a value out of range is a [struct.error]. *)
Definition pack_h (n : Z) : result bytes :=
  if decide (-32768 <= n <= 32767) then Ok (be_bytes 2 n)
  else Raise StructError.

(** [pack] of the format [!i]. *)
Definition pack_i (n : Z) : result bytes :=
  if decide (-2147483648 <= n <= 2147483647) then Ok (be_bytes 4 n)
  else Raise StructError.

(** [pack] of the format [!I]. *)
Definition pack_I (n : Z) : result bytes :=
  if decide (0 <= n <= 4294967295) then Ok (be_bytes 4 n)
  else Raise StructError.

(** The value of a signed 32-bit field. *)
Definition to_signed32 (v : Z) : Z :=
  if decide (v < 2147483648) then v else v - 4294967296.

(** [unpack_from(data, offset)] of a format of [nwords] 32-bit fields:
    the unsigned values of the fields. A negative offset counts from
    the end; the whole format must fit in the data. *)
Definition unpack_from (nwords : nat) (data : bytes) (offset : Z)
  : result (list Z) :=
  let len := Z.of_nat (length data) in
  let off := if decide (offset < 0) then offset + len else offset in
  if decide (0 <= off /\ off + 4 * Z.of_nat nwords <= len) then
    Ok (map (fun i => be_value (take 4 (drop (Z.to_nat off + 4 * i) data)))
          (seq 0 nwords))
  else Raise StructError.

End Struct.
Export Struct.

(** ** COPY engine ([psycopg3/copy.py]) *)

Module CopyModel.

(** [_bsrepl_re]: the bytes of its character class, which are
    backspace, tab, newline, vertical tab, form feed, carriage return
    and backslash. *)
Definition _bsrepl_re (c : byte) : bool :=
  bool_decide (c ∈ [x08; x09; x0a; x0b; x0c; x0d; x5c]).

(** The dictionary [__map] of [_bsrepl_sub]. *)
Definition _bsrepl_map : list (byte * bytes) :=
  [ (x08, [x5c; "b"%byte]);
    (x09, [x5c; "t"%byte]);
    (x0a, [x5c; "n"%byte]);
    (x0b, [x5c; "v"%byte]);
    (x0c, [x5c; "f"%byte]);
    (x0d, [x5c; "r"%byte]);
    (x5c, [x5c; x5c]) ].

Fixpoint dict_get (d : list (byte * bytes)) (k : byte) : option bytes :=
  match d with
  | [] => None
  | (k', v) :: d' => if decide (k' = k) then Some v else dict_get d' k
  end.

(** [_bsrepl_sub(m)] on the one-byte match [m.group(0)]: a missing key
    is a [KeyError]. *)
Definition _bsrepl_sub (c : byte) : result bytes :=
  match dict_get _bsrepl_map c with
  | Some v => Ok v
  | None => Raise KeyError
  end.

(** [pattern.sub(repl, s)] for a pattern that is a class of single
    bytes: every byte of the class is replaced by what [repl] gives for
    it, every other byte is copied. *)
Fixpoint re_sub_class (cls : byte -> bool) (repl : byte -> result bytes)
    (s : bytes) : result bytes :=
  match s with
  | [] => Ok []
  | c :: s' =>
      out <- (if cls c then repl c else Ok [c]) ;;
      rest <- re_sub_class cls repl s' ;;
      Ok (out ++ rest)
  end.

(** [sep.join(parts)]. *)
Fixpoint join (sep : bytes) (parts : list bytes) : bytes :=
  match parts with
  | [] => []
  | [p] => p
  | p :: ps => p ++ sep ++ join sep ps
  end.

(** [BaseCopy._format_row_text]. *)
Definition _format_row_text (row : list (option bytes)) : result bytes :=
  parts <- mapM (fun item =>
                   match item with
                   | Some item => re_sub_class _bsrepl_re _bsrepl_sub item
                   | None => Ok [x5c; "N"%byte]
                   end) row ;;
  Ok (join [x09] parts ++ [x0a]).

(** Signature, flags, extra length. *)
Definition binary_prologue : bytes :=
  ["P"; "G"; "C"; "O"; "P"; "Y"; x0a; xff; x0d; x0a; x00]%byte
  ++ [x00; x00; x00; x00] ++ [x00; x00; x00; x00].

(** The loop [for item in row] of [_format_row_binary], on [out]. *)
Fixpoint binary_fields (row : list (option bytes)) (out : list bytes)
  : result (list bytes) :=
  match row with
  | [] => Ok out
  | Some item :: row' =>
      len <- pack_i (Z.of_nat (length item)) ;;
      binary_fields row' (out ++ [len] ++ [item])
  | None :: row' => binary_fields row' (out ++ [[xff; xff; xff; xff]])
  end.

(** The COPY session: the attributes of [BaseCopy] that its methods
    read and assign, [self.cursor._rowcount], and the wire: the buffers
    given to [put_copy_data] and the arguments of [put_copy_end], oldest
    first, and the chunks the server has still to deliver. *)
Record Copy : Type := mkCopy {
  _pgresult : PGresult;
  format : Format;
  _first_row : bool;
  _finished : bool;
  cursor_rowcount : Z;
  copy_data : list bytes;
  copy_end_errors : list (option bytes);
  incoming : list bytes;
}.

Definition set_first_row (c : Copy) (v : bool) : Copy :=
  mkCopy (_pgresult c) (format c) v (_finished c) (cursor_rowcount c)
    (copy_data c) (copy_end_errors c) (incoming c).
Definition set_finished (c : Copy) (v : bool) : Copy :=
  mkCopy (_pgresult c) (format c) (_first_row c) v (cursor_rowcount c)
    (copy_data c) (copy_end_errors c) (incoming c).
Definition set_cursor_rowcount (c : Copy) (v : Z) : Copy :=
  mkCopy (_pgresult c) (format c) (_first_row c) (_finished c) v
    (copy_data c) (copy_end_errors c) (incoming c).
Definition set_copy_data (c : Copy) (v : list bytes) : Copy :=
  mkCopy (_pgresult c) (format c) (_first_row c) (_finished c)
    (cursor_rowcount c) v (copy_end_errors c) (incoming c).
Definition set_copy_end_errors (c : Copy) (v : list (option bytes)) : Copy :=
  mkCopy (_pgresult c) (format c) (_first_row c) (_finished c)
    (cursor_rowcount c) (copy_data c) v (incoming c).
Definition set_incoming (c : Copy) (v : list bytes) : Copy :=
  mkCopy (_pgresult c) (format c) (_first_row c) (_finished c)
    (cursor_rowcount c) (copy_data c) (copy_end_errors c) v.

(** A method of the session: it returns or raises, and in both cases
    leaves the session in the state it had reached. *)
Definition CopyM (A : Type) : Type := Copy -> result A * Copy.

Definition cret {A} (a : A) : CopyM A := fun c => (Ok a, c).
Definition craise {A} (e : exn) : CopyM A := fun c => (Raise e, c).
Definition cbind {A B} (m : CopyM A) (k : A -> CopyM B) : CopyM B :=
  fun c =>
    match m c with
    | (Ok a, c') => k a c'
    | (Raise e, c') => (Raise e, c')
    end.
Definition clift {A} (r : result A) : CopyM A := fun c => (r, c).
Definition cget : CopyM Copy := fun c => (Ok c, c).
Definition cmodify (f : Copy -> Copy) : CopyM unit := fun c => (Ok tt, f c).

Notation "x <~ m ;; k" := (cbind m (fun x => k))
  (at level 100, m at next level, right associativity).

(** [BaseCopy.__init__]: the session of a cursor whose transformer
    holds [pgresult], on a wire on which the server will deliver
    [chunks]. *)
Definition Copy_init (pgresult : PGresult) (rowcount : Z)
    (chunks : list bytes) : Copy :=
  mkCopy pgresult (binary_tuples pgresult) true false rowcount [] [] chunks.

(** [BaseCopy._format_row_binary]. *)
Definition _format_row_binary (row : list (option bytes)) : CopyM bytes :=
  self <~ cget ;;
  out <~ (if _first_row self then
            _ <~ cmodify (fun c => set_first_row c false) ;;
            cret [binary_prologue]
          else cret []) ;;
  n <~ clift (pack_h (Z.of_nat (length row))) ;;
  out <~ clift (binary_fields row (out ++ [n])) ;;
  cret (concat out).

(** [self._format_copy_row], as bound in [__init__]. *)
Definition _format_copy_row (row : list (option bytes)) : CopyM bytes :=
  self <~ cget ;;
  if decide (format self = TEXT) then clift (_format_row_text row)
  else _format_row_binary row.

(** What [write] accepts: [bytes], [str], or something else. *)
Inductive Buffer : Type :=
  | Bytes (data : bytes)
  | Str (data : string)
  | Other.

Section WithEnvironment.

(** A value of a row, and what lies outside the files at hand:
    the dumper chosen for a value and a format, the codec of the
    client encoding, and the terminal results of the server. *)
Context {Item : Type}.
Variable dumper_dump : Format -> Item -> bytes.
Variable encode : string -> bytes.

(** Modelled from the spec: the generators [copy_to], [copy_end] and
    [copy_from] are outside the files at hand. [copy_to] calls
    [put_copy_data(buf)] until it is sent; [copy_end] calls
    [put_copy_end(err)], drains, and returns the single terminal
    result, unless the exchange raises; [copy_from] returns the next
    chunk, or the terminal result when the data is done. *)
Variable copy_end_reply : list bytes -> option bytes -> result PGresult.
Variable copy_from_final : PGresult.

Definition wait_copy_to (buf : bytes) : CopyM unit :=
  cmodify (fun c => set_copy_data c (copy_data c ++ [buf])).

Definition wait_copy_end (berr : option bytes) : CopyM PGresult :=
  self <~ cget ;;
  _ <~ cmodify (fun c =>
         set_copy_end_errors c (copy_end_errors c ++ [berr])) ;;
  clift (copy_end_reply (copy_data self) berr).

Definition wait_copy_from : CopyM (bytes + PGresult) :=
  self <~ cget ;;
  match incoming self with
  | chunk :: rest =>
      _ <~ cmodify (fun c => set_incoming c rest) ;;
      cret (inl chunk)
  | [] => cret (inr copy_from_final)
  end.

(** [BaseCopy._format_row]. *)
Definition _format_row (row : list (option Item)) : CopyM bytes :=
  self <~ cget ;;
  let out :=
    map (fun item =>
           match item with
           | Some item => Some (dumper_dump (format self) item)
           | None => None
           end) row in
  _format_copy_row out.

(** [BaseCopy._ensure_bytes]. *)
Definition _ensure_bytes (data : Buffer) : CopyM bytes :=
  self <~ cget ;;
  match data with
  | Bytes data => cret data
  | Str data =>
      if decide (binary_tuples (_pgresult self) = BINARY)
      then craise TypeError
      else cret (encode data)
  | Other => craise TypeError
  end.

(** [Copy.read]. *)
Definition read : CopyM bytes :=
  self <~ cget ;;
  if _finished self then cret []
  else
    res <~ wait_copy_from ;;
    match res with
    | inl data => cret data
    | inr res =>
        _ <~ cmodify (fun c => set_finished c true) ;;
        let nrows := command_tuples res in
        _ <~ cmodify (fun c =>
               set_cursor_rowcount c
                 (match nrows with Some n => n | None => -1 end)) ;;
        cret []
    end.

(** [Copy.write]. *)
Definition write (buffer : Buffer) : CopyM unit :=
  data <~ _ensure_bytes buffer ;;
  wait_copy_to data.

(** [Copy.write_row]. *)
Definition write_row (row : list (option Item)) : CopyM unit :=
  data <~ _format_row row ;;
  write (Bytes data).

(** [Copy._finish]; the empty message stands for no error. *)
Definition _finish (error : string) : CopyM unit :=
  let berr := if decide (error = EmptyString) then None
              else Some (encode error) in
  res <~ wait_copy_end berr ;;
  let nrows := command_tuples res in
  _ <~ cmodify (fun c =>
         set_cursor_rowcount c
           (match nrows with Some n => n | None => -1 end)) ;;
  cmodify (fun c => set_finished c true).

(** [Copy.__enter__]. *)
Definition __enter__ : CopyM unit :=
  self <~ cget ;;
  if _finished self then craise TypeError else cret tt.

(** [Copy.__exit__]. [exc] is [None] on a normal exit, and the
    qualified name and text of the exception otherwise. *)
Definition __exit__ (exc : option (string * string)) : CopyM unit :=
  self <~ cget ;;
  if decide (status (_pgresult self) = COPY_OUT) then cret tt
  else
    match exc with
    | None =>
        _ <~ (if bool_decide (format self = BINARY)
                 && negb (_first_row self)
              then write (Bytes [xff; xff])
              else cret tt) ;;
        _finish EmptyString
    | Some (qualname, val) =>
        _finish ("error from Python: " ++ qualname ++ " - " ++ val)
    end.

(** What the caller does inside the guarded block: a call of a method
    of the session, a [raise] of an exception of its own, or a call of
    [write_row] inside [try: ... except Exception: pass]. *)
Inductive Op : Type :=
  | OpWrite (buffer : Buffer)
  | OpWriteRow (row : list (option Item))
  | OpRead
  | OpRaise (e : exn)
  | OpTryWriteRow (row : list (option Item)).

Definition run_op (op : Op) : CopyM unit :=
  match op with
  | OpWrite buffer => write buffer
  | OpWriteRow row => write_row row
  | OpRead => _ <~ read ;; cret tt
  | OpRaise e => craise e
  | OpTryWriteRow row =>
      fun c =>
        match write_row row c with
        | (Raise _, c') => (Ok tt, c')
        | out => out
        end
  end.

(** The body of the block: the calls in order, up to the first that
    raises. *)
Fixpoint run_block (ops : list Op) : CopyM unit :=
  match ops with
  | [] => cret tt
  | op :: ops' => _ <~ run_op op ;; run_block ops'
  end.

(** What [__exit__] is told about an exception of the model. *)
Variable exc_info : exn -> string * string.

(** [with copy: body]: [__enter__], the body, then [__exit__] with the
    exception of the body if it raised one; [__exit__] returns [None],
    so that exception is raised again after it. *)
Definition with_copy (ops : list Op) : CopyM unit :=
  fun c =>
    match __enter__ c with
    | (Raise e, c') => (Raise e, c')
    | (Ok _, c') =>
        match run_block ops c' with
        | (Ok _, c'') => __exit__ None c''
        | (Raise e, c'') =>
            match __exit__ (Some (exc_info e)) c'' with
            | (Ok _, c''') => (Raise e, c''')
            | (Raise e', c''') => (Raise e', c''')
            end
        end
    end.

(** [Copy.__iter__] is a generator. [iter_step] is one trip round its
    [while True] loop: [None] when the generator returns, the chunk that
    is yielded otherwise. *)
Definition iter_step : CopyM (option bytes) :=
  data <~ read ;;
  match data with
  | [] => cret None
  | _ :: _ => cret (Some data)
  end.

(** [for data in copy], to the end: the generator is resumed until it
    returns. The loop is unbounded in the source; [fuel] bounds the
    number of trips and [None] tells that it ran out. *)
Fixpoint iter_all (fuel : nat) (acc : list bytes) (c : Copy)
  : option (result (list bytes) * Copy) :=
  match fuel with
  | O => None
  | S fuel' =>
      match iter_step c with
      | (Raise e, c') => Some (Raise e, c')
      | (Ok None, c') => Some (Ok acc, c')
      | (Ok (Some data), c') => iter_all fuel' (acc ++ [data]) c'
      end
  end.

End WithEnvironment.

End CopyModel.

(** ** Opening a COPY session ([Cursor._start_copy]) *)

Module StartCopyModel.
Import CursorModel.

Section WithEnvironment.

Context {Query Params : Type}.
Variable convert : Query -> option Params -> result PostgresQuery.
Variable conn_start_query : Connection -> option exn.
Variable server : list PQcall -> list PGresult.

(** [BaseCopy.__init__] on the cursor: the session is on the result
    that the transformer of the cursor holds, and an assertion fails
    when it holds none. [chunks] is what the server will deliver. *)
Definition Copy_of_cursor (cursor : Cursor) (chunks : list bytes)
  : result CopyModel.Copy :=
  match _transformer cursor with
  | Some (mkTransformer (Some r)) =>
      Ok (CopyModel.Copy_init r (_rowcount cursor) chunks)
  | Some (mkTransformer None) => Raise AssertionError
  | None => Raise AttributeError
  end.

(** [Cursor._start_copy]; the lock is not modelled. *)
Definition _start_copy (self : Cursor) (statement : Query)
    (chunks : list bytes) : result (Cursor * CopyModel.Copy) :=
  self <- _start_query self ;;
  self <- conn__start_query conn_start_query self ;;
  self <- _execute_send convert self statement None true ;;
  let results := wait_execute server self in
  _ <- _check_copy_results results ;;
  match results with
  | r0 :: _ =>
      self <- set_pgresult self (Some r0) ;;
      copy <- Copy_of_cursor self chunks ;;
      Ok (self, copy)
  | [] => Raise IndexError
  end.

End WithEnvironment.

End StartCopyModel.

(** ** Array codec ([types/array.py]) *)

Module ArrayModel.

(** A Python value as the codec sees it: [None], a list, or a scalar. *)
Inductive pyval (A : Type) : Type :=
  | PNone
  | PScalar (a : A)
  | PList (items : list (pyval A)).
Arguments PNone {A}.
Arguments PScalar {A} a.
Arguments PList {A} items.

(** What [Transformer.adapt] returns: the data alone, or the pair of the
    data and an OID. *)
Inductive adapted : Type :=
  | Bare (data : option bytes)
  | WithOid (data : option bytes) (oid : Z).

(** *** Regular expressions of the module, as scanners *)

(** [\s] of a bytes pattern. *)
Definition is_space (c : byte) : bool :=
  bool_decide (c ∈ [x20; x09; x0a; x0d; x0c; x0b]).

Definition ascii_lower (c : byte) : byte :=
  let n := Z_of_byte c in
  if decide (65 <= n <= 90) then byte_of_Z (n + 32) else c.

(** [_re_needs_quote.search(ad) is not None]: the empty string, a
    character to escape, or the word NULL whatever its case. Without
    the MULTILINE flag [$] also matches before a last newline. *)
Definition _re_needs_quote (ad : bytes) : bool :=
  bool_decide (ad = [] \/ ad = [x0a])
  || existsb (fun c => bool_decide (c ∈ [x22; x7b; x7d; x2c; x5c])
                       || is_space c) ad
  || bool_decide (map ascii_lower ad = ["n"; "u"; "l"; "l"]%byte
                  \/ map ascii_lower ad = ["n"; "u"; "l"; "l"; x0a]%byte).

(** [_re_escape.sub] with its template: a backslash before every double
    quote and every backslash. *)
Definition _re_escape_sub (ad : bytes) : bytes :=
  flat_map (fun c => if bool_decide (c ∈ [x22; x5c]) then [x5c; c] else [c])
    ad.

(** [_re_unescape.sub] with its template, for the pattern of a
    backslash and a dot in a group: scanning
    from the left, a backslash and the byte after it become that byte;
    the dot does not match a newline, so a backslash before a newline,
    or at the end, stays. *)
Fixpoint _re_unescape_sub (t : bytes) : bytes :=
  match t with
  | [] => []
  | c :: t' =>
      if decide (c = x5c) then
        match t' with
        | d :: t'' =>
            if decide (d = x0a) then c :: _re_unescape_sub t'
            else d :: _re_unescape_sub t''
        | [] => [c]
        end
      else c :: _re_unescape_sub t'
  end.

(** The optional comma that ends [_re_parse]. *)
Definition skip_comma (s : bytes) : bytes :=
  match s with
  | c :: s' => if decide (c = x2c) then s' else s
  | [] => []
  end.

(** The rest of a quoted string after its opening quote: a run of
    bytes that are neither a double quote nor a backslash, or of a
    backslash and one more byte that is not a newline, up to the closing
    quote. The result is the text up to and with the closing quote, and
    what follows it. Which alternative applies is decided by the byte
    at hand, so the greedy scan is the only match. *)
Fixpoint quoted_tail (s : bytes) : option (bytes * bytes) :=
  match s with
  | [] => None
  | c :: s' =>
      if decide (c = x22) then Some ([c], s')
      else if decide (c = x5c) then
        match s' with
        | d :: s'' =>
            if decide (d = x0a) then None
            else
              match quoted_tail s'' with
              | Some (t, rest) => Some (c :: d :: t, rest)
              | None => None
              end
        | [] => None
        end
      else
        match quoted_tail s' with
        | Some (t, rest) => Some (c :: t, rest)
        | None => None
        end
  end.

(** The class of the unquoted alternative: any byte but a double
    quote, a brace, a comma or a backslash. *)
Definition is_unquoted (c : byte) : bool :=
  negb (bool_decide (c ∈ [x22; x7b; x7d; x2c; x5c])).

(** The longest prefix of bytes that satisfy [p], and the rest. *)
Fixpoint span (p : byte -> bool) (s : bytes) : bytes * bytes :=
  match s with
  | c :: s' =>
      if p c then let '(run, rest) := span p s' in (c :: run, rest)
      else ([], s)
  | [] => ([], [])
  end.

(** A match of [_re_parse] that starts at the head of [s]: [group(1)]
    and the text after the match. *)
Definition _re_parse_match (s : bytes) : option (bytes * bytes) :=
  match s with
  | [] => None
  | c :: s' =>
      if bool_decide (c ∈ [x7b; x7d]) then Some ([c], skip_comma s')
      else if decide (c = x22) then
        match quoted_tail s' with
        | Some (t, rest) => Some (c :: t, skip_comma rest)
        | None => None
        end
      else if is_unquoted c then
        let '(run, rest) := span is_unquoted s in Some (run, skip_comma rest)
      else None
  end.

(** [[m.group(1) for m in _re_parse.finditer(data)]]: the matches from
    left to right; where none starts, the scan moves on by a byte.
    Every trip consumes a byte, so [length s] trips are enough. *)
Fixpoint finditer_fuel (fuel : nat) (s : bytes) : list bytes :=
  match fuel with
  | O => []
  | S fuel' =>
      match s with
      | [] => []
      | _ :: s' =>
          match _re_parse_match s with
          | Some (t, rest) => t :: finditer_fuel fuel' rest
          | None => finditer_fuel fuel' s'
          end
      end
  end.

Definition _re_parse_finditer (data : bytes) : list bytes :=
  finditer_fuel (length data) data.

Section WithCodec.

Context {A : Type}.

(** What lies outside the files at hand: the OIDs of [text] and of
    [text[]], the table [builtins] (the array OID of a registered base
    OID), the dumper that [Transformer.adapt] finds for a scalar, what
    it returns for [None], and the loader that [get_cast_function]
    finds. *)
Variable TEXT_OID TEXT_ARRAY_OID : Z.
Variable builtins_array_oid : Z -> option Z.
Variable tx_adapt : Format -> A -> adapted.
Variable tx_adapt_none : Format -> adapted.
Variable get_cast_function : Z -> Format -> bytes -> result A.

(** [BaseListAdapter._array_oid]. *)
Definition _array_oid (base_oid : Z) : Z :=
  let oid :=
    if decide (base_oid = 0) then 0
    else match builtins_array_oid base_oid with
         | Some array_oid => array_oid
         | None => 0
         end in
  if decide (oid = 0) then TEXT_ARRAY_OID else oid.

(** *** [TextListAdapter] *)

(** The variables that the closure [adapt_list] shares with [adapt]. *)
Record text_state : Type := mkTextState {
  tokens : list bytes;
  t_oid : Z;
}.

Definition push_token (st : text_state) (t : bytes) : text_state :=
  mkTextState (tokens st ++ [t]) (t_oid st).

(** [tokens[-1] = t]. *)
Definition set_last_token (st : text_state) (t : bytes) : text_state :=
  mkTextState (<[ (length (tokens st) - 1)%nat := t ]> (tokens st))
    (t_oid st).

(** The branch of the loop of [adapt_list] for an item that is
    neither a list nor [None]. [oid] is shared by all the calls of
    [adapt_list]; [got_type] is a local of the running call, assigned
    where that call fixes the OID. The message of the DataError reads
    [got_type], so when the OID was fixed by another call the local has
    no value and UnboundLocalError is raised in place of DataError. *)
Definition text_adapt_scalar (item : A) (got_type : bool) (st : text_state)
  : result (bool * text_state) :=
  r <- match tx_adapt TEXT item with
       | WithOid data oid =>
           if decide (t_oid st = 0) then
             Ok (data, true, mkTextState (tokens st) oid)
           else if decide (t_oid st ≠ oid) then
             if got_type then Raise DataError else Raise UnboundLocalError
           else Ok (data, got_type, st)
       | Bare data => Ok (data, got_type, st)
       end ;;
  let '(ad, got_type, st) := r in
  match ad with
  | Some ad =>
      let ad :=
        if _re_needs_quote ad then [x22] ++ _re_escape_sub ad ++ [x22]
        else ad in
      Ok (got_type, push_token st ad)
  | None => Ok (got_type, push_token st ["N"; "U"; "L"; "L"]%byte)
  end.

(** The loop [for item in obj] of the closure [adapt_list], with the
    local [got_type] of the call that runs it; the call of [adapt_list]
    on an item that is a list is [adapt_list] here, and has a
    [got_type] of its own. *)
Fixpoint text_adapt_items
    (adapt_list : pyval A -> text_state -> result text_state)
    (items : list (pyval A)) (got_type : bool) (st : text_state)
  : result text_state :=
  match items with
  | [] => Ok st
  | item :: items' =>
      r <- match item with
           | PList _ => st <- adapt_list item st ;; Ok (got_type, st)
           | PNone => Ok (got_type, push_token st ["N"; "U"; "L"; "L"]%byte)
           | PScalar a => text_adapt_scalar a got_type st
           end ;;
      let '(got_type, st) := r in
      text_adapt_items adapt_list items' got_type (push_token st [x2c])
  end.

(** The closure [adapt_list] of [TextListAdapter.adapt], on a value
    that is a list; [got_type] has no value when the call starts. *)
Fixpoint text_adapt_list (obj : pyval A) (st : text_state)
  : result text_state :=
  match obj with
  | PList [] => Ok (push_token st [x7b; x7d])
  | PList items =>
      let st := push_token st [x7b] in
      st <- text_adapt_items text_adapt_list items false st ;;
      Ok (set_last_token st [x7d])
  | _ => Raise TypeError
  end.

(** [TextListAdapter.adapt]. *)
Definition TextListAdapter_adapt (obj : list (pyval A))
  : result (bytes * Z) :=
  st <- text_adapt_list (PList obj) (mkTextState [] 0) ;;
  Ok (concat (tokens st), _array_oid (t_oid st)).

(** *** [ArrayCasterText] *)

(** The lists that [cast] builds are shared: a list is appended to
    its parent when it is opened and filled afterwards through the
    stack. The store holds the list objects by address; an element of
    a list is [None], a loaded value, or the address of a list. *)
Inductive cell : Type :=
  | CNone
  | CVal (a : A)
  | CRef (addr : nat).

(** The locals of [cast]: the store, the stack (its top is the head)
    and [rv]. *)
Record parser : Type := mkParser {
  store : list (list cell);
  stack : list nat;
  rv : option nat;
}.

(** [lst.append(c)] on the list at [addr]. *)
Definition store_append (h : list (list cell)) (addr : nat) (c : cell)
  : list (list cell) :=
  alter (fun l => l ++ [c]) addr h.

(** The body of the loop of [cast] for the token [t]. *)
Definition cast_step (base_oid : Z) (st : parser) (t : bytes)
  : result parser :=
  if decide (t = [x7b]) then
    let a := length (store st) in
    let h := store st ++ [[]] in
    let rv' := match rv st with None => Some a | Some _ => rv st end in
    let h := match stack st with
             | top :: _ => store_append h top (CRef a)
             | [] => h
             end in
    Ok (mkParser h (a :: stack st) rv')
  else if decide (t = [x7d]) then
    match stack st with
    | [] => Raise DataError
    | top :: stack' => Ok (mkParser (store st) stack' (Some top))
    end
  else
    match stack st with
    | [] => Raise DataError
    | top :: _ =>
        v <- (if decide (t = ["N"; "U"; "L"; "L"]%byte) then Ok CNone
              else
                let t :=
                  match t with
                  | c :: t' =>
                      if decide (c = x22)
                      then _re_unescape_sub (removelast t')
                      else t
                  | [] => t
                  end in
                a <- get_cast_function base_oid TEXT t ;;
                Ok (CVal a)) ;;
        Ok (mkParser (store_append (store st) top v) (stack st) (rv st))
    end.

Fixpoint cast_loop (base_oid : Z) (st : parser) (ts : list bytes)
  : result parser :=
  match ts with
  | [] => Ok st
  | t :: ts' =>
      st <- cast_step base_oid st t ;;
      cast_loop base_oid st ts'
  end.

(** The values of the elements of a list of the store; [read] gives
    the value of the list at an address. *)
Fixpoint read_cells (read : nat -> option (pyval A)) (cells : list cell)
  : option (list (pyval A)) :=
  match cells with
  | [] => Some []
  | c :: cells' =>
      match (match c with
             | CNone => Some PNone
             | CVal a => Some (PScalar a)
             | CRef b => read b
             end), read_cells read cells' with
      | Some v, Some vs => Some (v :: vs)
      | _, _ => None
      end
  end.

(** The value of the list at [addr], with the lists it holds. The
    depth of a value is below the number of lists of the store, which
    bounds [fuel]. *)
Fixpoint read_list (fuel : nat) (h : list (list cell)) (addr : nat)
  : option (pyval A) :=
  match fuel with
  | O => None
  | S fuel' =>
      match h !! addr with
      | None => None
      | Some cells => option_map PList (read_cells (read_list fuel' h) cells)
      end
  end.

(** [ArrayCasterText.cast], for the caster of base OID [base_oid]. *)
Definition ArrayCasterText_cast (base_oid : Z) (data : bytes)
  : result (pyval A) :=
  st <- cast_loop base_oid (mkParser [] [] None) (_re_parse_finditer data) ;;
  match rv st with
  | None => Raise AssertionError
  | Some addr =>
      match read_list (S (length (store st))) (store st) addr with
      | Some v => Ok v
      | None => Raise InternalError
      end
  end.

(** *** [BinaryListAdapter] *)

(** [_struct_head.pack], [_struct_dim.pack] and [_struct_len.pack]. *)
Definition _struct_head_pack (ndims hasnull oid : Z) : result bytes :=
  a <- pack_I ndims ;; b <- pack_I hasnull ;; c <- pack_I oid ;;
  Ok (a ++ b ++ c).

Definition _struct_dim_pack (dim lower : Z) : result bytes :=
  a <- pack_I dim ;; b <- pack_I lower ;; Ok (a ++ b).

Definition _struct_len_pack (n : Z) : result bytes := pack_i n.

(** The closure [calc_dims]: down the first elements, as long as they
    are lists. *)
Fixpoint calc_dims (L : pyval A) (dims : list Z) : result (list Z) :=
  match L with
  | PList [] => Raise DataError
  | PList (first :: rest) =>
      calc_dims first (dims ++ [Z.of_nat (length (first :: rest))])
  | _ => Ok dims
  end.

(** The variables that the closure [adapt_list] shares with [adapt]. *)
Record binary_state : Type := mkBinaryState {
  data : list bytes;
  hasnull : Z;
  b_oid : Z;
}.

(** The body of the loop over the items of the last dimension, once
    the item is adapted. [oid] and [hasnull] are shared by all the calls
    of [adapt_list]; [got_type] is a local of the running call, assigned
    where that call fixes the OID. The message of the DataError reads
    [got_type], so when the OID was fixed by another call the local has
    no value and UnboundLocalError is raised in place of DataError. *)
Definition binary_adapt_leaf (ad : adapted) (got_type : bool)
    (st : binary_state) : result (bool * binary_state) :=
  r <- match ad with
       | WithOid ad oid =>
           if decide (b_oid st = 0) then
             Ok (ad, true, mkBinaryState (data st) (hasnull st) oid)
           else if decide (b_oid st ≠ oid) then
             if got_type then Raise DataError else Raise UnboundLocalError
           else Ok (ad, got_type, st)
       | Bare ad => Ok (ad, got_type, st)
       end ;;
  let '(ad, got_type, st) := r in
  match ad with
  | None =>
      Ok (got_type,
          mkBinaryState (data st ++ [[xff; xff; xff; xff]]) 1 (b_oid st))
  | Some ad =>
      len <- _struct_len_pack (Z.of_nat (length ad)) ;;
      Ok (got_type,
          mkBinaryState (data st ++ [len] ++ [ad]) (hasnull st) (b_oid st))
  end.

(** The closure [adapt_list(L, dim)]. The items of the last dimension
    go through [Transformer.adapt], which is [adapt_any] here; the
    local [got_type] has no value when the loop over them starts. *)
Fixpoint binary_adapt_list (adapt_any : pyval A -> result adapted)
    (dims : list Z) (L : pyval A) (dim : nat) (st : binary_state)
  : result binary_state :=
  match L with
  | PList items =>
      match dims !! dim with
      | None => Raise IndexError
      | Some d =>
          if decide (Z.of_nat (length items) ≠ d) then Raise DataError
          else if decide (dim = (length dims - 1)%nat) then
            (fix loop (items : list (pyval A)) (got_type : bool)
                 (st : binary_state) : result binary_state :=
               match items with
               | [] => Ok st
               | item :: items' =>
                   ad <- adapt_any item ;;
                   r <- binary_adapt_leaf ad got_type st ;;
                   let '(got_type, st) := r in
                   loop items' got_type st
               end) items false st
          else
            (fix loop (items : list (pyval A)) (st : binary_state)
               : result binary_state :=
               match items with
               | [] => Ok st
               | item :: items' =>
                   st <- match item with
                         | PList _ =>
                             binary_adapt_list adapt_any dims item
                               (S dim) st
                         | _ => Raise DataError
                         end ;;
                   loop items' st
               end) items st
      end
  | _ => Raise TypeError
  end.

(** [BinaryListAdapter.adapt], on a value that is a list. The class is
    registered as the binary adapter of [list], so it is what
    [Transformer.adapt] runs on an item that is a list; its pair of
    data and OID is what the item is adapted to. *)
Fixpoint binary_adapt (obj : pyval A) : result (bytes * Z) :=
  match obj with
  | PList [] =>
      head <- _struct_head_pack 0 0 TEXT_OID ;;
      Ok (head, TEXT_ARRAY_OID)
  | PList _ =>
      dims <- calc_dims obj [] ;;
      st <- binary_adapt_list
              (fun item =>
                 match item with
                 | PNone => Ok (tx_adapt_none BINARY)
                 | PScalar a => Ok (tx_adapt BINARY a)
                 | PList _ =>
                     r <- binary_adapt item ;;
                     Ok (WithOid (Some (fst r)) (snd r))
                 end)
              dims obj 0 (mkBinaryState [[]; []] 0 0) ;;
      let oid := if decide (b_oid st = 0) then TEXT_OID else b_oid st in
      head <- _struct_head_pack (Z.of_nat (length dims)) (hasnull st)
                (if decide (oid = 0) then TEXT_OID else oid) ;;
      dimsb <- mapM (fun dim => _struct_dim_pack dim 1) dims ;;
      let data := <[ 1%nat := concat dimsb ]> (<[ 0%nat := head ]> (data st)) in
      Ok (concat data, _array_oid oid)
  | _ => Raise TypeError
  end.

Definition BinaryListAdapter_adapt (obj : list (pyval A))
  : result (bytes * Z) :=
  binary_adapt (PList obj).

(** *** [ArrayCasterBinary] *)

(** [data[p:q]] with the rules of Python for bounds that are negative
    or beyond the end. *)
Definition py_slice (data : bytes) (p q : Z) : bytes :=
  let len := Z.of_nat (length data) in
  let norm i := if decide (i < 0) then Z.max (i + len) 0 else Z.min i len in
  take (Z.to_nat (norm q - norm p)) (drop (Z.to_nat (norm p)) data).

(** [_struct_head.unpack_from], [_struct_dim.unpack_from] and
    [_struct_len.unpack_from]. *)
Definition _struct_head_unpack_from (data : bytes) (offset : Z)
  : result (Z * Z * Z) :=
  ws <- unpack_from 3 data offset ;;
  match ws with
  | [a; b; c] => Ok (a, b, c)
  | _ => Raise StructError
  end.

Definition _struct_dim_unpack_from (data : bytes) (offset : Z)
  : result (Z * Z) :=
  ws <- unpack_from 2 data offset ;;
  match ws with
  | [a; b] => Ok (a, b)
  | _ => Raise StructError
  end.

Definition _struct_len_unpack_from (data : bytes) (offset : Z)
  : result Z :=
  ws <- unpack_from 1 data offset ;;
  match ws with
  | [a] => Ok (to_signed32 a)
  | _ => Raise StructError
  end.

(** One [next(items)] on the generator [consume], whose local [p] is
    kept between the calls. *)
Definition consume_next (fcast : bytes -> result A) (data : bytes) (p : Z)
  : result (pyval A * Z) :=
  size <- _struct_len_unpack_from data p ;;
  let p := p + 4 in
  if decide (size ≠ -1) then
    v <- fcast (py_slice data p (p + size)) ;;
    Ok (PScalar v, p + size)
  else Ok (PNone, p).

(** The closure [agg]. *)
Fixpoint agg (fcast : bytes -> result A) (data : bytes) (dims : list Z)
    (p : Z) : result (pyval A * Z) :=
  match dims with
  | [] => consume_next fcast data p
  | dim :: dims' =>
      r <- (fix comprehension (n : nat) (p : Z)
              : result (list (pyval A) * Z) :=
              match n with
              | O => Ok ([], p)
              | S n' =>
                  r <- agg fcast data dims' p ;;
                  let '(v, p) := r in
                  r <- comprehension n' p ;;
                  let '(vs, p) := r in
                  Ok (v :: vs, p)
              end) (Z.to_nat dim) p ;;
      let '(vs, p) := r in
      Ok (PList vs, p)
  end.

(** [range(12, p, 8)]. *)
Definition dim_offsets (ndims : Z) : list Z :=
  map (fun i => 12 + 8 * Z.of_nat i) (seq 0 (Z.to_nat ndims)).

(** [ArrayCasterBinary.cast]. *)
Definition ArrayCasterBinary_cast (data : bytes) : result (pyval A) :=
  head <- _struct_head_unpack_from (py_slice data 0 12) 0 ;;
  let '(ndims, hasnull, oid) := head in
  if decide (ndims = 0) then Ok (PList [])
  else
    let fcast := get_cast_function oid BINARY in
    let p := 12 + 8 * ndims in
    dims <- mapM (fun i => d <- _struct_dim_unpack_from data i ;; Ok (fst d))
              (dim_offsets ndims) ;;
    r <- agg fcast data dims p ;;
    Ok (fst r).

End WithCodec.

End ArrayModel.

(** * Properties *)

(** ** Cursor core *)

Module CursorTheory.
Import CursorModel.

(** The two families of statuses of the result triage. *)
Definition is_ok (r : PGresult) : Prop :=
  status r = TUPLES_OK \/ status r = COMMAND_OK \/ status r = EMPTY_QUERY.

Definition is_copy (r : PGresult) : Prop :=
  status r = COPY_IN \/ status r = COPY_OUT \/ status r = COPY_BOTH.

Lemma badstats_empty (results : list PGresult) :
  (list_to_set (status <$> results) : gset ExecStatus) ∖ _status_ok = ∅
  <-> Forall is_ok results.
Proof.
  unfold _status_ok, is_ok. rewrite Forall_forall. split.
  - intros H r Hr.
    assert (Hin : status r ∈ (list_to_set (status <$> results) : gset ExecStatus)).
    { apply elem_of_list_to_set, list_elem_of_fmap. exists r.
      split; done. }
    destruct (decide (status r ∈ ({[TUPLES_OK; COMMAND_OK; EMPTY_QUERY]}
                                   : gset ExecStatus))) as [Hok | Hno].
    + set_solver.
    + exfalso. set_solver.
  - intros H. apply set_eq. intros s. split; [| set_solver].
    rewrite elem_of_difference, elem_of_list_to_set, list_elem_of_fmap.
    intros [(r & -> & Hr) Hno]. apply H in Hr.
    exfalso. apply Hno. set_solver.
Qed.

Lemma badstats_copy (results : list PGresult) :
  ((list_to_set (status <$> results) : gset ExecStatus) ∖ _status_ok)
    ∩ _status_copy ≠ ∅
  <-> Exists is_copy results.
Proof.
  unfold _status_ok, _status_copy, is_copy. rewrite Exists_exists. split.
  - intros H. apply set_choose_L in H as [s Hs].
    rewrite elem_of_intersection, elem_of_difference, elem_of_list_to_set,
      list_elem_of_fmap in Hs.
    destruct Hs as [[(r & -> & Hr) _] Hc]. exists r.
    split; [done | set_solver].
  - intros (r & Hr & Hc) Hempty.
    assert (Hin : status r ∈ (list_to_set (status <$> results) : gset ExecStatus)).
    { apply elem_of_list_to_set, list_elem_of_fmap. by exists r. }
    assert (status r ∈ (∅ : gset ExecStatus)); [| set_solver].
    rewrite <- Hempty.
    destruct Hc as [Hc | [Hc | Hc]]; rewrite Hc in *; set_solver.
Qed.

Lemma last_cons_default {A} (l : list A) (x d d' : A) :
  List.last (x :: l) d = List.last (x :: l) d'.
Proof.
  revert x. induction l as [| y l IH]; intros x; [done |].
  change (List.last (y :: l) d = List.last (y :: l) d'). apply IH.
Qed.

(** *** The [pgresult] setter *)

(** The cursor once the setter has bound the result [r] on it and on
    its transformer. *)
Definition with_pgresult (c : Cursor) (r : PGresult) : Cursor :=
  set_transformer (store_pgresult c (Some r))
    (Some (mkTransformer (Some r))).

Lemma set_pgresult_none (c : Cursor) :
  set_pgresult c None = Ok (store_pgresult c None).
Proof. reflexivity. Qed.

Lemma set_pgresult_started (c : Cursor) (r : PGresult) :
  is_Some (_transformer c) ->
  set_pgresult c (Some r) = Ok (with_pgresult c r).
Proof.
  intros [tx Htx]. unfold set_pgresult. cbn [store_pgresult _transformer].
  by rewrite Htx.
Qed.

(** On a cursor that never went through [_start_query] the setter
    raises AttributeError for any result. *)
Lemma set_pgresult_unstarted (c : Cursor) (r : PGresult) :
  _transformer c = None ->
  set_pgresult c (Some r) = Raise AttributeError.
Proof.
  intros Htx. unfold set_pgresult. cbn [store_pgresult _transformer].
  by rewrite Htx.
Qed.

Lemma set_pgresult_inv (c : Cursor) (r : PGresult) (c' : Cursor) :
  set_pgresult c (Some r) = Ok c' ->
  is_Some (_transformer c) /\ c' = with_pgresult c r.
Proof.
  unfold set_pgresult. cbn [store_pgresult _transformer].
  destruct (_transformer c) as [tx |] eqn:Htx; [| done].
  intros [= <-]. split; [by eexists | done].
Qed.

(** *** Result triage *)

(** Before [_start_query] has given the cursor a transformer, the
    triage of results that are all acceptable ends in the
    AttributeError of the setter. *)
Lemma execute_results_unstarted (self : Cursor) (results : list PGresult) :
  results <> [] -> Forall is_ok results -> _transformer self = None ->
  _execute_results self results = Raise AttributeError.
Proof.
  intros Hne Hok Htx. destruct results as [| r0 rest]; [done |].
  unfold _execute_results. apply badstats_empty in Hok.
  destruct (decide _) as [_ | Hno]; [| done].
  by rewrite set_pgresult_unstarted.
Qed.

(** C7. Result triage of [_execute_results] on a non-empty sequence,
    for a cursor that has its transformer, as every cursor has once
    [execute] has gone through [_start_query]: the results are accepted
    when every status is TuplesOk, CommandOk or EmptyQuery, and the
    first of them becomes the current result; otherwise the decoded
    server error is raised when the last status is FatalError; otherwise
    ProgrammingError when some status is a COPY status; otherwise
    InternalError. *)
Theorem execute_results_triage (self : Cursor) (results : list PGresult)
    (d : PGresult) :
  results <> [] ->
  is_Some (_transformer self) ->
  (Forall is_ok results ->
     exists self', _execute_results self results = Ok self'
                   /\ _results self' = results
                   /\ _pgresult self' = head results)
  /\ (~ Forall is_ok results ->
      status (List.last results d) = FATAL_ERROR ->
      _execute_results self results
      = Raise (error_from_result (List.last results d)))
  /\ (~ Forall is_ok results ->
      status (List.last results d) <> FATAL_ERROR ->
      Exists is_copy results ->
      _execute_results self results = Raise ProgrammingError)
  /\ (~ Forall is_ok results ->
      status (List.last results d) <> FATAL_ERROR ->
      ~ Exists is_copy results ->
      _execute_results self results = Raise InternalError).
Proof.
  intros Hne Htx. destruct results as [| r0 rest]; [done |].
  assert (Hlast := last_cons_default rest r0 d r0).
  rewrite Hlast. unfold _execute_results.
  split; [| split; [| split]].
  - intros Hok. apply badstats_empty in Hok.
    destruct (decide _) as [_ | Hno]; [| done].
    rewrite set_pgresult_started by done. cbn [bind].
    destruct (command_tuples r0); [destruct (decide _) |];
      (eexists; split; [reflexivity |]); done.
  - intros Hbad Hfatal. rewrite <- badstats_empty in Hbad.
    destruct (decide _) as [? | _]; [done |].
    destruct (decide _) as [_ | ?]; done.
  - intros Hbad Hfatal Hcopy. rewrite <- badstats_empty in Hbad.
    apply badstats_copy in Hcopy.
    destruct (decide _) as [? | _]; [done |].
    destruct (decide _) as [? | _]; [done |].
    destruct (decide _) as [_ | ?]; done.
  - intros Hbad Hfatal Hcopy. rewrite <- badstats_empty in Hbad.
    rewrite <- badstats_copy in Hcopy.
    destruct (decide _) as [? | _]; [done |].
    destruct (decide _) as [? | _]; [done |].
    destruct (decide _) as [? | _]; done.
Qed.


(** A connection in OK status with nothing sent, a fresh cursor, and
    the cursor as [_start_query] leaves it. *)
Definition conn0 : Connection := mkConnection false true [].
Definition cursor0 : Cursor := Cursor_init conn0 TEXT.
Definition started0 : Cursor :=
  set_transformer cursor0 (Some (mkTransformer None)).

Lemma execute_results_triage_witness :
  let r := mkPGresult TUPLES_OK (Some 1) TEXT 1 [] in
  _start_query cursor0 = Ok started0
  /\ exists self', _execute_results started0 [r] = Ok self'
                   /\ _results self' = [r]
                   /\ _pgresult self' = Some r.
Proof.
  intros r. split; [reflexivity |].
  apply (execute_results_triage started0 [r] r); [discriminate | by eexists |].
  repeat constructor.
Defined.

(** *** Row count after [execute] *)

(** A query builder for the examples: the query text is the query, the
    parameters are the wire parameters. *)
Definition convert0 (query : bytes) (params : option (list (option bytes)))
  : result PostgresQuery :=
  Ok (mkPostgresQuery query params [] []).

Definition dump0 (pgq : PostgresQuery) (params : list (option bytes))
  : result PostgresQuery :=
  Ok (mkPostgresQuery (pgq_query pgq) (Some params) (pgq_formats pgq)
        (pgq_types pgq)).

(** The row count that C2 states: the sum of [command_tuples] over the
    results that define it, and -1 when none does. *)
Definition summed_rowcount (results : list PGresult) : Z :=
  match omap command_tuples results with
  | [] => -1
  | counts => fold_right Z.add 0 counts
  end.

(** The row count that the code leaves: [command_tuples] of the first
    result, and -1 when it is not defined. *)
Definition first_rowcount (results : list PGresult) : Z :=
  match results with
  | r0 :: _ => match command_tuples r0 with Some n => n | None => -1 end
  | [] => -1
  end.

Section Rowcount.

Context {Query Params : Type}.
Variable convert : Query -> option Params -> result PostgresQuery.
Variable conn_start_query : Connection -> option exn.
Variable server : list PQcall -> list PGresult.

Lemma start_query_rowcount self self' :
  _start_query self = Ok self' -> _rowcount self' = -1.
Proof.
  unfold _start_query. intros H.
  destruct (_closed self); [done |].
  destruct (conn_closed _); [done |].
  destruct (negb _); [done |].
  by injection H as <-.
Qed.

Lemma execute_send_rowcount self query params no_pqexec self' :
  _execute_send convert self query params no_pqexec = Ok self' ->
  _rowcount self' = _rowcount self.
Proof.
  unfold _execute_send. intros H.
  apply bind_Ok_inv in H as (pgq & _ & H).
  destruct (_ || _); by injection H as <-.
Qed.

Lemma execute_results_rowcount self results self' :
  _rowcount self = -1 ->
  _execute_results self results = Ok self' ->
  _results self' = results /\ Forall is_ok results
  /\ _rowcount self' = first_rowcount results.
Proof.
  intros Hrc H. destruct results as [| r0 rest]; [done |].
  unfold _execute_results in H.
  destruct (decide _) as [Hok | Hbad].
  - apply badstats_empty in Hok. unfold first_rowcount.
    apply bind_Ok_inv in H as (s1 & Hset & H).
    apply set_pgresult_inv in Hset as (_ & ->).
    destruct (command_tuples r0) as [n |].
    + cbn [with_pgresult set_transformer store_pgresult set_results
             _rowcount] in H.
      rewrite Hrc in H. destruct (decide _) as [_ | ?]; [| lia].
      by injection H as <-.
    + injection H as <-. by rewrite <- Hrc.
  - destruct (decide _); [done |]. by destruct (decide _).
Qed.

(** C2, as amended. After a successful [execute] the results all have
    a status among TuplesOk, CommandOk and EmptyQuery, and the row
    count of the cursor is [command_tuples] of the first of them, or
    -1 when the first does not define it. *)
Theorem execute_rowcount_first (self : Cursor) (query : Query)
    (params : option Params) (self' : Cursor) :
  execute convert conn_start_query server self query params = Ok self' ->
  _results self' <> []
  /\ Forall is_ok (_results self')
  /\ _rowcount self' = first_rowcount (_results self').
Proof.
  unfold execute. intros H.
  apply bind_Ok_inv in H as (s1 & H1 & H).
  apply bind_Ok_inv in H as (s2 & H2 & H).
  apply bind_Ok_inv in H as (s3 & H3 & H).
  apply start_query_rowcount in H1.
  assert (s2 = s1) as ->.
  { unfold conn__start_query in H2.
    destruct (conn_start_query _); [done |]. by injection H2. }
  apply execute_send_rowcount in H3. rewrite H1 in H3.
  destruct (execute_results_rowcount _ _ _ H3 H) as (Hres & Hok & Hrc).
  rewrite Hres. repeat split; try done.
  intros Hnil. rewrite Hnil in H. done.
Qed.

End Rowcount.

(** Two statements in one query, each with a row count. *)
Definition two_results : list PGresult :=
  [ mkPGresult COMMAND_OK (Some 1) TEXT 0 [];
    mkPGresult COMMAND_OK (Some 2) TEXT 0 [] ].

(** C2 fails as it is stated: with two results that count 1 and 2 rows
    the cursor is left with a row count of 1, and the sum is 3. *)
Lemma execute_rowcount_sum_counterexample :
  exists self',
    execute convert0 (fun _ => None) (fun _ => two_results) cursor0 [] None
    = Ok self'
    /\ Forall is_ok (_results self')
    /\ _rowcount self' = 1
    /\ summed_rowcount (_results self') = 3
    /\ _rowcount self' <> summed_rowcount (_results self').
Proof.
  eexists. split; [vm_compute; reflexivity |].
  split; [| split; [| split]; [reflexivity | reflexivity | discriminate]].
  repeat constructor; right; left; reflexivity.
Qed.

Lemma execute_rowcount_first_witness :
  exists self',
    execute convert0 (fun _ => None) (fun _ => two_results) cursor0 [] None
    = Ok self'
    /\ _results self' <> []
    /\ Forall is_ok (_results self')
    /\ _rowcount self' = first_rowcount (_results self').
Proof.
  eexists. split; [vm_compute; reflexivity |].
  apply (execute_rowcount_first convert0 (fun _ => None)
           (fun _ => two_results) cursor0 [] None).
  vm_compute. reflexivity.
Defined.


(** *** Row position *)

Section Fetch.

Context {Row : Type}.
Variable load_row : PGresult -> Z -> option Row.

(** [k] calls of [fetchone] in a row: what they return, in order, and
    the cursor after the last. *)
Fixpoint fetchone_times (k : nat) (self : Cursor)
  : result (list (option Row) * Cursor) :=
  match k with
  | O => Ok ([], self)
  | S k' =>
      r <- fetchone load_row self ;;
      let '(rv, self) := r in
      r <- fetchone_times k' self ;;
      let '(rvs, self) := r in
      Ok (rv :: rvs, self)
  end.

(** The cursor is on the TuplesOk result [r], whose rows the
    transformer decodes to [rows], in the order of the server. *)
Record on_tuples (r : PGresult) (rows : list Row) (self : Cursor) : Prop := {
  on_pgresult : _pgresult self = Some r;
  on_transformer : _transformer self = Some (mkTransformer (Some r));
  on_status : status r = TUPLES_OK;
  on_load_row : forall i, 0 <= i -> load_row r i = rows !! Z.to_nat i;
}.

Variable r : PGresult.
Variable rows : list Row.
Let N : Z := Z.of_nat (length rows).

Lemma on_tuples_set_pos self p :
  on_tuples r rows self -> on_tuples r rows (set_pos self p).
Proof. intros [? ? ? ?]. by constructor. Qed.

Lemma check_result_on_tuples self :
  on_tuples r rows self -> _check_result self = Ok tt.
Proof.
  intros [Hres _ Hst _]. unfold _check_result. rewrite Hres.
  destruct (decide _); [done | done].
Qed.

Lemma tx_load_row_on_tuples self i :
  on_tuples r rows self -> 0 <= i ->
  tx_load_row load_row self i = Ok (rows !! Z.to_nat i).
Proof.
  intros [_ Htx _ Hload] Hi. unfold tx_load_row. rewrite Htx.
  by rewrite Hload.
Qed.

(** One [fetchone]: the row at the position and a step forward, or
    nothing and no move at the end. *)
Lemma fetchone_step self :
  on_tuples r rows self -> 0 <= _pos self <= N ->
  exists self',
    fetchone load_row self = Ok (rows !! Z.to_nat (_pos self), self')
    /\ on_tuples r rows self'
    /\ _pos self' = (if decide (_pos self < N) then _pos self + 1
                     else _pos self)
    /\ (_pos self < N <-> is_Some (rows !! Z.to_nat (_pos self))).
Proof.
  intros Hon Hpos. unfold fetchone.
  rewrite (check_result_on_tuples _ Hon). simpl.
  rewrite (tx_load_row_on_tuples _ _ Hon) by lia. simpl.
  destruct (rows !! Z.to_nat (_pos self)) as [row |] eqn:Hrow.
  - apply lookup_lt_Some in Hrow as Hlt.
    exists (set_pos self (_pos self + 1)).
    refine (conj eq_refl (conj _ (conj _ (conj _ _)))).
    + by apply on_tuples_set_pos.
    + simpl. destruct (decide _); [done | subst N; lia].
    + eauto.
    + subst N; lia.
  - apply lookup_ge_None in Hrow as Hge.
    exists self.
    refine (conj eq_refl (conj Hon (conj _ (conj _ _)))).
    + destruct (decide _); [subst N; lia | done].
    + subst N; lia.
    + by intros [? ?].
Qed.

Lemma fetchone_times_from self k :
  on_tuples r rows self -> 0 <= _pos self <= N ->
  exists self',
    fetchone_times k self
    = Ok (map (fun i => rows !! (Z.to_nat (_pos self) + i)%nat) (seq 0 k),
          self')
    /\ on_tuples r rows self'
    /\ _pos self' = Z.min (_pos self + Z.of_nat k) N.
Proof.
  revert self. induction k as [| k IH]; intros self Hon Hpos.
  - exists self. split_and!; [done | done | lia].
  - destruct (fetchone_step self Hon Hpos) as (s1 & Hf & Hon1 & Hp1 & _).
    destruct (IH s1 Hon1) as (s2 & Hk & Hon2 & Hp2).
    { destruct (decide _); lia. }
    exists s2. cbn [fetchone_times]. rewrite Hf. simpl. rewrite Hk. simpl.
    split_and!; [| done |].
    + do 2 f_equal. f_equal; [by rewrite Nat.add_0_r |].
      rewrite <- seq_shift, map_map. apply map_ext_in.
      intros i Hi. apply in_seq in Hi.
      destruct (decide (_pos self < N)) as [Hlt | Hge].
      * f_equal. lia.
      * rewrite Hp1. rewrite !lookup_ge_None_2; [done | subst N; lia ..].
    + rewrite Hp2, Hp1. destruct (decide _); lia.
Qed.

Lemma fetchmany_loop_bound self n pos rv :
  on_tuples r rows self -> 0 <= pos <= N ->
  exists pos' rv',
    fetchmany_loop load_row self n pos rv = Ok (pos', rv')
    /\ pos <= pos' <= N
    /\ pos' = Z.min (pos + Z.of_nat n) N
    /\ rv' = rv ++ take (Z.to_nat (pos' - pos)) (drop (Z.to_nat pos) rows).
Proof.
  assert (HN : N = Z.of_nat (length rows)) by done.
  intros Hon. revert pos rv. induction n as [| n IH]; intros pos rv Hpos.
  - exists pos, rv. split; [done |]. split; [lia |]. split; [lia |].
    replace (pos - pos) with 0 by lia. simpl. by rewrite app_nil_r.
  - cbn [fetchmany_loop].
    rewrite (tx_load_row_on_tuples _ _ Hon) by lia. simpl.
    destruct (rows !! Z.to_nat pos) as [row |] eqn:Hrow.
    + apply lookup_lt_Some in Hrow as Hlt.
      destruct (IH (pos + 1) (rv ++ [row]))
        as (pos' & rv' & Hl & Hb & Hm & Hrv); [lia |].
      exists pos', rv'. split; [done |]. split; [lia |]. split; [lia |].
      rewrite Hrv, <- app_assoc. f_equal.
      replace (Z.to_nat (pos' - pos)) with (S (Z.to_nat (pos' - (pos + 1))))
        by lia.
      rewrite (drop_S _ _ _ Hrow). simpl.
      by replace (Z.to_nat (pos + 1)) with (S (Z.to_nat pos)) by lia.
    + apply lookup_ge_None in Hrow as Hge.
      exists pos, rv. split; [done |]. split; [lia |]. split; [lia |].
      replace (pos - pos) with 0 by lia. simpl. by rewrite app_nil_r.
Qed.

Lemma iter_collect_all self acc fuel :
  on_tuples r rows self -> 0 <= _pos self <= N ->
  (Z.to_nat (N - _pos self) < fuel)%nat ->
  exists self',
    iter_collect load_row fuel self acc
    = Some (Ok (acc ++ drop (Z.to_nat (_pos self)) rows, self'))
    /\ on_tuples r rows self' /\ _pos self' = N.
Proof.
  assert (HN : N = Z.of_nat (length rows)) by done.
  revert self acc. induction fuel as [| fuel IH]; intros self acc Hon Hpos Hf;
    [lia |].
  cbn [iter_collect]. unfold iter_next.
  rewrite (tx_load_row_on_tuples _ _ Hon) by lia. simpl.
  destruct (rows !! Z.to_nat (_pos self)) as [row |] eqn:Hrow.
  - apply lookup_lt_Some in Hrow as Hlt.
    destruct (IH (set_pos self (_pos self + 1)) (acc ++ [row]))
      as (s' & Hc & Hon' & Hp').
    { by apply on_tuples_set_pos. }
    { simpl. lia. }
    { simpl. lia. }
    exists s'. split; [| done]. rewrite Hc. simpl.
    rewrite <- app_assoc. do 3 f_equal. simpl.
    rewrite (drop_S _ _ _ Hrow).
    by replace (Z.to_nat (_pos self + 1)) with (S (Z.to_nat (_pos self)))
      by lia.
  - apply lookup_ge_None in Hrow as Hge.
    exists self. split; [| split; [done | lia]].
    rewrite drop_ge by done. by rewrite app_nil_r.
Qed.

(** C9. On a TuplesOk result of [N] rows, from position zero, [k]
    calls of [fetchone] return the rows in the order of the server and
    then [None] (the [i]-th call returns row [i] if there is one),
    and leave the position at the smaller of [k] and [N]. From any
    position within [0, N]: [fetchone] moves the position by one when
    it returns a row and leaves it otherwise; [fetchmany] and a step
    of the iteration keep the position within [0, N] and never move it
    back; the whole iteration returns, with the rows that were left. *)
Theorem fetch_row_position (self : Cursor) :
  on_tuples r rows self ->
  0 <= _pos self <= N ->
  (_pos self = 0 ->
   forall k, exists self',
     fetchone_times k self = Ok (map (fun i => rows !! i) (seq 0 k), self')
     /\ _pos self' = Z.min (Z.of_nat k) N)
  /\ (exists rv self',
        fetchone load_row self = Ok (rv, self')
        /\ on_tuples r rows self'
        /\ 0 <= _pos self' <= N
        /\ (is_Some rv -> _pos self' = _pos self + 1)
        /\ (rv = None -> _pos self' = _pos self /\ _pos self = N))
  /\ (forall size, exists rv self',
        fetchmany load_row self size = Ok (rv, self')
        /\ on_tuples r rows self'
        /\ _pos self <= _pos self' <= N
        /\ rv = take (Z.to_nat (_pos self' - _pos self))
                  (drop (Z.to_nat (_pos self)) rows))
  /\ (exists rv self',
        iter_next load_row self = Ok (rv, self')
        /\ on_tuples r rows self'
        /\ 0 <= _pos self' <= N
        /\ (is_Some rv -> _pos self' = _pos self + 1)
        /\ (rv = None -> _pos self' = _pos self))
  /\ (forall fuel, (Z.to_nat (N - _pos self) < fuel)%nat ->
      exists self',
        fetchall load_row fuel self
        = Some (Ok (drop (Z.to_nat (_pos self)) rows, self'))
        /\ _pos self' = N).
Proof.
  assert (HN : N = Z.of_nat (length rows)) by done.
  intros Hon Hpos. split; [| split; [| split; [| split]]].
  - intros H0 k.
    destruct (fetchone_times_from self k Hon Hpos) as (s' & Hk & _ & Hp).
    exists s'. rewrite Hk, Hp, H0. split; [| f_equal; lia].
    do 2 f_equal.
  - destruct (fetchone_step self Hon Hpos) as (s' & Hf & Hon' & Hp & Hiff).
    exists (rows !! Z.to_nat (_pos self)), s'.
    split; [done |]. split; [done |].
    split; [destruct (decide _); lia |]. split.
    + intros Hsome. apply Hiff in Hsome. by destruct (decide _).
    + intros Hnone. destruct (decide (_pos self < N)) as [Hlt | ?];
        [| split; [done | lia]].
      apply Hiff in Hlt. rewrite Hnone in Hlt. by destruct Hlt.
  - intros size. unfold fetchmany.
    rewrite (check_result_on_tuples _ Hon). simpl.
    destruct (fetchmany_loop_bound self
                (Z.to_nat (if decide (size = 0) then arraysize self else size))
                (_pos self) [] Hon Hpos) as (pos' & rv' & Hl & Hb & _ & Hrv).
    rewrite Hl. simpl. exists rv', (set_pos self pos').
    split; [done |]. split; [by apply on_tuples_set_pos |].
    split; [simpl; lia |]. by simpl.
  - unfold iter_next.
    rewrite (tx_load_row_on_tuples _ _ Hon) by lia. simpl.
    destruct (rows !! Z.to_nat (_pos self)) as [row |] eqn:Hrow.
    + apply lookup_lt_Some in Hrow as Hlt.
      exists (Some row), (set_pos self (_pos self + 1)).
      split; [done |]. split; [by apply on_tuples_set_pos |].
      split; [simpl; lia |]. split; [done | done].
    + exists None, self.
      split; [done |]. split; [done |]. split; [lia |].
      split; [by intros [? ?] | done].
  - intros fuel Hfuel. unfold fetchall, iter_start.
    rewrite (check_result_on_tuples _ Hon).
    destruct (iter_collect_all self [] fuel Hon Hpos Hfuel)
      as (s' & Hc & _ & Hp).
    by exists s'.
Qed.

End Fetch.

(** A result of two rows, and the cursor on it after [execute]. *)
Definition two_rows : list bytes := [["a"%byte]; ["b"%byte]].
Definition tuples_result : PGresult := mkPGresult TUPLES_OK (Some 2) TEXT 2 [].
Definition load_row0 (r : PGresult) (i : Z) : option bytes :=
  if decide (0 <= i) then two_rows !! Z.to_nat i else None.
Definition cursor_on_tuples : Cursor :=
  mkCursor conn0 TEXT 1 false [tuples_result] (Some tuples_result) 0 0 2
    None None (Some (mkTransformer (Some tuples_result))).

Lemma fetch_row_position_witness :
  exists self',
    fetchone_times load_row0 3 cursor_on_tuples
    = Ok ([Some ["a"%byte]; Some ["b"%byte]; None], self')
    /\ _pos self' = 2.
Proof.
  assert (Hon : on_tuples load_row0 tuples_result two_rows cursor_on_tuples).
  { constructor; try reflexivity.
    intros i Hi. unfold load_row0. by destruct (decide _). }
  assert (Hpos : 0 <= _pos cursor_on_tuples <= Z.of_nat (length two_rows)).
  { simpl. lia. }
  destruct (fetch_row_position load_row0 tuples_result two_rows
              cursor_on_tuples Hon Hpos) as (Hone & _).
  destruct (Hone eq_refl 3%nat) as (self' & Hk & Hp).
  exists self'. split; [exact Hk | exact Hp].
Defined.


(** *** Prepared statements of [executemany] *)

Definition is_send_prepare (call : PQcall) : bool :=
  match call with
  | send_prepare _ _ _ => true
  | _ => false
  end.

Definition is_send_query_prepared (call : PQcall) : bool :=
  match call with
  | send_query_prepared _ _ _ _ => true
  | _ => false
  end.

(** The number of [send_prepare] calls in a log. *)
Definition count_prepare (log : list PQcall) : nat :=
  length (filter (fun call => is_send_prepare call = true) log).

Section Executemany.

Context {Query Params : Type}.
Variable convert : Query -> option Params -> result PostgresQuery.
Variable dump : PostgresQuery -> Params -> result PostgresQuery.
Variable conn_start_query : Connection -> option exn.
Variable server : list PQcall -> list PGresult.

Lemma execute_results_sent self results self' :
  _execute_results self results = Ok self' ->
  sent (_conn self') = sent (_conn self).
Proof.
  destruct results as [| r0 rest]; [done |]. unfold _execute_results.
  destruct (decide _).
  - intros H. apply bind_Ok_inv in H as (s1 & Hset & H).
    apply set_pgresult_inv in Hset as (_ & ->). revert H.
    destruct (command_tuples r0); [destruct (decide _) |];
      by intros [= <-].
  - destruct (decide _); [done |]. by destruct (decide _).
Qed.

(** The loop of [executemany] never leaves its first branch: as long
    as it succeeds, every trip sends one [send_prepare]. *)
Lemma executemany_loop_prepares query pgq self params_seq self' :
  executemany_loop convert dump server query true pgq self params_seq
  = Ok self' ->
  count_prepare (sent (_conn self'))
  = (count_prepare (sent (_conn self)) + length params_seq)%nat.
Proof.
  revert pgq self. induction params_seq as [| params rest IH];
    intros pgq self H.
  - injection H as <-. simpl. lia.
  - cbn [executemany_loop] in H.
    apply bind_Ok_inv in H as ([[first pgq1] s1] & Hbody & H).
    unfold executemany_body in Hbody.
    apply bind_Ok_inv in Hbody as ([pgq2 s2] & Hprep & Hbody).
    apply bind_Ok_inv in Hprep as ([pgq3 s3] & Hsend & Hprep).
    apply bind_Ok_inv in Hprep as (res & _ & Hprep).
    destruct (decide _); [done |]. injection Hprep as -> ->.
    apply bind_Ok_inv in Hbody as (res2 & _ & Hbody).
    apply bind_Ok_inv in Hbody as (s4 & Hres & Hbody).
    injection Hbody as <- <- <-.
    apply IH in H. rewrite H.
    apply execute_results_sent in Hres. rewrite Hres.
    unfold _send_prepare in Hsend.
    apply bind_Ok_inv in Hsend as (pgq4 & _ & Hsend).
    injection Hsend as <- <-.
    unfold count_prepare. simpl. rewrite !filter_app, !length_app. simpl.
    lia.
Qed.

End Executemany.

(** The server of the example: every call is answered by one CommandOk
    result that counts one row. *)
Definition command_ok : PGresult := mkPGresult COMMAND_OK (Some 1) TEXT 0 [].

Definition two_params : list (list (option bytes)) :=
  [[Some ["1"%byte]]; [Some ["2"%byte]]].

(** C1 fails on the code. With a sequence of two parameter sets
    [executemany] succeeds and the log holds two [send_prepare] calls,
    one before each [send_query_prepared]: the flag [first] is never
    reset, so the second trip prepares again instead of re-binding. *)
Theorem executemany_prepares_every_time :
  exists self',
    executemany convert0 dump0 (fun _ => None) (fun _ => [command_ok])
      cursor0 ["q"%byte] two_params = Ok self'
    /\ map is_send_prepare (sent (_conn self')) = [true; false; true; false]
    /\ map is_send_query_prepared (sent (_conn self'))
       = [false; true; false; true]
    /\ count_prepare (sent (_conn self')) = 2%nat.
Proof. eexists. split; [vm_compute; reflexivity |]. by vm_compute. Qed.

End CursorTheory.

(** ** COPY engine *)

Module CopyTheory.
Import CopyModel.

(** *** Text rows *)

(** The escape of one byte, as the specification words it: backspace,
    tab, newline, vertical tab, form feed, carriage return and
    backslash become a backslash and a letter (or a second backslash);
    any other byte is passed through. *)
Definition escape_byte (c : byte) : bytes :=
  match c with
  | x08 => [x5c; "b"]
  | x09 => [x5c; "t"]
  | x0a => [x5c; "n"]
  | x0b => [x5c; "v"]
  | x0c => [x5c; "f"]
  | x0d => [x5c; "r"]
  | x5c => [x5c; x5c]
  | _ => [c]
  end%byte.

(** A field of a text row: the escaped bytes, or backslash-N for nil. *)
Definition text_field (item : option bytes) : bytes :=
  match item with
  | Some item => flat_map escape_byte item
  | None => [x5c; "N"%byte]
  end.

(** A text row: the fields with a tab between two of them, then a
    newline. *)
Fixpoint text_fields (row : list (option bytes)) : bytes :=
  match row with
  | [] => []
  | [item] => text_field item
  | item :: row' => text_field item ++ [x09] ++ text_fields row'
  end.

Definition text_row (row : list (option bytes)) : bytes :=
  text_fields row ++ [x0a].

Lemma bsrepl_byte (c : byte) :
  (if _bsrepl_re c then _bsrepl_sub c else Ok [c]) = Ok (escape_byte c).
Proof. destruct c; reflexivity. Qed.

Lemma bsrepl_sub_item (item : bytes) :
  re_sub_class _bsrepl_re _bsrepl_sub item = Ok (flat_map escape_byte item).
Proof.
  induction item as [| c item IH]; [done |].
  cbn [re_sub_class flat_map]. rewrite bsrepl_byte, IH. reflexivity.
Qed.

Lemma escape_byte_cases (c : byte) :
  (c ∈ [x08; x09; x0a; x0b; x0c; x0d; x5c]
   /\ (exists l, escape_byte c = [x5c; l]
                  /\ l ∈ ["b"; "t"; "n"; "v"; "f"; "r"; x5c]%byte))
  \/ ((c ∉ [x08; x09; x0a; x0b; x0c; x0d; x5c]) /\ escape_byte c = [c]).
Proof.
  destruct (_bsrepl_re c) eqn:Hre; unfold _bsrepl_re in Hre.
  - left. apply bool_decide_eq_true in Hre. split; [done |].
    rewrite !elem_of_cons in Hre.
    destruct Hre as [-> | [-> | [-> | [-> | [-> | [-> | [-> | Hre]]]]]]];
      [eexists; split; [reflexivity | set_solver] .. |].
    by apply elem_of_nil in Hre.
  - right. apply bool_decide_eq_false in Hre. split; [done |].
    revert Hre. destruct c; try reflexivity; intros Hre; exfalso; apply Hre;
      set_solver.
Qed.

(** C8. The text row formatter returns the fields joined by one tab
    and ended by one newline; in a field that is not nil exactly the
    seven bytes backspace, tab, newline, vertical tab, form feed,
    carriage return and backslash are replaced by a backslash and one
    more byte, any other byte is copied; a nil field is backslash-N. *)
Theorem format_row_text_spec (row : list (option bytes)) :
  _format_row_text row = Ok (text_row row)
  /\ forall c : byte,
       (c ∈ [x08; x09; x0a; x0b; x0c; x0d; x5c]
        /\ (exists l, escape_byte c = [x5c; l]))
       \/ ((c ∉ [x08; x09; x0a; x0b; x0c; x0d; x5c]) /\ escape_byte c = [c]).
Proof.
  split.
  - unfold _format_row_text, text_row.
    assert (Hparts :
      mapM (fun item : option bytes =>
              match item with
              | Some item => re_sub_class _bsrepl_re _bsrepl_sub item
              | None => Ok [x5c; "N"%byte]
              end) row = Ok (map text_field row)).
    { induction row as [| item row IH]; [done |].
      cbn [mapM map]. rewrite IH.
      destruct item as [item |]; [rewrite bsrepl_sub_item |]; reflexivity. }
    rewrite Hparts. cbn [bind]. do 2 f_equal. clear Hparts.
    induction row as [| item row IH]; [done |].
    destruct row as [| item' row]; [done |].
    change (text_field item ++ [x09] ++ join [x09] (map text_field (item' :: row))
            = text_field item ++ [x09] ++ text_fields (item' :: row)).
    by rewrite IH.
  - intros c. destruct (escape_byte_cases c) as [(Hin & l & Hl & _) | Hout];
      [left; eauto | by right].
Qed.


(** *** Binary rows *)

#[local] Arguments binary_prologue : simpl never.
#[local] Arguments be_bytes : simpl never.

(** A field of a binary row, as the specification words it: the length
    on four bytes and the bytes, or minus one for nil. *)
Definition binary_field (item : option bytes) : bytes :=
  match item with
  | Some item => be_bytes 4 (Z.of_nat (length item)) ++ item
  | None => [xff; xff; xff; xff]
  end.

(** A binary row: the number of fields on two bytes, then the fields. *)
Definition binary_row (row : list (option bytes)) : bytes :=
  be_bytes 2 (Z.of_nat (length row)) ++ flat_map binary_field row.

(** The sizes that the two-byte and four-byte fields can hold. *)
Definition packable (row : list (option bytes)) : Prop :=
  Z.of_nat (length row) <= 32767
  /\ Forall (fun item => match item with
                         | Some item => Z.of_nat (length item) <= 2147483647
                         | None => True
                         end) row.

Ltac copy_unfold :=
  unfold with_copy, run_op, __exit__, __enter__, _finish, write_row, write,
    read, _ensure_bytes, _format_row, _format_copy_row, _format_row_binary,
    wait_copy_to, wait_copy_end, wait_copy_from,
    cbind, cret, craise, clift, cget, cmodify in *.

Lemma binary_fields_ok (row : list (option bytes)) (out : list bytes) :
  Forall (fun item => match item with
                      | Some item => Z.of_nat (length item) <= 2147483647
                      | None => True
                      end) row ->
  exists chunks,
    binary_fields row out = Ok (out ++ chunks)
    /\ concat chunks = flat_map binary_field row.
Proof.
  intros Hrow. revert out. induction Hrow as [| item row Hitem Hrow IH];
    intros out.
  - exists []. by rewrite app_nil_r.
  - destruct item as [item |]; cbn [binary_fields].
    + unfold pack_i. destruct (decide _) as [_ | ?]; [| lia]. cbn [bind].
      destruct (IH (out ++ [be_bytes 4 (Z.of_nat (length item))] ++ [item]))
        as (chunks & -> & Hc).
      exists ([be_bytes 4 (Z.of_nat (length item))] ++ [item] ++ chunks).
      split; [by rewrite <- !app_assoc |].
      rewrite !concat_app. cbn [concat flat_map binary_field].
      rewrite Hc, !app_nil_r. by rewrite <- !app_assoc.
    + destruct (IH (out ++ [[xff; xff; xff; xff]])) as (chunks & -> & Hc).
      exists ([[xff; xff; xff; xff]] ++ chunks).
      split; [by rewrite <- !app_assoc |]. simpl. by rewrite Hc.
Qed.

Section Sessions.

Context {Item : Type}.
Variable dumper_dump : Format -> Item -> bytes.
Variable encode : string -> bytes.
Variable copy_end_reply : list bytes -> option bytes -> result PGresult.
Variable copy_from_final : PGresult.
Variable exc_info : exn -> string * string.

(** The fields of a row once they are dumped in binary format. *)
Definition dumped (row : list (option Item)) : list (option bytes) :=
  map (fun item => match item with
                   | Some item => Some (dumper_dump BINARY item)
                   | None => None
                   end) row.

Lemma format_row_binary_ok pg fr fin rc wire ends inc row :
  packable row ->
  _format_row_binary row (mkCopy pg BINARY fr fin rc wire ends inc)
  = (Ok ((if fr then binary_prologue else []) ++ binary_row row),
     mkCopy pg BINARY false fin rc wire ends inc).
Proof.
  intros [Hlen Hitems].
  unfold _format_row_binary, cbind, cget, cmodify, cret, clift, pack_h.
  cbn [_first_row].
  destruct (decide _) as [_ | ?]; [| lia].
  destruct fr; cbn [set_first_row _pgresult format _first_row _finished
                      cursor_rowcount copy_data copy_end_errors incoming bind].
  - destruct (binary_fields_ok row
                ([binary_prologue] ++ [be_bytes 2 (Z.of_nat (length row))])
                Hitems) as (chunks & -> & Hc).
    rewrite !concat_app, Hc. unfold binary_row.
    cbn [concat]. by rewrite !app_nil_r.
  - destruct (binary_fields_ok row
                ([] ++ [be_bytes 2 (Z.of_nat (length row))])
                Hitems) as (chunks & -> & Hc).
    rewrite !concat_app, Hc. unfold binary_row.
    cbn [concat]. by rewrite !app_nil_r.
Qed.

Lemma write_row_binary pg fr fin rc wire ends inc row :
  packable (dumped row) ->
  write_row dumper_dump encode row (mkCopy pg BINARY fr fin rc wire ends inc)
  = (Ok tt,
     mkCopy pg BINARY false fin rc
       (wire ++ [(if fr then binary_prologue else []) ++ binary_row (dumped row)])
       ends inc).
Proof.
  intros Hrow.
  unfold write_row, write, _format_row, _format_copy_row, _ensure_bytes,
    wait_copy_to.
  unfold cbind at 1 2 3. unfold cget at 1 2. cbn [format].
  destruct (decide (BINARY = TEXT)) as [? | _]; [done |].
  fold (dumped row). rewrite format_row_binary_ok by done.
  reflexivity.
Qed.

(** The buffers that the rows put on the wire: the prologue goes with
    the first row that is written while [_first_row] holds. *)
Fixpoint row_chunks (fr : bool) (rows : list (list (option Item)))
  : list bytes :=
  match rows with
  | [] => []
  | row :: rows' =>
      ((if fr then binary_prologue else []) ++ binary_row (dumped row))
      :: row_chunks false rows'
  end.

Lemma run_block_rows_binary pg fr fin rc wire ends inc rows :
  Forall (fun row => packable (dumped row)) rows ->
  run_block dumper_dump encode copy_from_final (map OpWriteRow rows)
    (mkCopy pg BINARY fr fin rc wire ends inc)
  = (Ok tt,
     mkCopy pg BINARY (match rows with [] => fr | _ => false end) fin rc
       (wire ++ row_chunks fr rows) ends inc).
Proof.
  intros Hrows. revert fr wire.
  induction Hrows as [| row rows Hrow Hrows IH]; intros fr wire.
  - simpl. by rewrite app_nil_r.
  - cbn [map run_block run_op]. unfold cbind at 1.
    rewrite write_row_binary by done.
    rewrite IH. cbn [row_chunks]. rewrite <- app_assoc.
    by destruct rows.
Qed.

(** X20. A binary COPY IN session in which every row is written with
    [write_row], each within the sizes that the length fields can hold,
    and the block is left normally: [put_copy_end] is called once, with
    no error; with at least one row the wire holds the 19 bytes of the
    prologue (the signature PGCOPY, newline, FF, carriage return,
    newline, NUL, then four zero bytes of flags and four of extension
    length), then the rows, then the two bytes FF FF, the prologue in
    the buffer of the first row and the trailer in a buffer of its own
    after the last; with no row the wire holds nothing. *)
Theorem binary_copy_framing (pg : PGresult) (rc : Z) (chunks : list bytes)
    (rows : list (list (option Item))) :
  status pg = COPY_IN ->
  binary_tuples pg = BINARY ->
  Forall (fun row => packable (dumped row)) rows ->
  let c' :=
    snd (with_copy dumper_dump encode copy_end_reply copy_from_final
           exc_info (map OpWriteRow rows) (Copy_init pg rc chunks)) in
  let prologue :=
    ["P"; "G"; "C"; "O"; "P"; "Y"; x0a; xff; x0d; x0a; x00;
     x00; x00; x00; x00; x00; x00; x00; x00]%byte in
  copy_end_errors c' = [None]
  /\ length prologue = 19%nat
  /\ copy_data c'
     = match rows with
       | [] => []
       | first :: rest =>
           (prologue ++ binary_row (dumped first))
           :: map (fun row => binary_row (dumped row)) rest ++ [[xff; xff]]
       end
  /\ concat (copy_data c')
     = match rows with
       | [] => []
       | _ => prologue
              ++ flat_map (fun row => binary_row (dumped row)) rows
              ++ [xff; xff]
       end.
Proof.
  intros Hst Hbin Hrows c' prologue.
  assert (Hpro : prologue = binary_prologue) by reflexivity.
  rewrite Hpro. clear Hpro prologue.
  subst c'. unfold Copy_init. rewrite Hbin.
  assert (Hrest : forall rest : list (list (option Item)),
            row_chunks false rest = map (fun row => binary_row (dumped row)) rest).
  { induction rest as [| row rest IH]; [done |]. simpl. by rewrite IH. }
  assert (Hcat : forall rest : list (list (option Item)),
            concat (map (fun row => binary_row (dumped row)) rest)
            = flat_map (fun row => binary_row (dumped row)) rest).
  { induction rest as [| row rest IH]; [done |]. simpl. by rewrite IH. }
  unfold with_copy.
  replace (__enter__ (mkCopy pg BINARY true false rc [] [] chunks))
    with (Ok tt, mkCopy pg BINARY true false rc [] [] chunks) by done.
  rewrite run_block_rows_binary by done.
  unfold __exit__, _finish, write, _ensure_bytes, wait_copy_to, wait_copy_end.
  unfold cbind, cget, cret, cmodify, clift.
  cbn [_pgresult format _first_row copy_data copy_end_errors].
  rewrite Hst.
  destruct (decide (COPY_IN = COPY_OUT)) as [? | _]; [done |].
  destruct (decide (EmptyString = EmptyString)) as [_ | ?]; [| done].
  rewrite (bool_decide_eq_true_2 (BINARY = BINARY)) by done.
  split; [| split; [done |]].
  - destruct rows as [| first rest]; cbn;
      by match goal with |- context [copy_end_reply ?w None] =>
           destruct (copy_end_reply w None) end.
  - destruct rows as [| first rest]; cbn.
    + by match goal with |- context [copy_end_reply ?w None] =>
           destruct (copy_end_reply w None) end.
    + rewrite Hrest.
      assert (Hc : concat (map (fun row => binary_row (dumped row)) rest
                           ++ [[xff; xff]])
                   = flat_map (fun row => binary_row (dumped row)) rest
                     ++ [xff; xff]).
      { by rewrite concat_app, Hcat. }
      match goal with |- context [copy_end_reply ?w None] =>
        destruct (copy_end_reply w None) end; cbn; rewrite Hc;
        by rewrite <- !app_assoc.
Qed.

End Sessions.

(** A session of two rows of byte strings, dumped as they are. *)
Definition copy_in_binary : PGresult := mkPGresult COPY_IN None BINARY 0 [].

Definition sample_rows : list (list (option bytes)) :=
  [[Some ["a"%byte]; None]; [Some ["b"%byte; "c"%byte]]].

Lemma binary_copy_framing_witness :
  copy_data
    (snd (with_copy (fun _ b => b) (fun _ => []) (fun _ _ => Ok copy_in_binary)
            copy_in_binary (fun _ => (EmptyString, EmptyString))
            (map OpWriteRow sample_rows) (Copy_init copy_in_binary (-1) [])))
  = [ ["P"; "G"; "C"; "O"; "P"; "Y"; x0a; xff; x0d; x0a; x00;
       x00; x00; x00; x00; x00; x00; x00; x00;
       x00; x02; x00; x00; x00; x01; "a"; xff; xff; xff; xff]%byte;
      [x00; x01; x00; x00; x00; x02; "b"; "c"]%byte;
      [xff; xff] ].
Proof.
  pose proof (binary_copy_framing (fun _ b => b) (fun _ => [])
                (fun _ _ => Ok copy_in_binary) copy_in_binary
                (fun _ => (EmptyString, EmptyString)) copy_in_binary (-1) []
                sample_rows eq_refl eq_refl) as H.
  assert (Hp : Forall (fun row => packable (dumped (fun _ b => b) row))
                 sample_rows).
  { repeat constructor; simpl; lia. }
  destruct (H Hp) as (_ & _ & Hdata & _).
  rewrite Hdata. reflexivity.
Defined.

(** *** A row that cannot be packed *)

(** A row of 32768 nil fields, one more than the two-byte count of
    fields can hold. *)
Definition wide_row : list (option bytes) := replicate (Z.to_nat 32768) None.

(** A binary COPY IN session of byte strings, dumped as they are, on a
    server that accepts the data, and what a block does to it. *)
Definition copy_in_run (ops : list (@Op bytes)) : result unit * Copy :=
  with_copy (fun _ b => b) (fun _ => []) (fun _ _ => Ok copy_in_binary)
    copy_in_binary (fun _ => (EmptyString, EmptyString)) ops
    (Copy_init copy_in_binary (-1) []).

(** C3 fails on the code. [_format_row_binary] clears [_first_row]
    before it packs the row, so a [write_row] that fails in the packing
    leaves the session as if its prologue were sent. When the caller
    catches the error and leaves the block normally, the wire holds the
    trailer though no row was written; a row written after the failure
    goes without the prologue. The same session without the failed
    call has the 19 bytes of the prologue before its row, and nothing at
    all when no row is written. *)
Theorem binary_copy_lost_prologue :
  write_row (fun _ (b : bytes) => b) (fun _ => []) wide_row
    (Copy_init copy_in_binary (-1) [])
  = (Raise StructError, set_first_row (Copy_init copy_in_binary (-1) []) false)
  /\ fst (copy_in_run [OpTryWriteRow wide_row]) = Ok tt
  /\ copy_data (snd (copy_in_run [OpTryWriteRow wide_row])) = [[xff; xff]]
  /\ fst (copy_in_run [OpTryWriteRow wide_row; OpWriteRow [Some ["a"%byte]]])
     = Ok tt
  /\ copy_data
       (snd (copy_in_run [OpTryWriteRow wide_row;
                          OpWriteRow [Some ["a"%byte]]]))
     = [[x00; x01; x00; x00; x00; x01; "a"]%byte; [xff; xff]]
  /\ copy_data (snd (copy_in_run [OpWriteRow [Some ["a"%byte]]]))
     = [["P"; "G"; "C"; "O"; "P"; "Y"; x0a; xff; x0d; x0a; x00;
         x00; x00; x00; x00; x00; x00; x00; x00;
         x00; x01; x00; x00; x00; x01; "a"]%byte; [xff; xff]]
  /\ copy_data (snd (copy_in_run [])) = [].
Proof. vm_compute. repeat split. Qed.


(** *** Single shot *)

Section SingleShot.

Context {Item : Type}.
Variable dumper_dump : Format -> Item -> bytes.
Variable encode : string -> bytes.
Variable copy_end_reply : list bytes -> option bytes -> result PGresult.
Variable copy_from_final : PGresult.
Variable exc_info : exn -> string * string.

Definition is_read (op : @Op Item) : bool :=
  match op with
  | OpRead => true
  | _ => false
  end.


(** Entering is refused exactly on a finished session. *)
Lemma enter_finished (c : Copy) :
  __enter__ c = (if _finished c then (Raise TypeError, c) else (Ok tt, c)).
Proof. unfold __enter__, cbind, cget, craise, cret. by destruct (_finished c). Qed.

(** What a call inside the block leaves as it was: the result of the
    session for ever, and [_finished] and the pending chunks unless
    the call is a [read]. *)
Lemma run_op_frame (op : Op) (c c' : Copy) :
  c' = snd (run_op dumper_dump encode copy_from_final op c) ->
  _pgresult c' = _pgresult c
  /\ (_finished c = true -> _finished c' = true)
  /\ (is_read op = false ->
      _finished c' = _finished c /\ incoming c' = incoming c).
Proof.
  intros ->.
  destruct c as [pg fmt fr fin rc wire ends inc].
  destruct op as [buffer | row | | e | row]; cbn [run_op snd].
  - unfold write, _ensure_bytes, wait_copy_to, cbind, cget, cret, craise,
      cmodify.
    destruct buffer as [data | data |]; cbn; [done | | done].
    by destruct (decide _).
  - unfold write_row, write, _format_row, _format_copy_row,
      _format_row_binary, _ensure_bytes, wait_copy_to,
      cbind, cget, cret, craise, cmodify, clift.
    cbn [format _first_row].
    destruct (decide (fmt = TEXT)).
    + by destruct (_format_row_text _).
    + destruct fr; cbn; destruct (pack_h _); cbn; try done;
        by destruct (binary_fields _ _).
  - unfold read, wait_copy_from, cbind, cget, cret, cmodify.
    cbn [_finished incoming].
    destruct fin; [done |]. by destruct inc.
  - done.
  - unfold write_row, write, _format_row, _format_copy_row,
      _format_row_binary, _ensure_bytes, wait_copy_to,
      cbind, cget, cret, craise, cmodify, clift.
    cbn [format _first_row].
    destruct (decide (fmt = TEXT)).
    + by destruct (_format_row_text _).
    + destruct fr; cbn; destruct (pack_h _); cbn; try done;
        by destruct (binary_fields _ _).
Qed.




(** The argument that [_finish] gives to [put_copy_end]. *)
Definition end_argument (error : string) : option bytes :=
  if decide (error = EmptyString) then None else Some (encode error).

(** [_finish] logs the end of the COPY; it sets the row count and
    [_finished] when the exchange returns a result, and lets the
    exception of the exchange through otherwise. *)
Lemma finish_cases (error : string) (c : Copy) :
  _finish encode copy_end_reply error c
  = let c1 := set_copy_end_errors c
                (copy_end_errors c ++ [end_argument error]) in
    match copy_end_reply (copy_data c) (end_argument error) with
    | Ok res =>
        (Ok tt,
         set_finished
           (set_cursor_rowcount c1
              (match command_tuples res with Some n => n | None => -1 end))
           true)
    | Raise e => (Raise e, c1)
    end.
Proof.
  unfold _finish, wait_copy_end, cbind, cget, cmodify, clift, end_argument.
  by destruct (copy_end_reply _ _).
Qed.






End SingleShot.

(** A COPY OUT session with one chunk to come. *)
Definition copy_out_text : PGresult := mkPGresult COPY_OUT (Some 1) TEXT 0 [].

Definition copy_out_session : Copy :=
  Copy_init copy_out_text (-1) [["1"%byte; x0a]].




Definition query_canceled : exn := ServerError ["5"; "7"; "0"; "1"; "4"]%byte.

Definition cancelling_reply (res : PGresult) (wire : list bytes)
    (berr : option bytes) : result PGresult :=
  match berr with
  | None => Ok res
  | Some _ => Raise query_canceled
  end.



End CopyTheory.

(** ** Array codec *)

Module ArrayTheory.
Import ArrayModel.

#[local] Arguments be_bytes : simpl never.

(** *** Packed integers *)

Lemma Z_of_byte_of_Z (z : Z) : Z_of_byte (byte_of_Z z) = z mod 256.
Proof.
  unfold Z_of_byte, byte_of_Z.
  change 255 with (Z.ones 8). rewrite Z.land_ones by lia.
  change (2 ^ 8) with 256.
  assert (Hrange : 0 <= z mod 256 < 256) by (apply Z.mod_pos_bound; lia).
  destruct (Byte.of_N (Z.to_N (z mod 256))) as [b |] eqn:Hb.
  - apply Byte.to_of_N in Hb. rewrite Hb. lia.
  - apply Byte.of_N_None_iff in Hb. lia.
Qed.

Lemma be_value_bytes4 (v : Z) :
  0 <= v <= 4294967295 -> be_value (be_bytes 4 v) = v.
Proof.
  intros Hv. unfold be_value, be_bytes. cbn [fold_left].
  rewrite !Z_of_byte_of_Z, !Z.shiftr_div_pow2 by lia.
  change (8 * Z.of_nat 3) with 24. change (8 * Z.of_nat 2) with 16.
  change (8 * Z.of_nat 1) with 8. change (8 * Z.of_nat 0) with 0.
  change (2 ^ 24) with 16777216. change (2 ^ 16) with 65536.
  change (2 ^ 8) with 256. change (2 ^ 0) with 1.
  rewrite Z.div_1_r.
  Z.div_mod_to_equations. lia.
Qed.

Lemma length_be_bytes (w : nat) (v : Z) : length (be_bytes w v) = w.
Proof.
  unfold be_bytes. induction w as [| w IH]; [done |]. simpl. by rewrite IH.
Qed.

Section BinaryEmpty.

Context {A : Type}.
Variable TEXT_OID TEXT_ARRAY_OID : Z.
Variable builtins_array_oid : Z -> option Z.
Variable tx_adapt : Format -> A -> adapted.
Variable tx_adapt_none : Format -> adapted.
Variable get_cast_function : Z -> Format -> bytes -> result A.

(** The head of a binary array: three unsigned 32-bit fields. *)
Definition array_head (ndims hasnull oid : Z) : bytes :=
  be_bytes 4 ndims ++ be_bytes 4 hasnull ++ be_bytes 4 oid.

Lemma array_head_unpack (ndims hasnull oid : Z) (rest : bytes) :
  0 <= ndims <= 4294967295 ->
  0 <= hasnull <= 4294967295 ->
  0 <= oid <= 4294967295 ->
  _struct_head_unpack_from
    (py_slice (array_head ndims hasnull oid ++ rest) 0 12) 0
  = Ok (ndims, hasnull, oid).
Proof.
  intros Hn Hh Ho.
  assert (Hslice : py_slice (array_head ndims hasnull oid ++ rest) 0 12
                   = array_head ndims hasnull oid).
  { unfold py_slice. rewrite length_app.
    assert (Hlen : length (array_head ndims hasnull oid) = 12%nat).
    { unfold array_head. by rewrite !length_app, !length_be_bytes. }
    rewrite Hlen.
    destruct (decide (12 < 0)) as [? | _]; [lia |].
    destruct (decide (0 < 0)) as [? | _]; [lia |].
    replace (Z.to_nat (Z.min 12 (Z.of_nat (12 + length rest))
                       - Z.min 0 (Z.of_nat (12 + length rest)))) with 12%nat
      by lia.
    replace (Z.to_nat (Z.min 0 (Z.of_nat (12 + length rest)))) with 0%nat
      by lia.
    rewrite drop_0, take_app_length'; done. }
  rewrite Hslice. unfold _struct_head_unpack_from, unpack_from, array_head.
  rewrite !length_app, !length_be_bytes.
  destruct (decide (0 < 0)) as [? | _]; [lia |].
  destruct (decide _) as [_ | ?]; [| lia].
  cbn [seq map bind Z.to_nat Nat.add Nat.mul].
  rewrite drop_0, take_app_length' by (by rewrite length_be_bytes).
  rewrite (drop_app_length' (be_bytes 4 ndims))
    by (by rewrite length_be_bytes).
  rewrite take_app_length' by (by rewrite length_be_bytes).
  replace (be_bytes 4 ndims ++ be_bytes 4 hasnull ++ be_bytes 4 oid)
    with ((be_bytes 4 ndims ++ be_bytes 4 hasnull) ++ be_bytes 4 oid)
    by (by rewrite <- app_assoc).
  rewrite drop_app_length' by (by rewrite length_app, !length_be_bytes).
  rewrite firstn_all2 by (by rewrite length_be_bytes).
  by rewrite !be_value_bytes4.
Qed.

(** C10. The binary writer turns the empty list into the 12-byte head
    of zero dimensions, no null and the OID of text, with the OID of
    text[]; the binary reader turns every payload whose head has zero
    dimensions into the empty list, that head in particular. *)
Theorem binary_empty_list_roundtrip :
  0 <= TEXT_OID <= 4294967295 ->
  BinaryListAdapter_adapt TEXT_OID TEXT_ARRAY_OID builtins_array_oid
    tx_adapt tx_adapt_none []
  = Ok (array_head 0 0 TEXT_OID, TEXT_ARRAY_OID)
  /\ length (array_head 0 0 TEXT_OID) = 12%nat
  /\ _struct_head_unpack_from (py_slice (array_head 0 0 TEXT_OID) 0 12) 0
     = Ok (0, 0, TEXT_OID)
  /\ (forall data hasnull oid,
        _struct_head_unpack_from (py_slice data 0 12) 0
        = Ok (0, hasnull, oid) ->
        ArrayCasterBinary_cast get_cast_function data = Ok (PList []))
  /\ ArrayCasterBinary_cast get_cast_function (array_head 0 0 TEXT_OID)
     = Ok (PList []).
Proof.
  intros Hoid.
  assert (Hhead : _struct_head_unpack_from
                    (py_slice (array_head 0 0 TEXT_OID) 0 12) 0
                  = Ok (0, 0, TEXT_OID)).
  { rewrite <- (app_nil_r (array_head 0 0 TEXT_OID)).
    apply array_head_unpack; lia. }
  assert (Hcast : forall data hasnull oid,
            _struct_head_unpack_from (py_slice data 0 12) 0
            = Ok (0, hasnull, oid) ->
            ArrayCasterBinary_cast get_cast_function data = Ok (PList [])).
  { intros data hasnull oid Hd. unfold ArrayCasterBinary_cast.
    rewrite Hd. cbn [bind]. by destruct (decide (0 = 0)). }
  split; [| split; [| split; [| split]]].
  - unfold BinaryListAdapter_adapt. cbn [binary_adapt].
    unfold _struct_head_pack, pack_I.
    destruct (decide (0 <= 0 <= 4294967295)) as [_ | ?]; [| lia].
    destruct (decide (0 <= TEXT_OID <= 4294967295)) as [_ | ?]; [| lia].
    reflexivity.
  - unfold array_head. by rewrite !length_app, !length_be_bytes.
  - exact Hhead.
  - exact Hcast.
  - by apply (Hcast _ 0 TEXT_OID).
Qed.

End BinaryEmpty.

(** The OIDs of text and of text[] in the catalogue of PostgreSQL. *)
Definition text_oid : Z := 25.
Definition text_array_oid : Z := 1009.

(** A transformer whose dumper gives the bytes of a byte string as they
    are, without an OID, and whose loader is the identity. *)
Definition bare_adapt (fmt : Format) (b : bytes) : adapted := Bare (Some b).
Definition bare_adapt_none (fmt : Format) : adapted := WithOid None text_oid.
Definition no_builtins (oid : Z) : option Z := None.
Definition bytes_cast (oid : Z) (fmt : Format) (b : bytes) : result bytes :=
  Ok b.

Lemma binary_empty_list_roundtrip_witness :
  BinaryListAdapter_adapt text_oid text_array_oid no_builtins bare_adapt
    bare_adapt_none []
  = Ok ([x00; x00; x00; x00; x00; x00; x00; x00; x00; x00; x00; x19],
        text_array_oid)
  /\ ArrayCasterBinary_cast bytes_cast
       [x00; x00; x00; x00; x00; x00; x00; x00; x00; x00; x00; x19]
     = Ok (PList []).
Proof.
  destruct (binary_empty_list_roundtrip text_oid text_array_oid no_builtins
              bare_adapt bare_adapt_none bytes_cast)
    as (Hadapt & _ & _ & _ & Hcast).
  { unfold text_oid. lia. }
  split; [exact Hadapt | exact Hcast].
Defined.

(** *** Empty inner lists in the binary writer *)

(** C6 fails on the code. The list of a byte string and an empty list
    has an empty inner list, and the binary writer returns a value for
    it: the empty list stands in the last dimension, where every item
    is handed to the transformer, and no OID was fixed before it that
    could differ from the OID of text[]. *)
Theorem binary_adapt_accepts_empty_inner :
  BinaryListAdapter_adapt text_oid text_array_oid no_builtins bare_adapt
    bare_adapt_none [PScalar ["a"%byte]; PList []]
  = Ok ([x00; x00; x00; x01; x00; x00; x00; x00; x00; x00; x03; xf1;
         x00; x00; x00; x02; x00; x00; x00; x01;
         x00; x00; x00; x01; "a"%byte;
         x00; x00; x00; x0c;
         x00; x00; x00; x00; x00; x00; x00; x00; x00; x00; x00; x19],
        text_array_oid).
Proof. vm_compute. reflexivity. Qed.

(** Where the writer does refuse: an empty list on the way down the
    first elements, an empty list below the first row, a row of another
    length. *)
Example binary_adapt_refuses :
  BinaryListAdapter_adapt text_oid text_array_oid no_builtins bare_adapt
    bare_adapt_none [PList []; PList [PScalar ["a"%byte]]]
  = Raise DataError
  /\ BinaryListAdapter_adapt text_oid text_array_oid no_builtins bare_adapt
       bare_adapt_none [PList [PScalar ["a"%byte]]; PList []]
     = Raise DataError
  /\ BinaryListAdapter_adapt text_oid text_array_oid no_builtins bare_adapt
       bare_adapt_none
       [PList [PScalar ["a"%byte]; PScalar ["b"%byte]];
        PList [PScalar ["c"%byte]]]
     = Raise DataError.
Proof. vm_compute. done. Qed.

End ArrayTheory.

(** ** Array text round trip *)

Module ArrayTextTheory.
Import ArrayModel.

(** *** The scanner of [_re_parse] *)

Lemma skip_comma_length (s : bytes) :
  (length (skip_comma s) <= length s)%nat.
Proof. destruct s as [| c s]; simpl; [lia |]. destruct (decide _); simpl; lia. Qed.

Lemma quoted_tail_length (s t rest : bytes) :
  quoted_tail s = Some (t, rest) -> (length rest < length s)%nat.
Proof.
  revert t rest.
  induction s as [s IH] using (induction_ltof1 _ (@length byte)).
  unfold ltof in IH. intros t rest H.
  destruct s as [| c s]; [done |]. cbn [quoted_tail] in H.
  destruct (decide (c = x22)).
  { injection H as <- <-. simpl. lia. }
  destruct (decide (c = x5c)).
  - destruct s as [| d s]; [done |].
    destruct (decide (d = x0a)); [done |].
    destruct (quoted_tail s) as [[t' rest'] |] eqn:Hq; [| done].
    injection H as <- <-. apply IH in Hq; simpl in *; lia.
  - destruct (quoted_tail s) as [[t' rest'] |] eqn:Hq; [| done].
    injection H as <- <-. apply IH in Hq; simpl in *; lia.
Qed.

Lemma span_length (p : byte -> bool) (s : bytes) :
  (length (span p s).2 <= length s)%nat.
Proof.
  induction s as [| c s IH]; simpl; [lia |].
  destruct (p c); simpl; [| lia].
  destruct (span p s) as [run rest]. simpl in *. lia.
Qed.

Lemma re_parse_match_length (c : byte) (s t rest : bytes) :
  _re_parse_match (c :: s) = Some (t, rest) ->
  (length rest <= length s)%nat.
Proof.
  unfold _re_parse_match. intros H.
  destruct (bool_decide _).
  { injection H as <- <-. apply skip_comma_length. }
  destruct (decide (c = x22)).
  { destruct (quoted_tail s) as [[t' rest'] |] eqn:Hq; [| done].
    injection H as <- <-. apply quoted_tail_length in Hq.
    pose proof (skip_comma_length rest'). lia. }
  destruct (is_unquoted c) eqn:Hc; [| done].
  pose proof (span_length is_unquoted s) as Hs.
  cbn [span] in H. rewrite Hc in H.
  destruct (span is_unquoted s) as [run rest'].
  injection H as <- <-. simpl in Hs.
  pose proof (skip_comma_length rest'). lia.
Qed.

Lemma finditer_fuel_enough (n : nat) :
  forall (s : bytes) (fuel1 fuel2 : nat),
    (length s <= n)%nat -> (n <= fuel1)%nat -> (n <= fuel2)%nat ->
    finditer_fuel fuel1 s = finditer_fuel fuel2 s.
Proof.
  induction n as [| n IH]; intros s fuel1 fuel2 Hs H1 H2.
  - destruct s; [| simpl in Hs; lia]. by destruct fuel1, fuel2.
  - destruct s as [| c s]; [by destruct fuel1, fuel2 |].
    destruct fuel1 as [| fuel1]; [lia |]. destruct fuel2 as [| fuel2]; [lia |].
    cbn [finditer_fuel]. simpl in Hs.
    destruct (_re_parse_match (c :: s)) as [[t rest] |] eqn:Hm.
    + apply re_parse_match_length in Hm. f_equal. apply IH; lia.
    + apply IH; lia.
Qed.

(** The scan, a match at a time. *)
Lemma finditer_cons (c : byte) (s : bytes) :
  _re_parse_finditer (c :: s)
  = match _re_parse_match (c :: s) with
    | Some (t, rest) => t :: _re_parse_finditer rest
    | None => _re_parse_finditer s
    end.
Proof.
  unfold _re_parse_finditer. cbn [length finditer_fuel].
  destruct (_re_parse_match (c :: s)) as [[t rest] |] eqn:Hm.
  - apply re_parse_match_length in Hm. f_equal.
    apply (finditer_fuel_enough (length rest)); lia.
  - reflexivity.
Qed.

Lemma finditer_nil : _re_parse_finditer [] = [].
Proof. reflexivity. Qed.

(** What may follow an element: the end, a comma or a closing brace. *)
Definition follows (rest : bytes) : Prop :=
  match rest with
  | [] => True
  | c :: _ => c = x2c \/ c = x7d
  end.

Lemma span_run (p : byte -> bool) (run rest : bytes) :
  Forall (fun c => p c = true) run ->
  match rest with [] => True | c :: _ => p c = false end ->
  span p (run ++ rest) = (run, rest).
Proof.
  intros Hrun Hrest. induction Hrun as [| c run Hc Hrun IH]; simpl.
  - destruct rest as [| c rest]; [done |]. simpl. by rewrite Hrest.
  - by rewrite Hc, IH.
Qed.

Lemma follows_stops (rest : bytes) :
  follows rest ->
  match rest with [] => True | c :: _ => is_unquoted c = false end.
Proof. destruct rest as [| c rest]; [done |]. by intros [-> | ->]. Qed.

(** An unquoted element is one match. *)
Lemma finditer_unquoted (t rest : bytes) :
  t <> [] ->
  Forall (fun c => is_unquoted c = true) t ->
  follows rest ->
  _re_parse_finditer (t ++ rest) = t :: _re_parse_finditer (skip_comma rest).
Proof.
  intros Hne Ht Hrest. destruct t as [| c t]; [done |].
  rewrite <- app_comm_cons, finditer_cons. unfold _re_parse_match.
  inversion Ht as [| ? ? Hc Ht']; subst.
  assert (Hnb : bool_decide (c ∈ [x7b; x7d]) = false).
  { apply bool_decide_eq_false. intros Hin.
    rewrite !elem_of_cons in Hin.
    destruct Hin as [-> | [-> | Hin]]; [done | done |].
    by apply elem_of_nil in Hin. }
  rewrite Hnb.
  destruct (decide (c = x22)) as [-> | _]; [done |].
  rewrite Hc.
  rewrite (app_comm_cons t rest c), (span_run is_unquoted (c :: t) rest);
    [done | done | by apply follows_stops].
Qed.

(** The text of a quoted element after the opening quote. *)
Lemma quoted_tail_escape (ad rest : bytes) :
  quoted_tail (_re_escape_sub ad ++ x22 :: rest)
  = Some (_re_escape_sub ad ++ [x22], rest).
Proof.
  induction ad as [| c ad IH]; [done |].
  unfold _re_escape_sub in *. cbn [flat_map].
  destruct (bool_decide (c ∈ [x22; x5c])) eqn:Hc.
  - apply bool_decide_eq_true in Hc.
    assert (Hd : c <> x0a).
    { rewrite !elem_of_cons in Hc.
      destruct Hc as [-> | [-> | Hc]]; [done | done |].
      by apply elem_of_nil in Hc. }
    cbn [app quoted_tail].
    destruct (decide (x5c = x22)) as [? | _]; [done |].
    destruct (decide (x5c = x5c)) as [_ | ?]; [| done].
    destruct (decide (c = x0a)) as [? | _]; [done |].
    by rewrite IH.
  - apply bool_decide_eq_false in Hc.
    cbn [app quoted_tail].
    destruct (decide (c = x22)) as [-> | _]; [exfalso; apply Hc; set_solver |].
    destruct (decide (c = x5c)) as [-> | _]; [exfalso; apply Hc; set_solver |].
    by rewrite IH.
Qed.

(** A quoted element is one match. *)
Lemma finditer_quoted (ad rest : bytes) :
  _re_parse_finditer (([x22] ++ _re_escape_sub ad ++ [x22]) ++ rest)
  = ([x22] ++ _re_escape_sub ad ++ [x22])
    :: _re_parse_finditer (skip_comma rest).
Proof.
  cbn [app]. rewrite finditer_cons. unfold _re_parse_match.
  assert (Hnb : bool_decide (x22 ∈ [x7b; x7d]) = false) by done.
  rewrite Hnb. destruct (decide (x22 = x22)) as [_ | ?]; [| done].
  rewrite <- app_assoc. cbn [app]. by rewrite quoted_tail_escape.
Qed.

(** A brace is one match. *)
Lemma finditer_brace (c : byte) (rest : bytes) :
  c = x7b \/ c = x7d ->
  _re_parse_finditer (c :: rest) = [c] :: _re_parse_finditer (skip_comma rest).
Proof.
  intros Hc. rewrite finditer_cons. unfold _re_parse_match.
  by destruct Hc as [-> | ->].
Qed.

(** The inverse of the escape. *)
Lemma unescape_escape (ad : bytes) :
  _re_unescape_sub (_re_escape_sub ad) = ad.
Proof.
  induction ad as [| c ad IH]; [done |].
  unfold _re_escape_sub in *. cbn [flat_map].
  destruct (bool_decide (c ∈ [x22; x5c])) eqn:Hc.
  - apply bool_decide_eq_true in Hc.
    assert (Hd : c <> x0a).
    { rewrite !elem_of_cons in Hc.
      destruct Hc as [-> | [-> | Hc]]; [done | done |].
      by apply elem_of_nil in Hc. }
    cbn [app _re_unescape_sub].
    destruct (decide (x5c = x5c)) as [_ | ?]; [| done].
    destruct (decide (c = x0a)) as [? | _]; [done |].
    by rewrite IH.
  - apply bool_decide_eq_false in Hc.
    cbn [app _re_unescape_sub].
    destruct (decide (c = x5c)) as [-> | _]; [exfalso; apply Hc; set_solver |].
    by rewrite IH.
Qed.

(** What an element that needs no quotes is made of. *)
Lemma needs_quote_false (ad : bytes) :
  _re_needs_quote ad = false ->
  ad <> []
  /\ Forall (fun c => is_unquoted c = true) ad
  /\ ad <> ["N"; "U"; "L"; "L"]%byte.
Proof.
  unfold _re_needs_quote. intros H.
  apply orb_false_iff in H as [H Hnull].
  apply orb_false_iff in H as [Hempty Hcls].
  apply bool_decide_eq_false in Hempty, Hnull.
  split; [intros ->; apply Hempty; by left |].
  split.
  - apply Forall_forall. intros c Hc.
    destruct (is_unquoted c) eqn:Hu; [done |].
    assert (Hex : existsb
              (fun c => bool_decide (c ∈ [x22; x7b; x7d; x2c; x5c])
                        || is_space c) ad = true).
    { apply existsb_exists. exists c. split; [by apply list_elem_of_In |].
      unfold is_unquoted in Hu. apply negb_false_iff in Hu. by rewrite Hu. }
    congruence.
  - intros ->. apply Hnull. by left.
Qed.


(** *** Values, their text and their tokens *)

Section Roundtrip.

Context {A : Type}.
Variable TEXT_OID TEXT_ARRAY_OID : Z.
Variable builtins_array_oid : Z -> option Z.
Variable tx_adapt : Format -> A -> adapted.
Variable get_cast_function : Z -> Format -> bytes -> result A.
Variable base_oid : Z.

(** Induction on a value, with the property at hand for the items of a
    list. *)
Fixpoint pyval_nested_ind (P : pyval A -> Prop) (HNone : P PNone)
    (HScalar : forall a, P (PScalar a))
    (HList : forall items, Forall P items -> P (PList items))
    (v : pyval A) : P v :=
  match v with
  | PNone => HNone
  | PScalar a => HScalar a
  | PList items =>
      HList items
        ((fix all (l : list (pyval A)) : Forall P l :=
            match l with
            | [] => @List.Forall_nil _ P
            | x :: l' =>
                @List.Forall_cons _ P x l'
                  (pyval_nested_ind P HNone HScalar HList x) (all l')
            end) items)
  end.

(** The scalars of a value, from left to right. *)
Fixpoint scalars (v : pyval A) : list A :=
  match v with
  | PNone => []
  | PScalar a => [a]
  | PList items => flat_map scalars items
  end.

(** The shape of a rectangular value: the lengths of the lists, from
    the outermost in. *)
Fixpoint has_shape (dims : list nat) (v : pyval A) : Prop :=
  match dims with
  | [] => match v with PList _ => False | _ => True end
  | d :: dims' =>
      match v with
      | PList items => length items = d /\ Forall (has_shape dims') items
      | _ => False
      end
  end.

Definition rectangular (xs : list (pyval A)) : Prop :=
  exists dims, has_shape dims (PList xs).

Definition adapted_data (ad : adapted) : option bytes :=
  match ad with
  | Bare data => data
  | WithOid data _ => data
  end.

Definition NULL : bytes := ["N"; "U"; "L"; "L"]%byte.

(** The text of an element whose dumped bytes are [ad]. *)
Definition quote_element (ad : bytes) : bytes :=
  if _re_needs_quote ad then [x22] ++ _re_escape_sub ad ++ [x22] else ad.

Definition scalar_token (a : A) : bytes :=
  match adapted_data (tx_adapt TEXT a) with
  | Some ad => quote_element ad
  | None => NULL
  end.

(** The texts of the items of a list, each followed by a comma but the
    last, which is followed by the closing brace. *)
Fixpoint close_items (parts : list bytes) : bytes :=
  match parts with
  | [] => [x7d]
  | p :: parts' =>
      match parts' with
      | [] => p ++ [x7d]
      | _ :: _ => p ++ x2c :: close_items parts'
      end
  end.

(** The text of a value. *)
Fixpoint render (v : pyval A) : bytes :=
  match v with
  | PNone => NULL
  | PScalar a => scalar_token a
  | PList items => x7b :: close_items (map render items)
  end.

(** The tokens of the text of a value. *)
Fixpoint item_tokens (v : pyval A) : list bytes :=
  match v with
  | PNone => [NULL]
  | PScalar a => [scalar_token a]
  | PList items => [x7b] :: flat_map item_tokens items ++ [[x7d]]
  end.

Lemma NULL_unquoted : Forall (fun c => is_unquoted c = true) NULL.
Proof. by repeat constructor. Qed.

(** The text of an element is one token, and does not start with a
    comma. *)
Lemma finditer_element (ad rest : bytes) :
  follows rest ->
  _re_parse_finditer (quote_element ad ++ rest)
  = quote_element ad :: _re_parse_finditer (skip_comma rest).
Proof.
  intros Hrest. unfold quote_element.
  destruct (_re_needs_quote ad) eqn:Hq.
  - apply finditer_quoted.
  - apply needs_quote_false in Hq as (Hne & Hun & _).
    by apply finditer_unquoted.
Qed.

Lemma element_head (ad : bytes) :
  exists c s, quote_element ad = c :: s /\ c <> x2c.
Proof.
  unfold quote_element. destruct (_re_needs_quote ad) eqn:Hq.
  - by eexists _, _.
  - apply needs_quote_false in Hq as (Hne & Hun & _).
    destruct ad as [| c ad]; [done |]. exists c, ad. split; [done |].
    inversion Hun as [| ? ? Hc _]; subst. by intros ->.
Qed.

Lemma render_head (v : pyval A) :
  exists c s, render v = c :: s /\ c <> x2c.
Proof.
  destruct v as [| a | items]; cbn [render].
  - by eexists _, _.
  - unfold scalar_token. destruct (adapted_data _); [apply element_head |].
    by eexists _, _.
  - by eexists _, _.
Qed.

Lemma close_items_head (items : list (pyval A)) :
  exists c s, close_items (map render items) = c :: s /\ c <> x2c.
Proof.
  destruct items as [| x items]; [by eexists _, _ |].
  destruct (render_head x) as (c & s & Hx & Hc).
  cbn [map close_items]. rewrite Hx.
  destruct (map render items); by eexists _, _.
Qed.

Lemma skip_comma_head (c : byte) (s : bytes) :
  c <> x2c -> skip_comma (c :: s) = c :: s.
Proof. intros Hc. simpl. by destruct (decide (c = x2c)). Qed.

(** The scanner cuts the text of a value into its tokens. *)
Definition scanned (v : pyval A) : Prop :=
  forall rest, follows rest ->
    _re_parse_finditer (render v ++ rest)
    = item_tokens v ++ _re_parse_finditer (skip_comma rest).

Lemma finditer_close_items (items : list (pyval A)) (rest : bytes) :
  Forall scanned items ->
  _re_parse_finditer (close_items (map render items) ++ rest)
  = flat_map item_tokens items
    ++ [x7d] :: _re_parse_finditer (skip_comma rest).
Proof.
  intros Hitems. induction Hitems as [| x items Hx Hitems IH].
  - cbn [map close_items flat_map app]. apply finditer_brace. by right.
  - destruct items as [| y items].
    + change (close_items (map render [x])) with (render x ++ [x7d]).
      cbn [flat_map]. rewrite !app_nil_r, <- !app_assoc. cbn [app].
      rewrite (Hx (x7d :: rest)) by (by right).
      rewrite skip_comma_head by done.
      rewrite finditer_brace by (by right). reflexivity.
    + change (close_items (map render (x :: y :: items)))
        with (render x ++ x2c :: close_items (map render (y :: items))).
      change (flat_map item_tokens (x :: y :: items))
        with (item_tokens x ++ flat_map item_tokens (y :: items)).
      rewrite <- !app_assoc, <- app_comm_cons.
      rewrite (Hx (x2c :: _)) by (by left).
      cbn [skip_comma]. destruct (decide (x2c = x2c)) as [_ | ?]; [| done].
      by rewrite IH.
Qed.

Lemma finditer_render (v : pyval A) : scanned v.
Proof.
  induction v as [| a | items IH] using pyval_nested_ind; intros rest Hrest;
    cbn [render item_tokens app].
  - rewrite finditer_unquoted; [done | done | apply NULL_unquoted | done].
  - unfold scalar_token. destruct (adapted_data _) as [ad |].
    + by apply finditer_element.
    + rewrite finditer_unquoted; [done | done | apply NULL_unquoted | done].
  - rewrite finditer_brace by (by left).
    destruct (close_items_head items) as (c & s & Hc & Hne).
    rewrite Hc, <- app_comm_cons, skip_comma_head by done.
    rewrite app_comm_cons, <- Hc.
    rewrite finditer_close_items by done.
    by rewrite <- app_assoc.
Qed.

(** *** The writer *)

(** The OID that the scalars of the value at hand dump to. *)
Variable o : Z.

(** The dumper gives bytes for the scalar, with the OID [o] or with no
    OID. *)
Definition dumps_to (a : A) : Prop :=
  exists ad, tx_adapt TEXT a = WithOid (Some ad) o
             \/ tx_adapt TEXT a = Bare (Some ad).

(** The OID of the closure is not fixed yet, or is [o]. *)
Definition oid_inv (st : text_state) : Prop := t_oid st = 0 \/ t_oid st = o.

(** The body of the loop of [adapt_list] for one item, with the local
    [got_type] of the call. *)
Definition text_adapt_item (item : pyval A) (got_type : bool)
    (st : text_state) : result (bool * text_state) :=
  match item with
  | PList _ => st <- text_adapt_list tx_adapt item st ;; Ok (got_type, st)
  | PNone => Ok (got_type, push_token st NULL)
  | PScalar a => text_adapt_scalar tx_adapt a got_type st
  end.

Lemma text_adapt_items_cons (x : pyval A) (items : list (pyval A))
    (got : bool) (st : text_state) :
  text_adapt_items tx_adapt (text_adapt_list tx_adapt) (x :: items) got st
  = (r <- text_adapt_item x got st ;;
     text_adapt_items tx_adapt (text_adapt_list tx_adapt) items r.1
       (push_token r.2 [x2c])).
Proof.
  cbn [text_adapt_items]. unfold text_adapt_item.
  destruct x as [| a | l]; cbn [bind]; [done | |].
  - by destruct (text_adapt_scalar tx_adapt a got st) as [[? ?] |].
  - by destruct (text_adapt_list tx_adapt (PList l) st).
Qed.

Lemma text_adapt_list_cons (x : pyval A) (items : list (pyval A))
    (st : text_state) :
  text_adapt_list tx_adapt (PList (x :: items)) st
  = (st <- text_adapt_items tx_adapt (text_adapt_list tx_adapt) (x :: items)
             false (push_token st [x7b]) ;;
     Ok (set_last_token st [x7d])).
Proof. reflexivity. Qed.

Lemma text_adapt_scalar_ok (a : A) (got : bool) (st : text_state) :
  oid_inv st -> dumps_to a ->
  exists got' st',
    text_adapt_scalar tx_adapt a got st = Ok (got', st')
    /\ tokens st' = tokens st ++ [scalar_token a]
    /\ oid_inv st'.
Proof.
  intros Hinv (ad & Had). unfold text_adapt_scalar, scalar_token.
  destruct Had as [-> | ->]; cbn [adapted_data].
  - destruct (decide (t_oid st = 0)) as [H0 | H0]; cbn [bind].
    + eexists _, _. split; [reflexivity |]. split; [done | by right].
    + destruct (decide (t_oid st <> o)) as [Hne | _].
      { by destruct Hinv. }
      cbn [bind]. eexists _, _. split; [reflexivity |]. by split.
  - cbn [bind]. eexists _, _. split; [reflexivity |]. by split.
Qed.

(** The item is written as its text, in some tokens. *)
Definition written (v : pyval A) : Prop :=
  Forall dumps_to (scalars v) ->
  forall got st, oid_inv st ->
    exists got' st' L,
      text_adapt_item v got st = Ok (got', st')
      /\ tokens st' = tokens st ++ L
      /\ concat L = render v
      /\ oid_inv st'.

Lemma text_adapt_items_ok (items : list (pyval A)) :
  Forall written items ->
  Forall dumps_to (flat_map scalars items) ->
  items <> [] ->
  forall got st, oid_inv st ->
    exists st' L,
      text_adapt_items tx_adapt (text_adapt_list tx_adapt) items got st
      = Ok st'
      /\ tokens st' = tokens st ++ L ++ [[x2c]]
      /\ concat L ++ [x7d] = close_items (map render items)
      /\ oid_inv st'.
Proof.
  intros Hitems. induction Hitems as [| x items Hx Hitems IH];
    intros Hdumps Hne got st Hinv; [done |].
  cbn [flat_map] in Hdumps. apply Forall_app in Hdumps as [Hdx Hdumps].
  destruct (Hx Hdx got st Hinv) as (got1 & st1 & L1 & Hb & Ht1 & Hc1 & Hinv1).
  rewrite text_adapt_items_cons, Hb. cbn [bind fst snd].
  destruct items as [| y items].
  - exists (push_token st1 [x2c]), L1. cbn [text_adapt_items].
    split; [done |]. split; [| split; [| done]].
    + cbn [push_token tokens]. by rewrite Ht1, <- app_assoc.
    + by rewrite Hc1.
  - destruct (IH Hdumps ltac:(done) got1 (push_token st1 [x2c]) Hinv1)
      as (st2 & L2 & Hl & Ht2 & Hc2 & Hinv2).
    exists st2, (L1 ++ [[x2c]] ++ L2).
    split; [done |]. split; [| split; [| done]].
    + rewrite Ht2. cbn [push_token tokens]. rewrite Ht1.
      by rewrite <- !app_assoc.
    + change (close_items (map render (x :: y :: items)))
        with (render x ++ x2c :: close_items (map render (y :: items))).
      rewrite <- Hc2, <- Hc1, !concat_app. cbn [concat app].
      by rewrite <- !app_assoc.
Qed.

Lemma set_last_token_app (pre : list bytes) (t0 t : bytes) (oid : Z) :
  set_last_token (mkTextState (pre ++ [t0]) oid) t
  = mkTextState (pre ++ [t]) oid.
Proof.
  unfold set_last_token. cbn [tokens t_oid]. f_equal.
  rewrite length_app. cbn [length].
  replace (length pre + 1 - 1)%nat with (length pre + 0)%nat by lia.
  by rewrite insert_app_r.
Qed.

Lemma text_adapt_render (v : pyval A) : written v.
Proof.
  induction v as [| a | items IH] using pyval_nested_ind;
    intros Hdumps got st Hinv; cbn [text_adapt_item render].
  - exists got, (push_token st NULL), [NULL]. cbn [push_token tokens concat].
    by rewrite app_nil_r.
  - cbn [scalars] in Hdumps. inversion Hdumps as [| ? ? Ha _]; subst.
    destruct (text_adapt_scalar_ok a got st Hinv Ha)
      as (got' & st' & Hs & Ht & Hinv').
    exists got', st', [scalar_token a]. cbn [concat]. by rewrite app_nil_r.
  - exists got. destruct items as [| x items].
    + exists (push_token st [x7b; x7d]), [[x7b; x7d]]. by cbn.
    + cbn [scalars] in Hdumps.
      destruct (text_adapt_items_ok (x :: items) IH Hdumps ltac:(done)
                  false (push_token st [x7b]) Hinv)
        as (st2 & L & Hl & Ht2 & Hc & Hinv2).
      rewrite text_adapt_list_cons, Hl. cbn [bind].
      destruct st2 as [toks2 oid2]. cbn [tokens push_token] in Ht2.
      subst toks2.
      replace ((tokens st ++ [[x7b]]) ++ L ++ [[x2c]])
        with ((tokens st ++ [[x7b]] ++ L) ++ [[x2c]])
        by (by rewrite <- !app_assoc).
      rewrite set_last_token_app.
      eexists _, ([[x7b]] ++ L ++ [[x7d]]).
      split; [reflexivity |]. split; [| split; [| done]].
      * cbn [tokens]. by rewrite <- !app_assoc.
      * rewrite !concat_app. cbn [concat app]. rewrite ?app_nil_r.
        by rewrite Hc.
Qed.

(** *** The reader *)

Abbreviation heap := (list (list (@cell A))).

(** The cell [c] of the list at [a] stands for the value [x]; [rep]
    tells what the list at an address stands for. A list that is an
    element lies at a later address than the list that holds it. *)
Definition cell_repr (rep : pyval A -> nat -> Prop) (a : nat) (c : @cell A)
    (x : pyval A) : Prop :=
  match x, c with
  | PNone, CNone => True
  | PScalar y, CVal z => y = z
  | PList _, CRef b => (a < b)%nat /\ rep x b
  | _, _ => False
  end.

Fixpoint cells_repr (rep : pyval A -> nat -> Prop) (a : nat)
    (cells : list (@cell A)) (items : list (pyval A)) {struct items} : Prop :=
  match items with
  | [] => match cells with [] => True | _ :: _ => False end
  | x :: items' =>
      match cells with
      | [] => False
      | c :: cells' => cell_repr rep a c x /\ cells_repr rep a cells' items'
      end
  end.

(** The list at address [a] of the store [h] stands for the value [v]. *)
Fixpoint repr (h : heap) (v : pyval A) (a : nat) : Prop :=
  match v with
  | PList items =>
      exists cells, h !! a = Some cells /\ cells_repr (repr h) a cells items
  | _ => False
  end.

Lemma cells_repr_app rep a cells1 cells2 items1 items2 :
  cells_repr rep a cells1 items1 ->
  cells_repr rep a cells2 items2 ->
  cells_repr rep a (cells1 ++ cells2) (items1 ++ items2).
Proof.
  revert cells1. induction items1 as [| x items1 IH]; intros cells1 H1 H2.
  - destruct cells1; [done | done].
  - destruct cells1 as [| c cells1]; [done |]. destruct H1 as [Hc H1].
    split; [done |]. by apply IH.
Qed.

(** A value stays where it is when the lists from its address on stay
    as they are. *)
Definition framed (v : pyval A) : Prop :=
  forall (h h' : heap) (a : nat),
    repr h v a ->
    (forall b cells, (a <= b)%nat -> h !! b = Some cells ->
                     h' !! b = Some cells) ->
    repr h' v a.

Lemma repr_frame (v : pyval A) : framed v.
Proof.
  induction v as [| y | items IH] using pyval_nested_ind;
    intros h h' a Hrep Hsame; [done | done |].
  cbn [repr] in *. destruct Hrep as (cells & Ha & Hcells).
  exists cells. split; [by apply (Hsame a) |].
  clear Ha. revert cells Hcells.
  induction IH as [| x items Hx _ IHitems]; intros cells Hcells.
  - by destruct cells.
  - destruct cells as [| c cells]; [done |]. destruct Hcells as [Hc Hcells].
    split; [| by apply IHitems].
    destruct x as [| y | sub], c as [| z | b]; try done.
    destruct Hc as [Hab Hsub]. split; [done |].
    apply (Hx h h' b Hsub). intros b' cells' Hb'. apply Hsame. lia.
Qed.

Lemma cell_repr_frame (h h' : heap) (a : nat) (c : @cell A) (x : pyval A) :
  cell_repr (repr h) a c x ->
  (forall b cells, (a < b)%nat -> h !! b = Some cells ->
                   h' !! b = Some cells) ->
  cell_repr (repr h') a c x.
Proof.
  intros Hc Hsame. destruct x as [| y | sub], c as [| z | b]; try done.
  destruct Hc as [Hab Hsub]. split; [done |].
  apply (repr_frame _ h h' b Hsub). intros b' cells' Hb'. apply Hsame. lia.
Qed.

(** Reading a list back gives the value it stands for. *)
Definition readable (v : pyval A) : Prop :=
  forall (h : heap) (a fuel : nat),
    repr h v a -> (length h - a < fuel)%nat ->
    read_list fuel h a = Some v.

Lemma read_list_repr (v : pyval A) : readable v.
Proof.
  induction v as [| y | items IH] using pyval_nested_ind;
    intros h a fuel Hrep Hfuel; [done | done |].
  cbn [repr] in Hrep. destruct Hrep as (cells & Ha & Hcells).
  destruct fuel as [| fuel]; [lia |]. cbn [read_list]. rewrite Ha.
  apply lookup_lt_Some in Ha.
  enough (Hread : read_cells (read_list fuel h) cells = Some items)
    by (by rewrite Hread).
  revert cells Hcells.
  induction IH as [| x items Hx _ IHitems]; intros cells Hcells.
  - by destruct cells.
  - destruct cells as [| c cells]; [done |]. destruct Hcells as [Hc Hcells].
    cbn [read_cells]. rewrite (IHitems cells Hcells).
    destruct x as [| y | sub], c as [| z | b]; try done.
    + by rewrite Hc.
    + destruct Hc as [Hab Hsub]. rewrite (Hx h b fuel Hsub); [done | lia].
Qed.

Lemma cast_loop_app (st : parser) (ts1 ts2 : list bytes) :
  cast_loop get_cast_function base_oid st (ts1 ++ ts2)
  = bind (cast_loop get_cast_function base_oid st ts1)
      (fun st => cast_loop get_cast_function base_oid st ts2).
Proof.
  revert st. induction ts1 as [| t ts1 IH]; intros st; [done |].
  cbn [app cast_loop].
  destruct (cast_step get_cast_function base_oid st t); [apply IH | done].
Qed.

(** The scalar is dumped to bytes that its loader takes back. *)
Definition castable (a : A) : Prop :=
  exists ad, adapted_data (tx_adapt TEXT a) = Some ad
             /\ get_cast_function base_oid TEXT ad = Ok a.

(** The token of an element is loaded from the dumped bytes. *)
Lemma cast_step_element (h : heap) (a : nat) (s : list nat)
    (rv : option nat) (ad : bytes) (x : A) :
  get_cast_function base_oid TEXT ad = Ok x ->
  cast_step get_cast_function base_oid (mkParser h (a :: s) rv)
    (quote_element ad)
  = Ok (mkParser (store_append h a (CVal x)) (a :: s) rv).
Proof.
  intros Hcast. unfold cast_step, quote_element. cbn [stack store ArrayModel.rv].
  destruct (_re_needs_quote ad) eqn:Hq.
  - cbn [app].
    destruct (decide (_ = [x7b])) as [? | _]; [done |].
    destruct (decide (_ = [x7d])) as [? | _]; [done |].
    destruct (decide (_ = ["N"; "U"; "L"; "L"]%byte)) as [? | _]; [done |].
    destruct (decide (x22 = x22)) as [_ | ?]; [| done].
    rewrite removelast_last, unescape_escape, Hcast. reflexivity.
  - apply needs_quote_false in Hq as (Hne & Hun & Hnull).
    destruct ad as [| c ad]; [done |].
    inversion Hun as [| ? ? Hc _]; subst.
    destruct (decide (c :: ad = [x7b])) as [[= -> ->] | _]; [done |].
    destruct (decide (c :: ad = [x7d])) as [[= -> ->] | _]; [done |].
    destruct (decide (c :: ad = ["N"; "U"; "L"; "L"]%byte)) as [? | _];
      [done |].
    destruct (decide (c = x22)) as [-> | _]; [done |].
    rewrite Hcast. reflexivity.
Qed.

Lemma store_append_lookup (h : heap) (a : nat) (c : @cell A)
    (old : list (@cell A)) :
  h !! a = Some old ->
  store_append h a c !! a = Some (old ++ [c])
  /\ length (store_append h a c) = length h
  /\ forall b, b <> a -> store_append h a c !! b = h !! b.
Proof.
  intros Ha. unfold store_append. split; [| split].
  - rewrite list_lookup_alter. destruct (decide (a = a)); [| done].
    by rewrite Ha.
  - apply length_alter.
  - intros b Hb. by apply list_lookup_alter_ne.
Qed.

(** The tokens of an item, read with the list at [a] on top of the
    stack, add one cell to that list, which stands for the item; the
    other lists that were there stay as they are. *)
Definition parsed (v : pyval A) : Prop :=
  Forall castable (scalars v) ->
  forall (h : heap) (a : nat) (s : list nat) (rv : option nat)
         (old : list (@cell A)),
    h !! a = Some old ->
    exists (h' : heap) (rv' : option nat) (c : @cell A),
      cast_loop get_cast_function base_oid (mkParser h (a :: s) rv)
        (item_tokens v)
      = Ok (mkParser h' (a :: s) rv')
      /\ (length h <= length h')%nat
      /\ (forall b, (b < length h)%nat -> b <> a -> h' !! b = h !! b)
      /\ h' !! a = Some (old ++ [c])
      /\ cell_repr (repr h') a c v.

Lemma cast_items (items : list (pyval A)) :
  Forall parsed items ->
  Forall castable (flat_map scalars items) ->
  forall (h : heap) (a : nat) (s : list nat) (rv : option nat)
         (old : list (@cell A)),
    h !! a = Some old ->
    exists (h' : heap) (rv' : option nat) (cells : list (@cell A)),
      cast_loop get_cast_function base_oid (mkParser h (a :: s) rv)
        (flat_map item_tokens items)
      = Ok (mkParser h' (a :: s) rv')
      /\ (length h <= length h')%nat
      /\ (forall b, (b < length h)%nat -> b <> a -> h' !! b = h !! b)
      /\ h' !! a = Some (old ++ cells)
      /\ cells_repr (repr h') a cells items.
Proof.
  intros Hitems. induction Hitems as [| x items Hx _ IH];
    intros Hcast h a s rv old Ha.
  - exists h, rv, []. cbn [flat_map cast_loop]. rewrite app_nil_r.
    by repeat split.
  - cbn [flat_map] in Hcast. apply Forall_app in Hcast as [Hcx Hcast].
    destruct (Hx Hcx h a s rv old Ha)
      as (h1 & rv1 & c & Hrun1 & Hlen1 & Hsame1 & Ha1 & Hc).
    destruct (IH Hcast h1 a s rv1 (old ++ [c]) Ha1)
      as (h2 & rv2 & cells & Hrun2 & Hlen2 & Hsame2 & Ha2 & Hcells).
    exists h2, rv2, (c :: cells).
    cbn [flat_map]. rewrite cast_loop_app, Hrun1. cbn [bind].
    split; [done |]. split; [lia |]. split; [| split].
    + intros b Hb Hne. rewrite Hsame2 by (done || lia). by apply Hsame1.
    + by rewrite Ha2, <- app_assoc.
    + split; [| done].
      apply (cell_repr_frame h1 h2 a c x Hc).
      intros b cells' Hab Hb. rewrite Hsame2; [done | | lia].
      by apply lookup_lt_Some in Hb.
Qed.

(** The tokens of a list, read on any stack whose top is a list of the
    store: the list is built at the next free address, added to the list
    on top of the stack if there is one, and left in [rv]. *)
Lemma cast_list (items : list (pyval A)) :
  Forall parsed items ->
  Forall castable (flat_map scalars items) ->
  forall (h : heap) (s : list nat) (rv : option nat),
    match s with
    | a :: _ => is_Some (h !! a)
    | [] => True
    end ->
    exists h' : heap,
      cast_loop get_cast_function base_oid (mkParser h s rv)
        (item_tokens (PList items))
      = Ok (mkParser h' s (Some (length h)))
      /\ (length h < length h')%nat
      /\ (forall b, (b < length h)%nat -> head s <> Some b ->
                    h' !! b = h !! b)
      /\ (forall a old, head s = Some a -> h !! a = Some old ->
                        h' !! a = Some (old ++ [CRef (length h)]))
      /\ repr h' (PList items) (length h).
Proof.
  intros Hitems Hcast h s rv Hs.
  set (b := length h).
  set (h1 := match s with
             | top :: _ => store_append (h ++ [[]]) top (CRef b)
             | [] => h ++ [[]]
             end).
  assert (Hstep : cast_step get_cast_function base_oid (mkParser h s rv) [x7b]
                  = Ok (mkParser h1 (b :: s)
                          (match rv with None => Some b | Some _ => rv end))).
  { unfold cast_step. by destruct (decide ([x7b] = [x7b])). }
  assert (Hlen1 : length h1 = S (length h)).
  { subst h1. destruct s as [| top s].
    - rewrite length_app. simpl. lia.
    - unfold store_append. rewrite length_alter, length_app. simpl. lia. }
  assert (Hb1 : h1 !! b = Some []).
  { subst h1 b. destruct s as [| top s].
    - by rewrite lookup_app_r, Nat.sub_diag.
    - destruct Hs as [old Hold]. apply lookup_lt_Some in Hold as Hlt.
      unfold store_append. rewrite list_lookup_alter_ne by lia.
      by rewrite lookup_app_r, Nat.sub_diag. }
  assert (Hold1 : forall c, (c < length h)%nat -> head s <> Some c ->
                            h1 !! c = h !! c).
  { intros c Hc Hne. subst h1. destruct s as [| top s].
    - by rewrite lookup_app_l.
    - unfold store_append. rewrite list_lookup_alter_ne.
      + by rewrite lookup_app_l.
      + intros ->. by apply Hne. }
  assert (Htop1 : forall a old, head s = Some a -> h !! a = Some old ->
                                h1 !! a = Some (old ++ [CRef b])).
  { intros a old Hhd Ha. subst h1. destruct s as [| top s]; [done |].
    injection Hhd as ->. apply lookup_lt_Some in Ha as Hlt.
    unfold store_append. rewrite list_lookup_alter.
    destruct (decide (a = a)); [| done].
    by rewrite lookup_app_l, Ha. }
  destruct (cast_items items Hitems Hcast h1 b s
              (match rv with None => Some b | Some _ => rv end) [] Hb1)
    as (h2 & rv2 & cells & Hrun & Hlen2 & Hsame2 & Hb2 & Hcells).
  exists h2.
  cbn [item_tokens]. cbn [cast_loop]. rewrite Hstep. cbn [bind].
  rewrite cast_loop_app, Hrun. cbn [bind cast_loop].
  split; [| split; [lia |]; split; [| split]].
  - unfold cast_step. cbn [stack store ArrayModel.rv].
    destruct (decide ([x7d] = [x7b])) as [? | _]; [done |].
    by destruct (decide ([x7d] = [x7d])).
  - intros c Hc Hne. rewrite Hsame2 by (subst b; lia). by apply Hold1.
  - intros a old Hhd Ha. apply lookup_lt_Some in Ha as Hlt.
    rewrite Hsame2 by (subst b; lia). by apply Htop1.
  - cbn [repr]. exists cells. by split.
Qed.

Lemma cast_render (v : pyval A) : parsed v.
Proof.
  induction v as [| y | items IH] using pyval_nested_ind;
    intros Hcast h a s rv old Ha.
  - exists (store_append h a CNone), rv, CNone.
    destruct (store_append_lookup h a CNone old Ha) as (Hnew & Hlen & Hother).
    cbn [item_tokens cast_loop]. unfold cast_step.
    cbn [stack store ArrayModel.rv].
    destruct (decide (NULL = [x7b])) as [? | _]; [done |].
    destruct (decide (NULL = [x7d])) as [? | _]; [done |].
    destruct (decide (NULL = ["N"; "U"; "L"; "L"]%byte)) as [_ | ?]; [| done].
    cbn [bind]. split; [done |]. split; [lia |]. split; [| done].
    intros b _ Hb. by apply Hother.
  - cbn [scalars] in Hcast. inversion Hcast as [| ? ? Hy _]; subst.
    destruct Hy as (ad & Had & Hload).
    exists (store_append h a (CVal y)), rv, (CVal y).
    destruct (store_append_lookup h a (CVal y) old Ha)
      as (Hnew & Hlen & Hother).
    cbn [item_tokens cast_loop]. unfold scalar_token. rewrite Had.
    rewrite (cast_step_element h a s rv ad y Hload). cbn [bind].
    split; [done |]. split; [lia |]. split; [| done].
    intros b _ Hb. by apply Hother.
  - cbn [scalars] in Hcast.
    destruct (cast_list items IH Hcast h (a :: s) rv) as
      (h' & Hrun & Hlen & Hsame & Htop & Hrep); [by eexists |].
    exists h', (Some (length h)), (CRef (length h)).
    split; [done |]. split; [lia |]. split; [| split].
    + intros b Hb Hne. apply Hsame; [done |]. cbn [head]. congruence.
    + by apply Htop.
    + split; [by apply lookup_lt_Some in Ha | done].
Qed.

(** *** The round trip *)

(** The text codec of a scalar: the dumper gives bytes, with the OID
    [o] or with none, and the loader of the base OID takes them back. *)
Definition text_codec (a : A) : Prop :=
  exists ad,
    (tx_adapt TEXT a = WithOid (Some ad) o \/ tx_adapt TEXT a = Bare (Some ad))
    /\ get_cast_function base_oid TEXT ad = Ok a.

Lemma text_codec_dumps (a : A) : text_codec a -> dumps_to a.
Proof. intros (ad & Had & _). by exists ad. Qed.

Lemma text_codec_castable (a : A) : text_codec a -> castable a.
Proof.
  intros (ad & Had & Hload). exists ad. split; [| done].
  by destruct Had as [-> | ->].
Qed.

(** C5. For a rectangular nested list whose scalars all dump to bytes
    with one OID (or none) under a text codec that loads them back, the
    text writer returns the text of the list, and the text reader
    returns the list from it; nil elements are written as NULL, and an
    element that needs it is quoted and escaped. *)
Theorem array_text_roundtrip (xs : list (pyval A)) :
  rectangular xs ->
  Forall text_codec (scalars (PList xs)) ->
  exists data oid,
    TextListAdapter_adapt TEXT_ARRAY_OID builtins_array_oid tx_adapt xs
    = Ok (data, oid)
    /\ data = render (PList xs)
    /\ ArrayCasterText_cast get_cast_function base_oid data = Ok (PList xs).
Proof.
  intros _ Hcodec.
  assert (Hdumps : Forall dumps_to (scalars (PList xs))).
  { eapply Forall_impl; [exact Hcodec | apply text_codec_dumps]. }
  assert (Hcast : Forall castable (flat_map scalars xs)).
  { eapply Forall_impl; [exact Hcodec | apply text_codec_castable]. }
  destruct (text_adapt_render (PList xs) Hdumps false (mkTextState [] 0))
    as (got' & st' & L & Hw & Ht & Hc & _); [by left |].
  cbn [text_adapt_item] in Hw.
  apply bind_Ok_inv in Hw as (st'' & Hw & [= _ ->]).
  cbn [tokens app] in Ht.
  exists (render (PList xs)), (_array_oid TEXT_ARRAY_OID builtins_array_oid
                                 (t_oid st')).
  split; [| split; [done |]].
  - unfold TextListAdapter_adapt. rewrite Hw. cbn [bind].
    by rewrite Ht, Hc.
  - unfold ArrayCasterText_cast.
    pose proof (finditer_render (PList xs) [] I) as Hscan.
    rewrite app_nil_r in Hscan. cbn [skip_comma] in Hscan.
    rewrite finditer_nil, app_nil_r in Hscan. rewrite Hscan.
    assert (Hparsed : Forall parsed xs).
    { apply Forall_forall. intros x _. apply cast_render. }
    destruct (cast_list xs Hparsed Hcast [] [] None I)
      as (h' & Hrun & Hlen & _ & _ & Hrep).
    rewrite Hrun. cbn [bind ArrayModel.rv store length].
    cbn [length] in Hrep.
    rewrite (read_list_repr (PList xs) h' 0%nat (S (length h')) Hrep) by lia.
    reflexivity.
Qed.

End Roundtrip.

(** The text[][] value of scenario S6, with byte strings for scalars,
    dumped as they are with the OID of text and loaded as they are. *)
Definition text_adapt (fmt : Format) (b : bytes) : adapted :=
  WithOid (Some b) 25.

Definition text_cast (oid : Z) (fmt : Format) (b : bytes) : result bytes :=
  Ok b.

Definition s6_value : list (pyval bytes) :=
  [ PList [PScalar ["a"%byte]; PScalar ["b"%byte]];
    PList [PScalar [x22; "c"%byte; x22]; PNone] ].

Lemma array_text_roundtrip_witness :
  exists data oid,
    TextListAdapter_adapt 1009 (fun _ => None) text_adapt s6_value
    = Ok (data, oid)
    /\ data = render text_adapt (PList s6_value)
    /\ ArrayCasterText_cast text_cast 25 data = Ok (PList s6_value).
Proof.
  apply (array_text_roundtrip 1009 (fun _ => None) text_adapt text_cast 25 25
           s6_value).
  - exists [2%nat; 2%nat]. cbn. repeat constructor.
  - cbn. repeat constructor; eexists; (split; [left; reflexivity | done]).
Defined.

(** The text of the value of S6 as it goes on the wire. *)
Example s6_text :
  TextListAdapter_adapt 1009 (fun _ => None) text_adapt s6_value
  = Ok (["{"; "{"; "a"; ","; "b"; "}"; ","; "{";
         x22; x5c; x22; "c"; x5c; x22; x22; ",";
         "N"; "U"; "L"; "L"; "}"; "}"]%byte, 1009).
Proof. vm_compute. reflexivity. Qed.

End ArrayTextTheory.

(** ** Cursor core: further properties *)

Module CursorExtra.
Import CursorModel StartCopyModel CursorTheory.

Section Guards.

Context {Query Params : Type}.
Variable convert : Query -> option Params -> result PostgresQuery.
Variable dump : PostgresQuery -> Params -> result PostgresQuery.
Variable conn_start_query : Connection -> option exn.
Variable server : list PQcall -> list PGresult.

(** The cursor is closed, or its connection is closed or not in OK
    status. *)
Definition unusable (self : Cursor) : Prop :=
  _closed self = true
  \/ conn_closed (_conn self) = true
  \/ pgconn_status_ok (_conn self) = false.

Lemma start_query_unusable (self : Cursor) :
  unusable self -> _start_query self = Raise InterfaceError.
Proof.
  unfold unusable, _start_query. intros [-> | [H | H]]; [done | |].
  - destruct (_closed self); [done |]. by rewrite H.
  - destruct (_closed self); [done |].
    destruct (conn_closed _); [done |]. by rewrite H.
Qed.

Lemma close_closed (self : Cursor) : _closed (close self) = true.
Proof. reflexivity. Qed.

(** X1. A cursor that is closed, or whose connection is closed or not
    in OK status, and any cursor after [close], refuses [execute],
    [executemany] and the opening of a COPY with InterfaceError. *)
Theorem unusable_cursor_raises (self : Cursor) (query : Query)
    (params : option Params) (params_seq : list Params)
    (chunks : list bytes) :
  unusable self \/ (exists self0, self = close self0) ->
  execute convert conn_start_query server self query params
  = Raise InterfaceError
  /\ executemany convert dump conn_start_query server self query params_seq
     = Raise InterfaceError
  /\ _start_copy convert conn_start_query server self query chunks
     = Raise InterfaceError.
Proof.
  intros H.
  assert (Hun : unusable self).
  { destruct H as [H | (self0 & ->)]; [done |]. left. apply close_closed. }
  apply start_query_unusable in Hun.
  unfold execute, executemany, _start_copy. by rewrite Hun.
Qed.

End Guards.

Lemma unusable_cursor_raises_witness :
  execute convert0 (fun _ => None) (fun _ => two_results) (close cursor0)
    [] None
  = Raise InterfaceError.
Proof.
  apply (unusable_cursor_raises convert0 dump0 (fun _ => None)
           (fun _ => two_results) (close cursor0) [] None [] []).
  right. by exists cursor0.
Defined.

(** *** What [execute] sends and where it leaves the cursor *)

Section Execute.

Context {Query Params Row : Type}.
Variable convert : Query -> option Params -> result PostgresQuery.
Variable conn_start_query : Connection -> option exn.
Variable server : list PQcall -> list PGresult.
Variable load_row : PGresult -> Z -> option Row.

(** The call that [_execute_send] chooses. *)
Definition chosen_call (fmt : Format) (no_pqexec : bool)
    (pgq : PostgresQuery) : PQcall :=
  if params_truthy (pgq_params pgq) || no_pqexec || bool_decide (fmt = BINARY)
  then send_query_params (pgq_query pgq) (pgq_params pgq) (pgq_formats pgq)
         (pgq_types pgq) fmt
  else send_query (pgq_query pgq).

Lemma start_query_inv (self s1 : Cursor) :
  _start_query self = Ok s1 ->
  s1 = set_transformer (_reset self) (Some (mkTransformer None)).
Proof.
  unfold _start_query. intros H.
  destruct (_closed self); [done |]. destruct (conn_closed _); [done |].
  destruct (negb _); [done |]. by injection H.
Qed.

Lemma conn_start_query_inv (s1 s2 : Cursor) :
  conn__start_query conn_start_query s1 = Ok s2 -> s2 = s1.
Proof.
  unfold conn__start_query. destruct (conn_start_query _); [done |].
  by intros [= <-].
Qed.

Lemma execute_send_inv (self : Cursor) (query : Query)
    (params : option Params) (no_pqexec : bool) (s3 : Cursor) :
  _execute_send convert self query params no_pqexec = Ok s3 ->
  exists pgq,
    convert query params = Ok pgq
    /\ sent (_conn s3)
       = sent (_conn self) ++ [chosen_call (format self) no_pqexec pgq]
    /\ _query s3 = Some (pgq_query pgq)
    /\ _params s3
       = (if params_truthy (pgq_params pgq) || no_pqexec
             || bool_decide (format self = BINARY)
          then pgq_params pgq else None)
    /\ _transformer s3 = _transformer self
    /\ _pos s3 = _pos self
    /\ _rowcount s3 = _rowcount self
    /\ format s3 = format self.
Proof.
  unfold _execute_send, chosen_call. intros H.
  apply bind_Ok_inv in H as (pgq & Hc & H). exists pgq. split; [done |].
  destruct (_ || _); injection H as <-; by repeat split.
Qed.

Lemma execute_results_state (self : Cursor) (results : list PGresult)
    (self' : Cursor) :
  _execute_results self results = Ok self' ->
  exists r0,
    head results = Some r0
    /\ _results self' = results
    /\ _pgresult self' = Some r0
    /\ _pos self' = _pos self
    /\ _query self' = _query self
    /\ _params self' = _params self
    /\ sent (_conn self') = sent (_conn self)
    /\ (is_Some (_transformer self) ->
        _transformer self' = Some (mkTransformer (Some r0))).
Proof.
  destruct results as [| r0 rest]; [done |]. unfold _execute_results.
  intros H. exists r0.
  destruct (decide _).
  - apply bind_Ok_inv in H as (s1 & Hset & H).
    apply set_pgresult_inv in Hset as (_ & ->).
    destruct (command_tuples r0); [destruct (decide _) |];
      injection H as <-; by repeat split.
  - destruct (decide _); [done |]. by destruct (decide _).
Qed.

(** X2. A successful [execute] sends exactly one call: the
    parameterized send when the converted query has parameters or the
    cursor asks for binary results, the plain send, which may run
    several statements, otherwise. It records the converted query and
    the parameters that were sent, and leaves the cursor, and its
    transformer, on the first result, at position zero. *)
Theorem execute_sends_once (self : Cursor) (query : Query)
    (params : option Params) (self' : Cursor) :
  execute convert conn_start_query server self query params = Ok self' ->
  exists pgq r0,
    convert query params = Ok pgq
    /\ sent (_conn self')
       = sent (_conn self) ++ [chosen_call (format self) false pgq]
    /\ _query self' = Some (pgq_query pgq)
    /\ _params self'
       = (if params_truthy (pgq_params pgq)
             || bool_decide (format self = BINARY)
          then pgq_params pgq else None)
    /\ head (server (sent (_conn self'))) = Some r0
    /\ _results self' = server (sent (_conn self'))
    /\ _pgresult self' = Some r0
    /\ _transformer self' = Some (mkTransformer (Some r0))
    /\ _pos self' = 0.
Proof.
  unfold execute. intros H.
  apply bind_Ok_inv in H as (s1 & H1 & H).
  apply bind_Ok_inv in H as (s2 & H2 & H).
  apply bind_Ok_inv in H as (s3 & H3 & H).
  apply start_query_inv in H1. apply conn_start_query_inv in H2. subst s2.
  apply execute_send_inv in H3
    as (pgq & Hc & Hsent & Hq & Hp & Htx & Hpos & _ & _).
  apply execute_results_state in H
    as (r0 & Hhd & Hres & Hpg & Hpos' & Hq' & Hp' & Hsent' & Htx').
  assert (Hs1 : _conn s1 = _conn self /\ format s1 = format self
                /\ _pos s1 = 0
                /\ _transformer s1 = Some (mkTransformer None)).
  { subst s1. by destruct self. }
  destruct Hs1 as (Hconn' & Hfmt & Hpos1 & Htx1).
  assert (Hconn : sent (_conn s1) = sent (_conn self)) by (by rewrite Hconn').
  clear H1.
  unfold wait_execute in *.
  exists pgq, r0. rewrite Hsent', Hsent, Hconn, Hfmt in *.
  rewrite orb_false_r in Hp.
  split; [done |]. split; [done |]. split; [congruence |].
  split; [congruence |]. split; [done |]. split; [done |].
  split; [done |]. split; [| congruence].
  apply Htx'. rewrite Htx, Htx1. by eexists.
Qed.

(** X3. Without a TuplesOk result to read from, [fetchone],
    [fetchmany], [fetchall] and iteration raise ProgrammingError; that
    is the case of a cursor that was never executed or was closed, and
    of a cursor whose current result is a command. *)
Theorem fetch_requires_tuples (self : Cursor) (size : Z) (fuel : nat) :
  (forall r, _pgresult self = Some r -> status r <> TUPLES_OK) ->
  fetchone load_row self = Raise ProgrammingError
  /\ fetchmany load_row self size = Raise ProgrammingError
  /\ iter_start self = Raise ProgrammingError
  /\ fetchall load_row fuel self = Some (Raise ProgrammingError)
  /\ (forall conn fmt r, _pgresult (Cursor_init conn fmt) = Some r ->
                          status r <> TUPLES_OK)
  /\ (forall self0 r, _pgresult (close self0) = Some r ->
                      status r <> TUPLES_OK).
Proof.
  intros Hno.
  assert (Hcheck : _check_result self = Raise ProgrammingError).
  { unfold _check_result. destruct (_pgresult self) as [r |]; [| done].
    destruct (decide _) as [_ | Hok]; [done |].
    exfalso. apply (Hno r eq_refl). by destruct (decide (status r = TUPLES_OK)). }
  unfold fetchone, fetchmany, fetchall, iter_start. rewrite Hcheck.
  split; [done |]. split; [done |]. split; [done |]. split; [done |].
  split; [done |].
  by intros self0 r.
Qed.

End Execute.

Lemma execute_sends_once_witness :
  exists self',
    execute convert0 (fun _ => None) (fun _ => two_results) cursor0
      ["q"%byte] None = Ok self'
    /\ sent (_conn self') = [send_query ["q"%byte]]
    /\ _pos self' = 0.
Proof.
  assert (Hex : exists self',
            execute convert0 (fun _ => None) (fun _ => two_results) cursor0
              ["q"%byte] None = Ok self')
    by (eexists; vm_compute; reflexivity).
  destruct Hex as (self' & Hex). exists self'. split; [exact Hex |].
  destruct (execute_sends_once convert0 (fun _ => None)
              (fun _ => two_results) cursor0 ["q"%byte] None self' Hex)
    as (pgq & r0 & Hc & Hsent & _ & _ & _ & _ & _ & _ & Hpos).
  injection Hc as <-. split; [exact Hsent | exact Hpos].
Defined.

Lemma fetch_requires_tuples_witness :
  fetchone (fun (_ : PGresult) (_ : Z) => @None bytes) (close cursor0)
  = Raise ProgrammingError.
Proof.
  apply (fetch_requires_tuples (fun _ _ => None) (close cursor0) 0 0).
  intros r Hr. vm_compute in Hr. discriminate.
Defined.


(** *** Walking the result sets *)

(** [k] calls of [nextset] in a row: what they return, in order, and the
    cursor after the last. *)
Fixpoint nextset_times (k : nat) (self : Cursor)
  : result (list (option bool) * Cursor) :=
  match k with
  | O => Ok ([], self)
  | S k' =>
      r <- nextset_times k' self ;;
      let '(rets, self) := r in
      r <- nextset self ;;
      let '(ret, self) := r in
      Ok (rets ++ [ret], self)
  end.

(** The transformer is there and holds the current result of the
    cursor, as after [execute]. *)
Definition in_step (self : Cursor) : Prop :=
  _transformer self = Some (mkTransformer (_pgresult self)).

Lemma nextset_step (self : Cursor) (i : nat) :
  _iresult self = Z.of_nat i ->
  is_Some (_transformer self) ->
  exists ret self',
    nextset self = Ok (ret, self')
    /\ _iresult self' = Z.of_nat (S i)
    /\ _results self' = _results self
    /\ ret = (if decide (S i < length (_results self))%nat then Some true
              else None)
    /\ (forall r, _results self !! S i = Some r ->
          _pgresult self' = Some r /\ _pos self' = 0
          /\ in_step self'
          /\ _rowcount self'
             = match command_tuples r with Some c => c | None => -1 end)
    /\ ((length (_results self) <= S i)%nat ->
        _pgresult self' = _pgresult self
        /\ _pos self' = _pos self
        /\ _transformer self' = _transformer self
        /\ _rowcount self' = _rowcount self).
Proof.
  destruct self as [conn fmt asz cl res pg pos ires rc q ps tx].
  cbn [_iresult _results _pgresult _pos _rowcount _transformer].
  intros -> Htx. unfold nextset, set_iresult.
  cbn [_iresult _results _conn format arraysize _closed _pgresult _pos
       _rowcount _query _params _transformer].
  replace (Z.of_nat i + 1) with (Z.of_nat (S i)) by lia.
  rewrite Nat2Z.id.
  destruct (decide (Z.of_nat (S i) < Z.of_nat (length res))) as [Hlt | Hge].
  - destruct (res !! S i) as [r |] eqn:Hr.
    + rewrite set_pgresult_started by done. cbn [bind].
      eexists _, _. split; [reflexivity |]. cbn.
      split; [done |]. split; [done |].
      split; [destruct (decide _); [done | lia] |].
      split; [by intros ? [= <-] | intros ?; lia].
    + apply lookup_ge_None in Hr. lia.
  - eexists _, _. split; [reflexivity |]. cbn.
    split; [done |]. split; [done |].
    split; [destruct (decide _); [lia | done] |].
    split; [| done].
    intros r Hr. apply lookup_lt_Some in Hr. lia.
Qed.

(** On a cursor that holds results but never went through
    [_start_query], the first [nextset] that has a result to move to
    raises the AttributeError of the setter. *)
Lemma nextset_unstarted (self : Cursor) (i : nat) :
  _iresult self = Z.of_nat i ->
  (S i < length (_results self))%nat ->
  _transformer self = None ->
  nextset self = Raise AttributeError.
Proof.
  destruct self as [conn fmt asz cl res pg pos ires rc q ps tx].
  cbn [_iresult _results _transformer]. intros -> Hlt ->.
  unfold nextset, set_iresult.
  cbn [_iresult _results _conn format arraysize _closed _pgresult _pos
       _rowcount _query _params _transformer].
  replace (Z.of_nat i + 1) with (Z.of_nat (S i)) by lia.
  rewrite Nat2Z.id.
  destruct (decide _) as [_ | ?]; [| lia].
  destruct (res !! S i) as [r |] eqn:Hr; [done |].
  apply lookup_ge_None in Hr. lia.
Qed.

(** X4. After an operation that left the cursor, with its transformer,
    on the first of [n] results, no call of [nextset] raises: the first
    [n - 1] calls return True and every later call returns None. After
    [k] calls the cursor is on result [k], or on the last result if
    there are not as many, and so is its transformer; a call that
    returns True resets the position to zero and sets the row count of
    the result it moves to. *)
Theorem nextset_walk (self : Cursor) (k : nat) :
  _iresult self = 0 ->
  _pgresult self = head (_results self) ->
  _results self <> [] ->
  in_step self ->
  let n := length (_results self) in
  exists rets self',
    nextset_times k self = Ok (rets, self')
    /\ rets = map (fun i => if decide (S i < n)%nat then Some true else None)
                (seq 0 k)
    /\ _results self' = _results self
    /\ _pgresult self' = _results self !! Nat.min k (n - 1)
    /\ in_step self'
    /\ ((0 < k < n)%nat ->
        _pos self' = 0
        /\ exists r, _results self !! k = Some r
             /\ _rowcount self'
                = match command_tuples r with Some c => c | None => -1 end).
Proof.
  intros Hi Hpg Hne Hin n.
  assert (Hn : (0 < n)%nat).
  { subst n. destruct (_results self); [done | simpl; lia]. }
  enough (H : exists rets self',
    nextset_times k self = Ok (rets, self')
    /\ _iresult self' = Z.of_nat k
    /\ rets = map (fun i => if decide (S i < n)%nat then Some true else None)
                (seq 0 k)
    /\ _results self' = _results self
    /\ _pgresult self' = _results self !! Nat.min k (n - 1)
    /\ in_step self'
    /\ ((0 < k < n)%nat ->
        _pos self' = 0
        /\ exists r, _results self !! k = Some r
             /\ _rowcount self'
                = match command_tuples r with Some c => c | None => -1 end)).
  { destruct H as (rets & self' & Hk & _ & H). by exists rets, self'. }
  induction k as [| k IH].
  - exists [], self. cbn [nextset_times seq map].
    split; [done |]. split; [by rewrite Hi |]. split; [done |].
    split; [done |]. split; [| split; [done | lia]].
    rewrite Hpg. by destruct (_results self).
  - destruct IH as (rets & s1 & Hk & Hi1 & Hrets & Hres1 & Hpg1 & Hin1 & _).
    destruct (nextset_step s1 k Hi1) as (ret & s2 & Hnext & Hstep).
    { unfold in_step in Hin1. rewrite Hin1. by eexists. }
    destruct Hstep as (Hi2 & Hres2 & Hret & Hmove & Hstay).
    rewrite Hres1 in *. fold n in Hret, Hstay.
    exists (rets ++ [ret]), s2. cbn [nextset_times].
    rewrite Hk. cbn [bind]. rewrite Hnext. cbn [bind].
    split; [done |]. split; [done |].
    split; [by rewrite seq_S, map_app, Hrets, Hret |].
    split; [congruence |]. split; [| split].
    + destruct (decide (S k < n)%nat) as [Hlt | Hge].
      * destruct (_results self !! S k) as [r |] eqn:Hr.
        -- destruct (Hmove r eq_refl) as (-> & _).
           by replace (Nat.min (S k) (n - 1)) with (S k) by lia.
        -- apply lookup_ge_None in Hr. subst n. lia.
      * destruct Hstay as (-> & _); [lia |]. rewrite Hpg1.
        f_equal. lia.
    + destruct (decide (S k < n)%nat) as [Hlt | Hge].
      * destruct (_results self !! S k) as [r |] eqn:Hr.
        -- by destruct (Hmove r eq_refl) as (_ & _ & Hin2 & _).
        -- apply lookup_ge_None in Hr. subst n. lia.
      * destruct Hstay as (Hpg2 & _ & Htx2 & _); [lia |].
        unfold in_step in *. by rewrite Htx2, Hpg2.
    + intros [_ Hlt].
      destruct (_results self !! S k) as [r |] eqn:Hr.
      * destruct (Hmove r eq_refl) as (_ & Hpos & _ & Hrc). eauto.
      * apply lookup_ge_None in Hr. subst n. lia.
Qed.

(** The cursor that [execute] leaves on the first of two results. *)
Definition cursor_on_two : Cursor :=
  mkCursor (mkConnection false true [send_query []]) TEXT 1 false two_results
    (head two_results) 0 0 1 (Some []) None
    (Some (mkTransformer (head two_results))).

Lemma nextset_walk_witness :
  execute convert0 (fun _ => None) (fun _ => two_results) cursor0 [] None
  = Ok cursor_on_two
  /\ exists self',
       nextset_times 3 cursor_on_two = Ok ([Some true; None; None], self')
       /\ _pgresult self' = two_results !! 1%nat
       /\ _transformer self' = Some (mkTransformer (two_results !! 1%nat)).
Proof.
  split; [reflexivity |].
  destruct (nextset_walk cursor_on_two 3 eq_refl eq_refl
              ltac:(discriminate) eq_refl)
    as (rets & self' & Hk & -> & _ & Hpg & Hin & _).
  exists self'. split; [exact Hk |]. split; [exact Hpg |].
  unfold in_step in Hin. by rewrite Hin, Hpg.
Defined.


(** *** How many rows [fetchmany] returns *)

Section FetchMany.

Context {Row : Type}.
Variable load_row : PGresult -> Z -> option Row.
Variable r : PGresult.
Variable rows : list Row.

(** X5. On a TuplesOk result, [fetchmany(size)] returns the next rows,
    as many as asked for or as are left, whichever is less; a size of
    zero stands for [arraysize], a negative size gives no row. The rows
    of [fetchmany] followed by the rows of [fetchall] are all the rows
    from the position on. *)
Theorem fetchmany_then_fetchall (self : Cursor) (size : Z) (fuel : nat) :
  on_tuples load_row r rows self ->
  0 <= _pos self <= Z.of_nat (length rows) ->
  (length rows < fuel)%nat ->
  let asked := Z.to_nat (if decide (size = 0) then arraysize self else size) in
  exists rows1 rows2 self1 self2,
    fetchmany load_row self size = Ok (rows1, self1)
    /\ rows1 = take asked (drop (Z.to_nat (_pos self)) rows)
    /\ length rows1
       = Nat.min asked (length rows - Z.to_nat (_pos self))
    /\ _pos self1 = _pos self + Z.of_nat (length rows1)
    /\ fetchall load_row fuel self1 = Some (Ok (rows2, self2))
    /\ rows1 ++ rows2 = drop (Z.to_nat (_pos self)) rows
    /\ _pos self2 = Z.of_nat (length rows).
Proof.
  intros Hon Hpos Hfuel asked.
  destruct (fetchmany_loop_bound load_row r rows self asked (_pos self) []
              Hon Hpos) as (pos' & rv & Hloop & Hb & Hmin & Hrv).
  cbn [app] in Hrv.
  set (rest := drop (Z.to_nat (_pos self)) rows) in *.
  assert (Hrest : length rest = (length rows - Z.to_nat (_pos self))%nat).
  { subst rest. by rewrite length_drop. }
  assert (Htake : Z.to_nat (pos' - _pos self)
                  = Nat.min asked (length rest)).
  { rewrite Hrest. lia. }
  assert (Hrv' : rv = take asked rest).
  { rewrite Hrv, Htake.
    destruct (Nat.min_spec asked (length rest)) as [[_ ->] | [Hle ->]];
      [done |].
    by rewrite !take_ge by lia. }
  assert (Hlen : length rv = Nat.min asked (length rest)).
  { rewrite Hrv'. by rewrite length_take. }
  assert (Hon1 : on_tuples load_row r rows (set_pos self pos'))
    by (by apply on_tuples_set_pos).
  destruct (iter_collect_all load_row r rows (set_pos self pos') [] fuel Hon1)
    as (self2 & Hall & _ & Hp2).
  { cbn [_pos set_pos]. lia. }
  { cbn [_pos set_pos]. lia. }
  exists rv, (drop (Z.to_nat pos') rows), (set_pos self pos'), self2.
  split.
  { unfold fetchmany. rewrite (check_result_on_tuples load_row r rows _ Hon).
    cbn [bind]. fold asked. by rewrite Hloop. }
  split; [done |]. split; [by rewrite Hlen, Hrest |].
  split; [cbn [_pos set_pos]; lia |].
  split.
  { unfold fetchall, iter_start.
    rewrite (check_result_on_tuples load_row r rows _ Hon1).
    exact Hall. }
  split; [| done].
  rewrite Hrv. subst rest.
  replace (Z.to_nat pos')
    with (Z.to_nat (_pos self) + Z.to_nat (pos' - _pos self))%nat by lia.
  rewrite <- drop_drop. apply take_drop.
Qed.

End FetchMany.

Lemma fetchmany_then_fetchall_witness :
  exists self1 self2,
    fetchmany load_row0 cursor_on_tuples 1 = Ok ([["a"%byte]], self1)
    /\ fetchall load_row0 3 self1 = Some (Ok ([["b"%byte]], self2)).
Proof.
  assert (Hon : on_tuples load_row0 tuples_result two_rows cursor_on_tuples).
  { constructor; try reflexivity.
    intros i Hi. unfold load_row0. by destruct (decide _). }
  destruct (fetchmany_then_fetchall load_row0 tuples_result two_rows
              cursor_on_tuples 1 3 Hon)
    as (rows1 & rows2 & self1 & self2 & Hm & -> & _ & _ & Ha & Happ & _).
  { simpl. lia. }
  { simpl. lia. }
  exists self1, self2. split; [exact Hm |].
  cbn in Happ. injection Happ as <-. exact Ha.
Defined.


(** *** The row count of [executemany] *)

Section ExecutemanyRowcount.

Context {Query Params : Type}.
Variable convert : Query -> option Params -> result PostgresQuery.
Variable dump : PostgresQuery -> Params -> result PostgresQuery.
Variable conn_start_query : Connection -> option exn.
Variable server : list PQcall -> list PGresult.

(** The results of the executions among [calls], which are sent after
    [log]: what the server gives when a [send_query_prepared] has just
    been sent. *)
Fixpoint executed (log calls : list PQcall) : list PGresult :=
  match calls with
  | [] => []
  | call :: calls' =>
      (if is_send_query_prepared call then server (log ++ [call]) else [])
      ++ executed (log ++ [call]) calls'
  end.

Lemma executed_app (log calls1 calls2 : list PQcall) :
  executed log (calls1 ++ calls2)
  = executed log calls1 ++ executed (log ++ calls1) calls2.
Proof.
  revert log. induction calls1 as [| call calls1 IH]; intros log.
  - by rewrite app_nil_r.
  - cbn [app executed]. rewrite IH, <- !app_assoc. reflexivity.
Qed.

(** What one more result does to the row count. *)
Definition add_rowcount (rc : Z) (r : PGresult) : Z :=
  match command_tuples r with
  | Some n => if decide (rc < 0) then n else rc + n
  | None => rc
  end.

Lemma execute_results_one (self : Cursor) (res : PGresult) (self' : Cursor) :
  _execute_results self [res] = Ok self' ->
  is_ok res
  /\ _rowcount self' = add_rowcount (_rowcount self) res
  /\ sent (_conn self') = sent (_conn self).
Proof.
  intros H. pose proof (execute_results_sent _ _ _ H) as Hsent.
  unfold _execute_results in H. destruct (decide _) as [Hok | Hbad].
  - apply badstats_empty in Hok. inversion Hok as [| ? ? Hres _]; subst.
    split; [done |]. split; [| done]. unfold add_rowcount.
    apply bind_Ok_inv in H as (s1 & Hset & H).
    apply set_pgresult_inv in Hset as (_ & ->).
    destruct (command_tuples res) as [n |].
    + cbn [with_pgresult set_transformer store_pgresult set_results
             _rowcount] in H.
      destruct (decide _); injection H as H; subst self'; by destruct self.
    + by injection H as <-.
  - destruct (decide _); [done |]. by destruct (decide _).
Qed.

Lemma prepared_state (self : Cursor) (q : option bytes)
    (pgq : PostgresQuery) :
  let self' :=
    _send_query_prepared
      (pgconn_send (set_query self q)
         (send_prepare [] (pgq_query pgq) (pgq_types pgq))) [] pgq in
  sent (_conn self')
  = (sent (_conn self)
     ++ [send_prepare [] (pgq_query pgq) (pgq_types pgq)])
    ++ [send_query_prepared [] (pgq_params pgq) (pgq_formats pgq)
          (format self)]
  /\ _rowcount self' = _rowcount self.
Proof. by destruct self. Qed.

Lemma executemany_loop_rowcount (query : Query) (pgq : option PostgresQuery)
    (self : Cursor) (params_seq : list Params) (self' : Cursor) :
  executemany_loop convert dump server query true pgq self params_seq
  = Ok self' ->
  exists calls,
    sent (_conn self') = sent (_conn self) ++ calls
    /\ length (executed (sent (_conn self)) calls) = length params_seq
    /\ Forall is_ok (executed (sent (_conn self)) calls)
    /\ _rowcount self'
       = fold_left add_rowcount (executed (sent (_conn self)) calls)
           (_rowcount self).
Proof.
  revert pgq self. induction params_seq as [| params rest IH];
    intros pgq self H.
  - injection H as <-. exists []. by rewrite app_nil_r.
  - cbn [executemany_loop] in H.
    apply bind_Ok_inv in H as ([[first pgq1] s1] & Hbody & H).
    unfold executemany_body in Hbody.
    apply bind_Ok_inv in Hbody as ([pgq2 s2] & Hprep & Hbody).
    apply bind_Ok_inv in Hprep as ([pgq3 s3] & Hsend & Hprep).
    apply bind_Ok_inv in Hprep as (res & _ & Hprep).
    destruct (decide _); [done |]. injection Hprep as -> ->.
    apply bind_Ok_inv in Hbody as (res2 & Hres2 & Hbody).
    apply bind_Ok_inv in Hbody as (s4 & Hres & Hbody).
    injection Hbody as <- <- <-.
    apply IH in H as (calls & Hsent & Hlen & Hok & Hrc).
    apply execute_results_one in Hres as (Hok2 & Hrc2 & Hsent2).
    unfold _send_prepare in Hsend.
    apply bind_Ok_inv in Hsend as (pgq4 & _ & Hsend).
    injection Hsend as <- <-.
    unfold unpack1, wait_execute in Hres2.
    destruct (prepared_state self (Some (pgq_query pgq4)) pgq4)
      as (Hs & Hr).
    rewrite Hr in Hrc2. rewrite Hs in Hsent2, Hres2. clear Hs Hr.
    set (sp := send_prepare [] (pgq_query pgq4) (pgq_types pgq4)) in *.
    set (sqp := send_query_prepared [] (pgq_params pgq4) (pgq_formats pgq4)
                  (format self)) in *.
    assert (Hlog : sent (_conn s4) = sent (_conn self) ++ [sp; sqp])
      by (by rewrite Hsent2, <- app_assoc).
    assert (Hserver : server ((sent (_conn self) ++ [sp]) ++ [sqp]) = [res2]).
    { destruct (server _) as [| x [| y l]]; [done | | done].
      by injection Hres2 as ->. }
    exists ([sp; sqp] ++ calls).
    rewrite executed_app. rewrite <- Hlog.
    cbn [executed is_send_query_prepared app]. subst sp sqp.
    cbn [is_send_query_prepared]. rewrite Hserver. cbn [app].
    split; [by rewrite Hsent, Hlog, <- app_assoc |].
    split; [cbn [length]; by rewrite Hlen |].
    split; [by constructor |].
    cbn [fold_left]. by rewrite <- Hrc2.
Qed.

Lemma fold_add_rowcount_sum (rs : list PGresult) (rc : Z) :
  rc = -1 \/ 0 <= rc ->
  (forall r n, r ∈ rs -> command_tuples r = Some n -> 0 <= n) ->
  fold_left add_rowcount rs rc
  = match omap command_tuples rs with
    | [] => rc
    | counts => (if decide (rc < 0) then 0 else rc)
                + fold_right Z.add 0 counts
    end
  /\ (rc = -1 \/ 0 <= fold_left add_rowcount rs rc).
Proof.
  revert rc. induction rs as [| r rs IH]; intros rc Hrc Hpos.
  - cbn. split; [done |]. destruct Hrc; [by left | by right].
  - cbn [fold_left omap list_omap]. unfold add_rowcount at 2 4.
    assert (Hrs : forall r' n, r' ∈ rs -> command_tuples r' = Some n -> 0 <= n).
    { intros r' n Hin. apply Hpos. by right. }
    destruct (command_tuples r) as [n |] eqn:Hn.
    + assert (0 <= n) by (apply (Hpos r n); [by left | done]).
      destruct (IH (if decide (rc < 0) then n else rc + n)) as [Hsum Hnon];
        [destruct (decide _); right; lia | done |].
      split.
      * rewrite Hsum.
        destruct (omap command_tuples rs) as [| c cs];
          cbn [fold_right]; repeat destruct (decide _); lia.
      * right. destruct Hnon as [Hm | Hnon]; [| done].
        exfalso. revert Hm. destruct (decide _); lia.
    + exact (IH rc Hrc Hrs).
Qed.

(** X6. After a successful [executemany] every parameter set was
    executed once, each execution gave one result with a status among
    TuplesOk, CommandOk and EmptyQuery, and, the row counts of these
    results not being negative, the row count of the cursor is their
    sum over the results that define one, or -1 when none does (for an
    empty sequence in particular). *)
Theorem executemany_rowcount_sum (self : Cursor) (query : Query)
    (params_seq : list Params) (self' : Cursor) :
  executemany convert dump conn_start_query server self query params_seq
  = Ok self' ->
  exists calls,
    sent (_conn self') = sent (_conn self) ++ calls
    /\ length (executed (sent (_conn self)) calls) = length params_seq
    /\ Forall is_ok (executed (sent (_conn self)) calls)
    /\ ((forall r n, r ∈ executed (sent (_conn self)) calls ->
                     command_tuples r = Some n -> 0 <= n) ->
        _rowcount self'
        = summed_rowcount (executed (sent (_conn self)) calls)).
Proof.
  unfold executemany. intros H.
  apply bind_Ok_inv in H as (s1 & H1 & H).
  apply bind_Ok_inv in H as (s2 & H2 & H).
  pose proof (start_query_rowcount _ _ H1) as Hrc1.
  apply start_query_inv in H1.
  assert (s2 = s1) as ->.
  { unfold conn__start_query in H2.
    destruct (conn_start_query _); [done |]. by injection H2. }
  assert (Hconn : sent (_conn s1) = sent (_conn self)).
  { subst s1. by destruct self. }
  apply executemany_loop_rowcount in H as (calls & Hsent & Hlen & Hok & Hrc).
  rewrite Hconn in *. exists calls.
  split; [done |]. split; [done |]. split; [done |].
  intros Hpos. rewrite Hrc, Hrc1.
  destruct (fold_add_rowcount_sum (executed (sent (_conn self)) calls) (-1))
    as [Hsum _]; [by left | done |].
  rewrite Hsum. unfold summed_rowcount.
  destruct (omap command_tuples _); [done |].
  destruct (decide (-1 < 0)); [done | lia].
Qed.

End ExecutemanyRowcount.

Lemma executemany_rowcount_sum_witness :
  exists self',
    executemany convert0 dump0 (fun _ => None) (fun _ => [command_ok])
      cursor0 ["q"%byte] two_params = Ok self'
    /\ _rowcount self' = 2.
Proof.
  assert (Hex : exists self',
            executemany convert0 dump0 (fun _ => None)
              (fun _ => [command_ok]) cursor0 ["q"%byte] two_params
            = Ok self')
    by (eexists; vm_compute; reflexivity).
  destruct Hex as (self' & Hex). exists self'. split; [exact Hex |].
  destruct (executemany_rowcount_sum convert0 dump0 (fun _ => None)
              (fun _ => [command_ok]) cursor0 ["q"%byte] two_params self'
              Hex) as (calls & Hsent & Hlen & Hok & Hsum).
  assert (Hcalls : executed (fun _ => [command_ok]) (sent (_conn cursor0)) calls
                   = [command_ok; command_ok]).
  { clear Hsum Hok Hsent. generalize dependent (sent (_conn cursor0)).
    intros log Hlen. cbn [two_params length] in Hlen.
    assert (Hall : forall log calls,
              Forall (fun r => r = command_ok)
                (executed (fun _ => [command_ok]) log calls)).
    { intros log' calls'. revert log'.
      induction calls' as [| call calls' IH]; intros log'; [constructor |].
      cbn [executed]. apply Forall_app. split; [| apply IH].
      destruct (is_send_query_prepared call); by repeat constructor. }
    specialize (Hall log calls).
    destruct (executed _ log calls) as [| r1 [| r2 [| r3 l]]];
      try discriminate.
    inversion Hall as [| ? ? -> Hall']. inversion Hall' as [| ? ? -> _].
    reflexivity. }
  rewrite Hcalls in Hsum. apply Hsum.
  intros r n Hin Hn. rewrite !elem_of_cons in Hin.
  destruct Hin as [-> | [-> | Hin]]; [by injection Hn as <- ..|].
  by apply elem_of_nil in Hin.
Defined.

(** *** Opening a COPY *)

Section StartCopy.

Context {Query Params : Type}.
Variable convert : Query -> option Params -> result PostgresQuery.
Variable conn_start_query : Connection -> option exn.
Variable server : list PQcall -> list PGresult.

(** The call by which a COPY statement is sent. *)
Definition copy_call (fmt : Format) (pgq : PostgresQuery) : PQcall :=
  send_query_params (pgq_query pgq) (pgq_params pgq) (pgq_formats pgq)
    (pgq_types pgq) fmt.

(** The cursor once the statement is sent. *)
Definition copy_sent (self : Cursor) (pgq : PostgresQuery) : Cursor :=
  pgconn_send
    (set_params
       (set_query
          (set_transformer (_reset self) (Some (mkTransformer None)))
          (Some (pgq_query pgq)))
       (pgq_params pgq))
    (copy_call (format self) pgq).

Lemma start_copy_sent (self : Cursor) (statement : Query) (s1 s2 s3 : Cursor) :
  _start_query self = Ok s1 ->
  conn__start_query conn_start_query s1 = Ok s2 ->
  _execute_send convert s2 statement None true = Ok s3 ->
  exists pgq,
    convert statement None = Ok pgq /\ s3 = copy_sent self pgq.
Proof.
  intros H1 H2 H3. apply start_query_inv in H1.
  apply conn_start_query_inv in H2. subst s2.
  unfold _execute_send in H3.
  apply bind_Ok_inv in H3 as (pgq & Hc & H3). exists pgq.
  split; [done |]. rewrite orb_true_r in H3. cbn [orb] in H3.
  injection H3 as <-. subst s1. unfold copy_sent, copy_call.
  by destruct self.
Qed.

Lemma copy_sent_state (self : Cursor) (pgq : PostgresQuery) :
  sent (_conn (copy_sent self pgq))
  = sent (_conn self) ++ [copy_call (format self) pgq]
  /\ _transformer (copy_sent self pgq) = Some (mkTransformer None)
  /\ _results (copy_sent self pgq) = []
  /\ _rowcount (copy_sent self pgq) = -1.
Proof. by destruct self as [? ? ? ? ? ? ? ? ? ? ? []]. Qed.

Lemma set_pgresult_copy_sent (self : Cursor) (pgq : PostgresQuery)
    (r : PGresult) :
  let s := with_pgresult (copy_sent self pgq) r in
  sent (_conn s) = sent (_conn self) ++ [copy_call (format self) pgq]
  /\ _pgresult s = Some r
  /\ _transformer s = Some (mkTransformer (Some r))
  /\ _results s = []
  /\ _rowcount s = -1.
Proof. by destruct self as [? ? ? ? ? ? ? ? ? ? ? []]. Qed.

(** X7. When the opening of a COPY succeeds, the statement was sent
    by one [send_query_params] call and nothing else was sent, the
    server gave exactly one result, of status COPY_IN or COPY_OUT, this
    result is the current one of the cursor and of its transformer, the
    row count is -1, and the session starts on that result, in the
    format the result tells, unfinished, before its first row and with
    nothing written. *)
Theorem start_copy_session (self : Cursor) (statement : Query)
    (chunks : list bytes) (self' : Cursor) (copy : CopyModel.Copy) :
  _start_copy convert conn_start_query server self statement chunks
  = Ok (self', copy) ->
  exists pgq r,
    convert statement None = Ok pgq
    /\ sent (_conn self')
       = sent (_conn self) ++ [copy_call (format self) pgq]
    /\ server (sent (_conn self')) = [r]
    /\ (status r = COPY_IN \/ status r = COPY_OUT)
    /\ _pgresult self' = Some r
    /\ _transformer self' = Some (mkTransformer (Some r))
    /\ _results self' = []
    /\ _rowcount self' = -1
    /\ copy = CopyModel.mkCopy r (binary_tuples r) true false (-1) [] []
                chunks.
Proof.
  unfold _start_copy. intros H.
  apply bind_Ok_inv in H as (s1 & H1 & H).
  apply bind_Ok_inv in H as (s2 & H2 & H).
  apply bind_Ok_inv in H as (s3 & H3 & H).
  destruct (start_copy_sent _ _ _ _ _ H1 H2 H3) as (pgq & Hc & ->).
  apply bind_Ok_inv in H as ([] & Hcheck & H).
  unfold wait_execute in *.
  destruct (copy_sent_state self pgq) as (Hsent & _).
  destruct (server _) as [| r [| r' rest]] eqn:Hserver; [done | | done].
  destruct (set_pgresult_copy_sent self pgq r) as (Hs & Hp & Ht & Hr & Hn).
  apply bind_Ok_inv in H as (s & Hset & H).
  apply set_pgresult_inv in Hset as (_ & Es).
  rewrite <- Es in Hs, Hp, Ht, Hr, Hn. clear Es.
  apply bind_Ok_inv in H as (copy' & Hcopy & H). injection H as <- <-.
  exists pgq, r. split; [done |]. split; [done |].
  split; [by rewrite Hs, <- Hsent |].
  split.
  { unfold _check_copy_results in Hcheck.
    destruct (decide _) as [Hst |]; [done |]. by destruct (decide _). }
  split; [done |]. split; [done |]. split; [done |]. split; [done |].
  unfold Copy_of_cursor in Hcopy. rewrite Ht, Hn in Hcopy.
  by injection Hcopy as <-.
Qed.

(** X8. On a usable cursor whose statement converts, anything but a
    single result of status COPY_IN or COPY_OUT refuses the COPY: with
    InternalError when the results are not exactly one, with the error
    of the result when its status is FATAL_ERROR, and with
    ProgrammingError for every other status. *)
Theorem start_copy_refused (self : Cursor) (statement : Query)
    (chunks : list bytes) (pgq : PostgresQuery) :
  ~ unusable self ->
  conn_start_query (_conn self) = None ->
  convert statement None = Ok pgq ->
  (forall r, server (sent (_conn self) ++ [copy_call (format self) pgq]) = [r]
             -> status r <> COPY_IN /\ status r <> COPY_OUT) ->
  _start_copy convert conn_start_query server self statement chunks
  = Raise
      match server (sent (_conn self) ++ [copy_call (format self) pgq]) with
      | [r] => if decide (status r = FATAL_ERROR) then error_from_result r
               else ProgrammingError
      | _ => InternalError
      end.
Proof.
  intros Hus Hconn Hc Hnot. unfold _start_copy.
  assert (H1 : _start_query self
               = Ok (set_transformer (_reset self)
                       (Some (mkTransformer None)))).
  { unfold _start_query, unusable in *.
    destruct (_closed self); [tauto |].
    destruct (conn_closed _); [tauto |].
    destruct (pgconn_status_ok _); [done | tauto]. }
  rewrite H1. cbn [bind].
  assert (H2 : conn__start_query conn_start_query
                 (set_transformer (_reset self) (Some (mkTransformer None)))
               = Ok (set_transformer (_reset self)
                       (Some (mkTransformer None)))).
  { unfold conn__start_query.
    replace (_conn (set_transformer (_reset self) _)) with (_conn self)
      by (by destruct self).
    by rewrite Hconn. }
  rewrite H2. cbn [bind].
  destruct (_execute_send convert _ statement None true) as [s3 | e] eqn:H3.
  2: { unfold _execute_send in H3. rewrite Hc in H3. cbn [bind] in H3.
       rewrite orb_true_r in H3. done. }
  destruct (start_copy_sent _ _ _ _ _ H1 H2 H3) as (pgq' & Hc' & ->).
  assert (pgq' = pgq) as -> by congruence.
  cbn [bind]. unfold wait_execute.
  destruct (copy_sent_state self pgq) as (-> & _).
  destruct (server _) as [| r [| r' rest]]; [done | | done].
  destruct (Hnot r eq_refl) as (Hin & Hout).
  unfold _check_copy_results.
  destruct (decide _) as [[? | ?] |]; [done | done |].
  by destruct (decide _).
Qed.

End StartCopy.

Definition copy_in_answer : PGresult := mkPGresult COPY_IN None TEXT 0 [].

Lemma start_copy_session_witness :
  exists self' copy,
    _start_copy convert0 (fun _ => None) (fun _ => [copy_in_answer]) cursor0
      ["q"%byte] [] = Ok (self', copy)
    /\ copy = CopyModel.mkCopy copy_in_answer TEXT true false (-1) [] [] [].
Proof.
  assert (H : exists sc,
            _start_copy convert0 (fun _ => None) (fun _ => [copy_in_answer])
              cursor0 ["q"%byte] [] = Ok sc)
    by (eexists; vm_compute; reflexivity).
  destruct H as ([self' copy] & H). exists self', copy.
  split; [exact H |].
  destruct (start_copy_session _ _ _ _ _ _ _ _ H)
    as (pgq & r & _ & _ & Hserver & _ & _ & _ & _ & _ & ->).
  by injection Hserver as <-.
Defined.

Lemma start_copy_refused_witness :
  _start_copy convert0 (fun _ => None) (fun _ => [command_ok]) cursor0
    ["q"%byte] []
  = Raise ProgrammingError.
Proof.
  apply (start_copy_refused convert0 (fun _ => None) (fun _ => [command_ok])
           cursor0 ["q"%byte] []
           (mkPostgresQuery ["q"%byte] None [] [])).
  - unfold unusable. vm_compute. intros [H | [H | H]]; discriminate.
  - reflexivity.
  - reflexivity.
  - intros r [= <-]. split; discriminate.
Defined.

End CursorExtra.
(** ** COPY engine: further properties *)

Module CopyExtra.
Import CopyModel CopyTheory.

(** *** Reading a COPY OUT *)

Section Reading.

Variable copy_from_final : PGresult.

(** The row count that a terminal result leaves on the cursor. *)
Definition final_rowcount (res : PGresult) : Z :=
  match command_tuples res with
  | Some n => n
  | None => -1
  end.

(** [n] calls of [read] one after the other, and what they return. *)
Fixpoint read_times (n : nat) (c : Copy) : result (list bytes) * Copy :=
  match n with
  | O => (Ok [], c)
  | S n' =>
      match read copy_from_final c with
      | (Ok data, c1) =>
          match read_times n' c1 with
          | (Ok rest, c2) => (Ok (data :: rest), c2)
          | (Raise e, c2) => (Raise e, c2)
          end
      | (Raise e, c1) => (Raise e, c1)
      end
  end.

(** The session once the terminal result has been met. *)
Definition drained (c : Copy) : Copy :=
  set_cursor_rowcount (set_finished (set_incoming c []) true)
    (final_rowcount copy_from_final).

Lemma read_finished (c : Copy) :
  _finished c = true -> read copy_from_final c = (Ok [], c).
Proof.
  intros Hf. unfold read, cbind, cget, cret. by rewrite Hf.
Qed.

Lemma read_chunk (c : Copy) (chunk : bytes) (rest : list bytes) :
  _finished c = false -> incoming c = chunk :: rest ->
  read copy_from_final c = (Ok chunk, set_incoming c rest).
Proof.
  intros Hf Hinc.
  unfold read, wait_copy_from, cbind, cget, cret, cmodify.
  by rewrite Hf, Hinc.
Qed.

Lemma read_final (c : Copy) :
  _finished c = false -> incoming c = [] ->
  read copy_from_final c = (Ok [], drained c).
Proof.
  intros Hf Hinc.
  unfold read, wait_copy_from, cbind, cget, cret, cmodify, drained,
    final_rowcount.
  rewrite Hf, Hinc. destruct c; cbn in *. by subst.
Qed.

Lemma read_times_finished (n : nat) (c : Copy) :
  _finished c = true ->
  read_times n c = (Ok (replicate n []), c).
Proof.
  intros Hf. induction n as [| n IH]; [done |].
  cbn [read_times replicate]. by rewrite read_finished, IH.
Qed.

(** X9. On a session that is not finished the calls of [read] return
    the chunks of the server in their order, one each; the call after
    the last chunk returns the empty bytes, marks the session finished
    and sets the row count of the cursor from the terminal result;
    every later call returns the empty bytes and changes nothing. No
    call of [read] raises or writes to the connection. *)
Theorem read_sequence (n : nat) (c : Copy) :
  _finished c = false ->
  read_times n c
  = (Ok (take n (incoming c)
         ++ replicate (n - length (incoming c)) []),
     if decide (n <= length (incoming c))%nat
     then set_incoming c (drop n (incoming c))
     else drained c).
Proof.
  revert c. induction n as [| n IH]; intros c Hf.
  - cbn. by destruct c.
  - cbn [read_times]. destruct (incoming c) as [| chunk rest] eqn:Hinc.
    + rewrite read_final by done.
      rewrite read_times_finished by (by destruct c).
      cbn [take length app]. rewrite Nat.sub_0_r.
      destruct (decide _) as [? | _]; [lia | done].
    + rewrite (read_chunk c chunk rest) by done.
      rewrite IH by (by destruct c).
      replace (incoming (set_incoming c rest)) with rest by (by destruct c).
      cbn [take length app drop Nat.sub].
      f_equal. destruct (decide _), (decide _); try lia.
      * by destruct c.
      * destruct c; cbn in *. by subst.
Qed.

(** X10. Iterating on a session that is not finished, whose chunks are
    not empty, yields the chunks in their order and stops at the
    terminal result, leaving the session finished with the row count
    of that result; iterating again yields nothing. *)
Theorem iterate_yields_chunks (fuel : nat) (acc : list bytes) (c : Copy) :
  _finished c = false ->
  Forall (fun chunk => chunk <> []) (incoming c) ->
  (length (incoming c) < fuel)%nat ->
  iter_all copy_from_final fuel acc c
  = Some (Ok (acc ++ incoming c), drained c)
  /\ iter_all copy_from_final fuel [] (drained c)
     = Some (Ok [], drained c).
Proof.
  intros Hf Hne Hfuel. split.
  - revert acc c Hf Hne Hfuel.
    induction fuel as [| fuel IH]; intros acc c Hf Hne Hfuel; [lia |].
    cbn [iter_all]. unfold iter_step, cbind.
    destruct (incoming c) as [| chunk rest] eqn:Hinc.
    + rewrite read_final by done. cbn. by rewrite app_nil_r.
    + rewrite (read_chunk c chunk rest) by done.
      inversion Hne as [| ? ? Hchunk Hrest]; subst.
      destruct chunk as [| b chunk]; [done |]. unfold cret.
      rewrite IH.
      * replace (incoming (set_incoming c rest)) with rest
          by (by destruct c).
        rewrite <- app_assoc. by do 2 f_equal.
      * by destruct c.
      * by destruct c.
      * destruct c; cbn in *. lia.
  - destruct fuel as [| fuel]; [lia |].
    cbn [iter_all]. unfold iter_step, cbind.
    by rewrite read_finished by (by destruct c).
Qed.

End Reading.

Lemma read_sequence_witness :
  read_times copy_out_text 3 copy_out_session
  = (Ok [["1"%byte; x0a]; []; []],
     mkCopy copy_out_text TEXT true true 1 [] [] []).
Proof.
  rewrite (read_sequence copy_out_text 3 copy_out_session); reflexivity.
Defined.

Lemma iterate_yields_chunks_witness :
  iter_all copy_out_text 2 [] copy_out_session
  = Some (Ok [["1"%byte; x0a]],
          mkCopy copy_out_text TEXT true true 1 [] [] []).
Proof.
  destruct (iterate_yields_chunks copy_out_text 2 [] copy_out_session)
    as [H _].
  - reflexivity.
  - by repeat constructor.
  - cbn. lia.
  - rewrite H. reflexivity.
Defined.

(** *** Leaving the block *)

Section Leaving.

Context {Item : Type}.
Variable dumper_dump : Format -> Item -> bytes.
Variable encode : string -> bytes.
Variable copy_end_reply : list bytes -> option bytes -> result PGresult.
Variable copy_from_final : PGresult.
Variable exc_info : exn -> string * string.

(** The message that [__exit__] gives to [_finish] for an exception. *)
Definition error_message (e : exn) : string :=
  "error from Python: " ++ fst (exc_info e) ++ " - " ++ snd (exc_info e).

(** No call inside the block ends the COPY. *)
Lemma run_op_ends (op : Op) (c : Copy) :
  copy_end_errors (snd (run_op dumper_dump encode copy_from_final op c))
  = copy_end_errors c.
Proof.
  destruct c as [pg fmt fr fin rc wire ends inc].
  destruct op as [buffer | row | | e | row]; cbn [run_op snd].
  - unfold write, _ensure_bytes, wait_copy_to, cbind, cget, cret, craise,
      cmodify.
    destruct buffer as [data | data |]; cbn; [done | | done].
    by destruct (decide _).
  - unfold write_row, write, _format_row, _format_copy_row,
      _format_row_binary, _ensure_bytes, wait_copy_to,
      cbind, cget, cret, craise, cmodify, clift.
    cbn [format _first_row].
    destruct (decide (fmt = TEXT)).
    + by destruct (_format_row_text _).
    + destruct fr; cbn; destruct (pack_h _); cbn; try done;
        by destruct (binary_fields _ _).
  - unfold read, wait_copy_from, cbind, cget, cret, cmodify.
    cbn [_finished incoming].
    destruct fin; [done |]. by destruct inc.
  - done.
  - unfold write_row, write, _format_row, _format_copy_row,
      _format_row_binary, _ensure_bytes, wait_copy_to,
      cbind, cget, cret, craise, cmodify, clift.
    cbn [format _first_row].
    destruct (decide (fmt = TEXT)).
    + by destruct (_format_row_text _).
    + destruct fr; cbn; destruct (pack_h _); cbn; try done;
        by destruct (binary_fields _ _).
Qed.

Lemma run_block_ends (ops : list Op) (c : Copy) :
  copy_end_errors (snd (run_block dumper_dump encode copy_from_final ops c))
  = copy_end_errors c
  /\ _pgresult (snd (run_block dumper_dump encode copy_from_final ops c))
     = _pgresult c.
Proof.
  revert c. induction ops as [| op ops IH]; intros c; [done |].
  cbn [run_block]. unfold cbind.
  pose proof (run_op_ends op c) as Hends.
  destruct (run_op_frame dumper_dump encode copy_from_final op c _ eq_refl)
    as (Hpg & _).
  destruct (run_op _ _ _ op c) as [[[] | e] c1]; cbn [snd] in *; [| done].
  destruct (IH c1) as (-> & ->). done.
Qed.

Lemma exit_error (e : exn) (c : Copy) :
  status (_pgresult c) <> COPY_OUT ->
  __exit__ encode copy_end_reply (Some (exc_info e)) c
  = _finish encode copy_end_reply (error_message e) c.
Proof.
  intros Hst. unfold __exit__, error_message.
  unfold cbind at 1. unfold cget at 1.
  destruct (decide _) as [? | _]; [done |].
  by destruct (exc_info e).
Qed.

Lemma error_message_argument (e : exn) :
  end_argument encode (error_message e) = Some (encode (error_message e)).
Proof. unfold end_argument. by destruct (decide _). Qed.

(** X11. When the block of a session that is not COPY OUT raises,
    through a method of the session or by an exception of the caller's
    own, the COPY is ended once, with the message made of the name and
    the text of the exception, and nothing is written after what the
    block had written (no binary trailer in particular). The server
    refuses a COPY that is ended with an error: the exception of that
    exchange is what the caller gets, in place of the one of the block,
    and the session is left as the block left it, unfinished when it
    was, with the row count it had. *)
Theorem copy_error_reflected (ops : list Op) (c c1 : Copy) (e e' : exn) :
  _finished c = false ->
  status (_pgresult c) <> COPY_OUT ->
  run_block dumper_dump encode copy_from_final ops c = (Raise e, c1) ->
  copy_end_reply (copy_data c1) (Some (encode (error_message e))) = Raise e' ->
  let berr := Some (encode (error_message e)) in
  let out := with_copy dumper_dump encode copy_end_reply copy_from_final
               exc_info ops c in
  out = (Raise e', set_copy_end_errors c1 (copy_end_errors c ++ [berr]))
  /\ copy_data (snd out) = copy_data c1
  /\ copy_end_errors (snd out) = copy_end_errors c ++ [berr]
  /\ _finished (snd out) = _finished c1
  /\ cursor_rowcount (snd out) = cursor_rowcount c1.
Proof.
  intros Hf Hst Hrun Hreply berr out. subst berr out.
  destruct (run_block_ends ops c) as (Hends & Hpg).
  rewrite Hrun in Hends, Hpg. cbn [snd] in Hends, Hpg.
  unfold with_copy. rewrite enter_finished, Hf, Hrun.
  rewrite exit_error by (by rewrite Hpg).
  rewrite finish_cases, error_message_argument, Hreply. cbv zeta.
  rewrite Hends. by destruct c1.
Qed.

End Leaving.

(** What [__exit__] is told of an exception: its name and its text. *)
Definition exc_info0 (e : exn) : string * string :=
  match e with
  | Exception message => ("Exception", message)
  | TypeError => ("TypeError", "cannot copy str data in binary mode")
  | _ => ("Error", EmptyString)
  end%string.

Definition copy_in_text : PGresult := mkPGresult COPY_IN None TEXT 0 [].

(** A row is written in a text COPY IN, then the caller raises: the
    server is told so and what the caller gets is QueryCanceled. A
    string written in a binary COPY IN ends the same way. *)
Lemma copy_error_reflected_witness :
  let out :=
    with_copy (fun _ (b : bytes) => b) String.list_byte_of_string
      (cancelling_reply copy_in_text) copy_in_text exc_info0
      [OpWriteRow [Some ["a"%byte]]; OpRaise (Exception "nuttengoggenio")]
      (Copy_init copy_in_text (-1) []) in
  let out_binary :=
    with_copy (fun _ (b : bytes) => b) String.list_byte_of_string
      (cancelling_reply copy_in_binary) copy_in_binary exc_info0
      [OpWrite (Str "x")] (Copy_init copy_in_binary (-1) []) in
  (fst out = Raise query_canceled
   /\ copy_end_errors (snd out)
      = [Some (String.list_byte_of_string
                 "error from Python: Exception - nuttengoggenio")]
   /\ copy_data (snd out) = [["a"; x0a]%byte]
   /\ _finished (snd out) = false)
  /\ fst out_binary = Raise query_canceled
  /\ copy_data (snd out_binary) = [].
Proof.
  intros out out_binary. split; [| split].
  - destruct (copy_error_reflected (fun _ (b : bytes) => b)
                String.list_byte_of_string (cancelling_reply copy_in_text)
                copy_in_text exc_info0
                [OpWriteRow [Some ["a"%byte]];
                 OpRaise (Exception "nuttengoggenio")]
                (Copy_init copy_in_text (-1) [])
                (mkCopy copy_in_text TEXT true false (-1) [["a"; x0a]%byte]
                   [] [])
                (Exception "nuttengoggenio") query_canceled
                eq_refl ltac:(discriminate) eq_refl eq_refl)
      as (Hout & Hd & Hends & Hfin & _).
    fold out in Hout, Hd, Hends, Hfin. rewrite Hd, Hends, Hfin, Hout.
    by repeat split.
  - destruct (copy_error_reflected (fun _ (b : bytes) => b)
                String.list_byte_of_string (cancelling_reply copy_in_binary)
                copy_in_binary exc_info0 [OpWrite (Str "x")]
                (Copy_init copy_in_binary (-1) [])
                (Copy_init copy_in_binary (-1) [])
                TypeError query_canceled
                eq_refl ltac:(discriminate) eq_refl eq_refl)
      as (Hout & _).
    fold out_binary in Hout. by rewrite Hout.
  - destruct (copy_error_reflected (fun _ (b : bytes) => b)
                String.list_byte_of_string (cancelling_reply copy_in_binary)
                copy_in_binary exc_info0 [OpWrite (Str "x")]
                (Copy_init copy_in_binary (-1) [])
                (Copy_init copy_in_binary (-1) [])
                TypeError query_canceled
                eq_refl ltac:(discriminate) eq_refl eq_refl)
      as (_ & Hd & _).
    fold out_binary in Hd. by rewrite Hd.
Defined.

(** *** Text sessions *)

Lemma format_row_text_ok (row : list (option bytes)) :
  _format_row_text row = Ok (text_row row).
Proof.
  unfold _format_row_text, text_row.
  assert (Hparts :
    mapM (fun item : option bytes =>
            match item with
            | Some item => re_sub_class _bsrepl_re _bsrepl_sub item
            | None => Ok [x5c; "N"%byte]
            end) row = Ok (map text_field row)).
  { induction row as [| item row IH]; [done |].
    cbn [mapM map]. rewrite IH.
    destruct item as [item |]; [rewrite bsrepl_sub_item |]; reflexivity. }
  rewrite Hparts. cbn [bind]. do 2 f_equal. clear Hparts.
  induction row as [| item row IH]; [done |].
  destruct row as [| item' row]; [done |].
  change (text_field item ++ [x09] ++ join [x09] (map text_field (item' :: row))
          = text_field item ++ [x09] ++ text_fields (item' :: row)).
  by rewrite IH.
Qed.

Section TextSessions.

Context {Item : Type}.
Variable dumper_dump : Format -> Item -> bytes.
Variable encode : string -> bytes.
Variable copy_end_reply : list bytes -> option bytes -> result PGresult.
Variable copy_from_final : PGresult.
Variable exc_info : exn -> string * string.

(** The fields of a row once they are dumped in text format. *)
Definition dumped_text (row : list (option Item)) : list (option bytes) :=
  map (fun item => match item with
                   | Some item => Some (dumper_dump TEXT item)
                   | None => None
                   end) row.

Lemma write_row_text pg fr fin rc wire ends inc row :
  write_row dumper_dump encode row (mkCopy pg TEXT fr fin rc wire ends inc)
  = (Ok tt,
     mkCopy pg TEXT fr fin rc (wire ++ [text_row (dumped_text row)]) ends inc).
Proof.
  unfold write_row, write, _format_row, _format_copy_row, _ensure_bytes,
    wait_copy_to, cbind, cget, cret, cmodify, clift.
  cbn [format]. destruct (decide (TEXT = TEXT)) as [_ | ?]; [| done].
  fold (dumped_text row). by rewrite format_row_text_ok.
Qed.

Lemma run_block_rows_text pg fr fin rc wire ends inc rows :
  run_block dumper_dump encode copy_from_final (map OpWriteRow rows)
    (mkCopy pg TEXT fr fin rc wire ends inc)
  = (Ok tt,
     mkCopy pg TEXT fr fin rc
       (wire ++ map (fun row => text_row (dumped_text row)) rows) ends inc).
Proof.
  revert wire. induction rows as [| row rows IH]; intros wire.
  - cbn. by rewrite app_nil_r.
  - cbn [map run_block run_op]. unfold cbind at 1.
    rewrite write_row_text, IH. by rewrite <- app_assoc.
Qed.

Lemma mapM_format_rows (rows : list (list (option Item))) :
  mapM (fun row => _format_row_text (dumped_text row)) rows
  = Ok (map (fun row => text_row (dumped_text row)) rows).
Proof.
  induction rows as [| row rows IH]; [done |].
  cbn [mapM map]. by rewrite format_row_text_ok, IH.
Qed.

(** X12. A text COPY IN session in which the rows are written with
    [write_row] and the block is left normally puts on the wire the
    rows as the text formatter gives them, one buffer each, with
    nothing before, between or after them; no row is refused; the COPY
    is ended once, with no error, and when the server gives the
    terminal result the session is finished and the row count of the
    cursor is that of the result. *)
Theorem text_copy_session (pg : PGresult) (rc : Z) (chunks : list bytes)
    (rows : list (list (option Item))) :
  status pg <> COPY_OUT ->
  binary_tuples pg = TEXT ->
  let out := with_copy dumper_dump encode copy_end_reply copy_from_final
               exc_info (map OpWriteRow rows) (Copy_init pg rc chunks) in
  mapM (fun row => _format_row_text (dumped_text row)) rows
  = Ok (copy_data (snd out))
  /\ copy_end_errors (snd out) = [None]
  /\ match copy_end_reply (copy_data (snd out)) None with
     | Ok res =>
         fst out = Ok tt
         /\ _finished (snd out) = true
         /\ cursor_rowcount (snd out) = final_rowcount res
     | Raise e =>
         fst out = Raise e
         /\ _finished (snd out) = false
         /\ cursor_rowcount (snd out) = rc
     end.
Proof.
  intros Hst Htext out. subst out. rewrite mapM_format_rows.
  unfold Copy_init, with_copy. rewrite Htext, enter_finished. cbn [_finished].
  rewrite run_block_rows_text. cbn [app].
  unfold __exit__, _finish, wait_copy_end, cbind, cget, cret, cmodify, clift.
  cbn [_pgresult format _first_row copy_data copy_end_errors].
  destruct (decide (status pg = COPY_OUT)) as [? | _]; [done |].
  rewrite (bool_decide_eq_false_2 (TEXT = BINARY)) by done. cbn [andb].
  destruct (decide (EmptyString = EmptyString)) as [_ | ?]; [| done].
  set (wire := map (fun row => text_row (dumped_text row)) rows).
  destruct (copy_end_reply wire None) as [res | e] eqn:Hreply;
    simpl; repeat (rewrite Hreply; simpl); done.
Qed.

End TextSessions.

Lemma text_copy_session_witness :
  copy_data
    (snd (with_copy (fun _ (b : bytes) => b) (fun _ => [])
            (fun _ _ => Ok copy_in_text) copy_in_text
            (fun _ => (EmptyString, EmptyString))
            (map OpWriteRow sample_rows) (Copy_init copy_in_text (-1) [])))
  = [["a"; x09; x5c; "N"; x0a]%byte; ["b"; "c"; x0a]%byte].
Proof.
  destruct (text_copy_session (fun _ (b : bytes) => b) (fun _ => [])
              (fun _ _ => Ok copy_in_text) copy_in_text
              (fun _ => (EmptyString, EmptyString)) copy_in_text (-1) []
              sample_rows ltac:(discriminate) eq_refl) as (Hdata & _).
  match type of Hdata with
  | ?l = _ =>
      assert (Hrows : l = Ok [["a"; x09; x5c; "N"; x0a]%byte;
                              ["b"; "c"; x0a]%byte])
        by (vm_compute; reflexivity)
  end.
  rewrite Hrows in Hdata. congruence.
Defined.

(** *** The shape of a text row *)

(** The number of bytes of [s] that are [b]. *)
Definition occurrences (b : byte) (s : bytes) : nat :=
  length (filter (fun c => c = b) s).

(** The bytes that the text formatter never lets through as they are,
    but for the tabs and the newline it adds itself. *)
Definition raw_control (c : byte) : bool :=
  bool_decide (c ∈ [x08; x09; x0a; x0b; x0c; x0d]).

Lemma occurrences_app (b : byte) (s t : bytes) :
  occurrences b (s ++ t) = (occurrences b s + occurrences b t)%nat.
Proof. unfold occurrences. by rewrite filter_app, length_app. Qed.

Lemma occurrences_clean (b : byte) (s : bytes) :
  raw_control b = true ->
  forallb (fun c => negb (raw_control c)) s = true ->
  occurrences b s = 0%nat.
Proof.
  intros Hb. unfold occurrences. induction s as [| c s IH]; [done |].
  cbn [forallb]. intros (Hc & Hs)%andb_prop.
  rewrite filter_cons. destruct (decide (c = b)) as [-> | _]; [| by apply IH].
  by rewrite Hb in Hc.
Qed.

Lemma escape_byte_clean (c : byte) :
  forallb (fun c => negb (raw_control c)) (escape_byte c) = true.
Proof. destruct c; reflexivity. Qed.

Lemma text_field_clean (item : option bytes) :
  forallb (fun c => negb (raw_control c)) (text_field item) = true.
Proof.
  destruct item as [item |]; [| reflexivity].
  cbn [text_field]. induction item as [| c item IH]; [done |].
  cbn [flat_map]. rewrite forallb_app, escape_byte_clean, IH. done.
Qed.

Lemma text_fields_clean (row : list (option bytes)) :
  forallb (fun c => negb (raw_control c) || bool_decide (c = x09))
    (text_fields row) = true.
Proof.
  assert (Hweak : forall s,
            forallb (fun c => negb (raw_control c)) s = true ->
            forallb (fun c => negb (raw_control c) || bool_decide (c = x09)) s
            = true).
  { induction s as [| c s IH]; [done |]. cbn [forallb].
    intros (-> & Hs)%andb_prop. by rewrite IH. }
  induction row as [| item row IH]; [done |].
  destruct row as [| item' row]; [apply Hweak, text_field_clean |].
  change (text_fields (item :: item' :: row))
    with (text_field item ++ [x09] ++ text_fields (item' :: row)).
  rewrite !forallb_app, IH, Hweak by apply text_field_clean. done.
Qed.

Lemma text_fields_occurrences (row : list (option bytes)) :
  occurrences x09 (text_fields row) = (length row - 1)%nat
  /\ occurrences x0a (text_fields row) = 0%nat.
Proof.
  induction row as [| item row IH]; [done |].
  destruct row as [| item' row].
  - cbn [text_fields length].
    by rewrite (occurrences_clean x09), (occurrences_clean x0a)
      by (done || apply text_field_clean).
  - change (text_fields (item :: item' :: row))
      with (text_field item ++ [x09] ++ text_fields (item' :: row)).
    destruct IH as (IHt & IHn).
    rewrite !occurrences_app, IHt, IHn.
    rewrite (occurrences_clean x09), (occurrences_clean x0a)
      by (done || apply text_field_clean).
    replace (occurrences x09 [x09]) with 1%nat by reflexivity.
    replace (occurrences x0a [x09]) with 0%nat by reflexivity.
    cbn [length]. split; [lia | done].
Qed.

(** X13. The text formatter never fails, and in the row it returns the
    only newline is the last byte, the tabs are as many as the
    separators between the fields, and no backspace, vertical tab, form
    feed or carriage return occurs: every such byte of the data was
    escaped. *)
Theorem text_row_delimiters (row : list (option bytes)) :
  exists out,
    _format_row_text row = Ok out
    /\ last out = Some x0a
    /\ occurrences x0a out = 1%nat
    /\ occurrences x09 out = (length row - 1)%nat
    /\ Forall (fun c => c ∉ [x08; x0b; x0c; x0d]) out.
Proof.
  exists (text_row row). split; [apply format_row_text_ok |].
  unfold text_row. destruct (text_fields_occurrences row) as (Ht & Hn).
  split; [by rewrite last_snoc |].
  split; [by rewrite occurrences_app, Hn |].
  split.
  { rewrite occurrences_app, Ht.
    replace (occurrences x09 [x0a]) with 0%nat by reflexivity. lia. }
  apply Forall_app. split; [| by repeat constructor; set_solver].
  pose proof (text_fields_clean row) as Hclean.
  apply Forall_forall. intros c Hc.
  rewrite forallb_forall in Hclean.
  apply list_elem_of_In, Hclean in Hc.
  unfold raw_control in Hc.
  destruct (bool_decide (c = x09)) eqn:Htab.
  - apply bool_decide_eq_true in Htab as ->. set_solver.
  - rewrite orb_false_r in Hc. apply negb_true_iff in Hc.
    apply bool_decide_eq_false in Hc. set_solver.
Qed.

(** *** The text formatter loses nothing *)

(** The byte that an escape letter stands for. *)
Definition unescape_letter (l : byte) : byte :=
  match l with
  | "b" => x08
  | "t" => x09
  | "n" => x0a
  | "v" => x0b
  | "f" => x0c
  | "r" => x0d
  | _ => l
  end%byte.

(** A left inverse of the escaping of a field. *)
Fixpoint unescape (s : bytes) : bytes :=
  match s with
  | [] => []
  | c :: s' =>
      match s' with
      | l :: s'' =>
          if decide (c = x5c) then unescape_letter l :: unescape s''
          else c :: unescape s'
      | [] => [c]
      end
  end.

Definition decode_field (f : bytes) : option bytes :=
  if decide (f = [x5c; "N"%byte]) then None else Some (unescape f).

(** The pieces of [s] between its tabs; [acc] is the piece at hand,
    last byte first. *)
Fixpoint split_tabs (acc s : bytes) : list bytes :=
  match s with
  | [] => [rev acc]
  | c :: s' =>
      if decide (c = x09) then rev acc :: split_tabs [] s'
      else split_tabs (c :: acc) s'
  end.

Lemma unescape_cons (c : byte) (s : bytes) :
  unescape (escape_byte c ++ s) = c :: unescape s.
Proof.
  destruct (escape_byte_cases c) as [(Hin & _) | (Hout & ->)].
  - rewrite !elem_of_cons in Hin.
    destruct Hin as [-> | [-> | [-> | [-> | [-> | [-> | [-> | Hin]]]]]]];
      [reflexivity .. |].
    by apply elem_of_nil in Hin.
  - cbn [app unescape]. destruct s as [| l s]; [done |].
    destruct (decide (c = x5c)) as [-> | _]; [| done].
    exfalso. apply Hout. set_solver.
Qed.

Lemma unescape_escape_field (item : bytes) :
  unescape (flat_map escape_byte item) = item.
Proof.
  induction item as [| c item IH]; [done |].
  cbn [flat_map]. by rewrite unescape_cons, IH.
Qed.

Lemma escaped_not_null (item : bytes) :
  flat_map escape_byte item <> [x5c; "N"%byte].
Proof.
  destruct item as [| c item]; [done |]. cbn [flat_map].
  destruct (escape_byte_cases c) as [(_ & l & -> & Hl) | (Hout & ->)].
  - intros [= ->]. revert Hl. rewrite !elem_of_cons.
    intros [? | [? | [? | [? | [? | [? | [? | Hl]]]]]]]; try discriminate.
    by apply elem_of_nil in Hl.
  - intros [= -> _]. apply Hout. set_solver.
Qed.

Lemma decode_text_field (item : option bytes) :
  decode_field (text_field item) = item.
Proof.
  destruct item as [item |]; [| reflexivity].
  unfold decode_field. cbn [text_field].
  destruct (decide _) as [H | _]; [by apply escaped_not_null in H |].
  by rewrite unescape_escape_field.
Qed.

Lemma split_tabs_clean (acc f s : bytes) :
  forallb (fun c => negb (raw_control c)) f = true ->
  split_tabs acc (f ++ s) = split_tabs (rev f ++ acc) s.
Proof.
  revert acc. induction f as [| c f IH]; intros acc; [done |].
  cbn [forallb]. intros (Hc & Hf)%andb_prop.
  cbn [app split_tabs]. destruct (decide (c = x09)) as [-> | _]; [done |].
  rewrite IH by done. cbn [rev]. by rewrite <- app_assoc.
Qed.

Lemma split_text_fields (row : list (option bytes)) :
  row <> [] ->
  split_tabs [] (text_fields row) = map text_field row.
Proof.
  induction row as [| item row IH]; [done |]. intros _.
  destruct row as [| item' row].
  - cbn [text_fields map].
    rewrite <- (app_nil_r (text_field item)) at 1.
    rewrite split_tabs_clean by apply text_field_clean.
    cbn [split_tabs]. by rewrite app_nil_r, rev_involutive.
  - change (text_fields (item :: item' :: row))
      with (text_field item ++ [x09] ++ text_fields (item' :: row)).
    rewrite split_tabs_clean by apply text_field_clean.
    cbn [app split_tabs]. destruct (decide (x09 = x09)) as [_ | ?]; [| done].
    rewrite app_nil_r, rev_involutive, IH by done. done.
Qed.

(** X14. The text formatter is one to one on the rows that have a
    field: two such rows that give the same bytes are the same row, so
    that the escaping loses nothing and a nil field is never mistaken
    for a value. *)
Theorem text_row_injective (row1 row2 : list (option bytes)) (out : bytes) :
  row1 <> [] -> row2 <> [] ->
  _format_row_text row1 = Ok out ->
  _format_row_text row2 = Ok out ->
  row1 = row2.
Proof.
  intros Hne1 Hne2. rewrite !format_row_text_ok. unfold text_row.
  intros [= <-] [= H%app_inv_tail].
  assert (Hdec : forall row, row <> [] ->
            map decode_field (split_tabs [] (text_fields row)) = row).
  { intros row Hrow. rewrite split_text_fields by done.
    rewrite map_map. rewrite <- (map_id row) at 2.
    apply map_ext. intros item. apply decode_text_field. }
  rewrite <- (Hdec row1 Hne1), <- (Hdec row2 Hne2). by rewrite H.
Qed.

Lemma text_row_injective_witness :
  [Some [x09]; None] = [Some [x09]; @None bytes].
Proof.
  apply (text_row_injective [Some [x09]; None] [Some [x09]; None]
           [x5c; "t"; x09; x5c; "N"; x0a]%byte);
    [done | done | reflexivity | reflexivity].
Defined.

End CopyExtra.
(** ** Array codec: further properties *)

Module ArrayExtra.
Import ArrayModel ArrayTheory ArrayTextTheory.

(** *** The OID of a text array *)

Section TextOid.

Context {A : Type}.
Variable TEXT_ARRAY_OID : Z.
Variable builtins_array_oid : Z -> option Z.
Variable tx_adapt : Format -> A -> adapted.

(** The scalar is dumped with the OID [o], which is not 0. *)
Definition typed_as (a : A) (o : Z) : Prop :=
  o <> 0 /\ exists data, tx_adapt TEXT a = WithOid data o.

(** The two exceptions of the writer: the DataError it raises itself,
    and the UnboundLocalError of the message of that error, when the
    local [got_type] has no value in the call at hand. *)
Definition oid_refusal (e : exn) : Prop :=
  e = DataError \/ e = UnboundLocalError.

(** What a step of the writer does to the OID of the closure: an OID
    that is set stays, and the typed scalars [seen] in the step have
    the OID that the step leaves, or the step raises one of the two
    exceptions. *)
Definition oid_step {T : Type} (proj : T -> text_state) (seen : list A)
    (st : text_state) (r : result T) : Prop :=
  match r with
  | Ok x =>
      (t_oid st <> 0 -> t_oid (proj x) = t_oid st)
      /\ forall a o, a ∈ seen -> typed_as a o -> o = t_oid (proj x)
  | Raise e => oid_refusal e
  end.

(** An item that is not a list. *)
Definition flat (v : pyval A) : Prop :=
  match v with
  | PList _ => False
  | _ => True
  end.

Lemma text_adapt_scalar_oid (a : A) (got : bool) (st : text_state) :
  oid_step snd [a] st (text_adapt_scalar tx_adapt a got st).
Proof.
  unfold oid_step, text_adapt_scalar, typed_as, oid_refusal.
  destruct (tx_adapt TEXT a) as [data | data oid] eqn:Had.
  - cbn [bind]. destruct data as [ad |]; (split; [done |]);
      intros a' o ->%list_elem_of_singleton (_ & d & Hd); congruence.
  - destruct (decide (t_oid st = 0)) as [H0 | H0]; cbn [bind].
    + destruct data as [ad |]; (split; [done |]);
        intros a' o ->%list_elem_of_singleton (_ & d & Hd);
        cbn [push_token t_oid snd]; congruence.
    + destruct (decide (t_oid st <> oid)) as [Hne | Heq].
      { destruct got; cbn [bind]; [by left | by right]. }
      cbn [bind]. apply dec_stable in Heq.
      destruct data as [ad |]; (split; [done |]);
        intros a' o ->%list_elem_of_singleton (_ & d & Hd);
        cbn [push_token t_oid snd]; congruence.
Qed.

Lemma text_adapt_items_oid (items : list (pyval A)) :
  Forall (fun v => forall got st,
            oid_step snd (scalars v) st (text_adapt_item tx_adapt v got st))
    items ->
  forall got st,
    oid_step id (flat_map scalars items) st
      (text_adapt_items tx_adapt (text_adapt_list tx_adapt) items got st).
Proof.
  intros Hitems. induction Hitems as [| x items Hx _ IH]; intros got st.
  - cbn. split; [done |]. intros a o Hin. by apply elem_of_nil in Hin.
  - rewrite text_adapt_items_cons.
    specialize (Hx got st). unfold oid_step in Hx.
    destruct (text_adapt_item tx_adapt x got st) as [[got1 st1] | e];
      [| done].
    cbn [bind fst snd] in *. destruct Hx as (Hkeep1 & Hseen1).
    specialize (IH got1 (push_token st1 [x2c])). unfold oid_step in *.
    destruct (text_adapt_items _ _ items _ _) as [st2 | e]; [| done].
    cbn [push_token t_oid id] in *. destruct IH as (Hkeep2 & Hseen2).
    split.
    + intros H0. rewrite Hkeep2; rewrite Hkeep1; done.
    + intros a o Hin Hty. cbn [flat_map] in Hin.
      apply elem_of_app in Hin as [Hin | Hin]; [| by apply (Hseen2 a)].
      pose proof (Hseen1 a o Hin Hty) as Ho.
      rewrite Hkeep2; [done |]. rewrite <- Ho. by destruct Hty.
Qed.

Lemma text_adapt_item_oid (v : pyval A) (got : bool) (st : text_state) :
  oid_step snd (scalars v) st (text_adapt_item tx_adapt v got st).
Proof.
  revert got st. induction v as [| a | items IH] using pyval_nested_ind;
    intros got st.
  - cbn. split; [done |]. intros a o Hin. by apply elem_of_nil in Hin.
  - apply text_adapt_scalar_oid.
  - destruct items as [| x items].
    + cbn. split; [done |]. intros a o Hin. by apply elem_of_nil in Hin.
    + cbn [text_adapt_item]. rewrite text_adapt_list_cons.
      pose proof (text_adapt_items_oid (x :: items) IH false
                    (push_token st [x7b])) as H.
      unfold oid_step in *.
      destruct (text_adapt_items _ _ _ _ _) as [st1 | e]; [| done].
      cbn [bind snd id] in *. exact H.
Qed.

(** In a call of [adapt_list] on items none of which is a list, the
    local [got_type] has a value as soon as the OID is set, so the
    call raises nothing but DataError. *)
Lemma text_adapt_items_flat (items : list (pyval A)) :
  Forall flat items ->
  forall got st e,
    (t_oid st <> 0 -> got = true) ->
    text_adapt_items tx_adapt (text_adapt_list tx_adapt) items got st
    = Raise e ->
    e = DataError.
Proof.
  intros Hflat. induction Hflat as [| x items Hx _ IH];
    intros got st e Hgot; [done |].
  cbn [text_adapt_items]. destruct x as [| a | l]; [| | done].
  - cbn [bind]. by apply IH.
  - unfold text_adapt_scalar.
    destruct (tx_adapt TEXT a) as [data | data oid].
    + cbn [bind]. destruct data; cbn [bind]; by apply IH.
    + destruct (decide (t_oid st = 0)) as [H0 | H0].
      * cbn [bind]. destruct data; cbn [bind]; by apply IH.
      * destruct (decide (t_oid st <> oid)) as [Hne | Heq].
        { rewrite (Hgot H0). cbn [bind]. by intros [= <-]. }
        cbn [bind]. destruct data; cbn [bind]; by apply IH.
Qed.

(** X15. When the text writer returns, the scalars of the list that
    are dumped with an OID other than 0 all have the same one, from
    which the OID of the array is taken. A list with two scalars of
    different such OIDs is never written. With dumpers that do not
    raise, what the writer raises is DataError or UnboundLocalError,
    the latter being what reading the local [got_type] gives in a call
    of [adapt_list] that did not fix the OID; on a list that holds no
    list it is always DataError. *)
Theorem text_adapt_one_oid (xs : list (pyval A)) :
  (forall data oid,
     TextListAdapter_adapt TEXT_ARRAY_OID builtins_array_oid tx_adapt xs
     = Ok (data, oid) ->
     exists o,
       oid = _array_oid TEXT_ARRAY_OID builtins_array_oid o
       /\ forall a o', a ∈ scalars (PList xs) -> typed_as a o' -> o' = o)
  /\ (forall e,
        TextListAdapter_adapt TEXT_ARRAY_OID builtins_array_oid tx_adapt xs
        = Raise e ->
        oid_refusal e /\ (Forall flat xs -> e = DataError))
  /\ (forall a1 a2 o1 o2,
        a1 ∈ scalars (PList xs) -> a2 ∈ scalars (PList xs) ->
        typed_as a1 o1 -> typed_as a2 o2 -> o1 <> o2 ->
        exists e,
          TextListAdapter_adapt TEXT_ARRAY_OID builtins_array_oid tx_adapt xs
          = Raise e).
Proof.
  pose proof (text_adapt_item_oid (PList xs) false (mkTextState [] 0)) as H.
  assert (Hflat : Forall flat xs -> forall e,
            text_adapt_list tx_adapt (PList xs) (mkTextState [] 0) = Raise e ->
            e = DataError).
  { intros Hf e. destruct xs as [| x xs]; [done |].
    rewrite text_adapt_list_cons.
    destruct (text_adapt_items _ _ _ _ _) as [st | e'] eqn:Hitems; [done |].
    cbn [bind]. intros [= <-].
    apply (text_adapt_items_flat _ Hf false _ _) in Hitems; [done |].
    cbn [push_token t_oid]. by intros []. }
  unfold TextListAdapter_adapt. cbn [text_adapt_item] in H.
  unfold oid_step in H.
  destruct (text_adapt_list tx_adapt (PList xs) _) as [st | e]; cbn [bind] in *.
  - destruct H as (_ & Hseen). split; [| split]; [| done |].
    + intros data oid [= <- <-]. by exists (t_oid st).
    + intros a1 a2 o1 o2 H1 H2 Ht1 Ht2 Hne. exfalso. apply Hne.
      by rewrite (Hseen a1 o1), (Hseen a2 o2).
  - split; [done |]. split.
    + intros e' [= <-]. split; [done |]. intros Hf. by apply Hflat.
    + intros. by exists e.
Qed.

End TextOid.

(** A dumper that gives every byte string with its first byte as the
    OID. *)
Definition first_byte_adapt (fmt : Format) (b : bytes) : adapted :=
  WithOid (Some b) (match b with c :: _ => Z_of_byte c | [] => 0 end).

(** The second OID met in the call that fixed the first: DataError. *)
Lemma text_adapt_one_oid_witness :
  TextListAdapter_adapt 1009 (fun _ => None) first_byte_adapt
    [PScalar ["a"%byte]; PScalar ["b"%byte]]
  = Raise DataError.
Proof.
  destruct (text_adapt_one_oid 1009 (fun _ => None) first_byte_adapt
              [PScalar ["a"%byte]; PScalar ["b"%byte]])
    as (_ & Hexn & Hnever).
  destruct (Hnever ["a"%byte] ["b"%byte] 97 98) as (e & He).
  - cbn. set_solver.
  - cbn. set_solver.
  - split; [done |]. by eexists.
  - split; [done |]. by eexists.
  - done.
  - destruct (Hexn e He) as (_ & Hflat). rewrite He. f_equal.
    apply Hflat. by repeat constructor.
Defined.

(** The second OID met in an inner call, where [got_type] has no
    value: the writer ends in UnboundLocalError. *)
Example text_adapt_inner_mismatch :
  TextListAdapter_adapt 1009 (fun _ => None) first_byte_adapt
    [PScalar ["a"%byte]; PList [PScalar ["b"%byte]]]
  = Raise UnboundLocalError.
Proof. reflexivity. Qed.

(** *** What the text reader refuses *)

Section TextReader.

Context {A : Type}.
Variable get_cast_function : Z -> Format -> bytes -> result A.
Variable base_oid : Z.

(** X16. The text reader fails its assertion on data in which it finds
    no token, the empty bytes for one, and refuses with DataError data
    whose first token is not an opening brace, whatever follows. *)
Theorem text_cast_malformed (data : bytes) :
  (_re_parse_finditer data = [] ->
   ArrayCasterText_cast get_cast_function base_oid data
   = Raise AssertionError)
  /\ ArrayCasterText_cast get_cast_function base_oid [] = Raise AssertionError
  /\ (forall t ts,
        _re_parse_finditer data = t :: ts -> t <> [x7b] ->
        ArrayCasterText_cast get_cast_function base_oid data
        = Raise DataError).
Proof.
  unfold ArrayCasterText_cast. split; [| split].
  - by intros ->.
  - by rewrite finditer_nil.
  - intros t ts -> Ht. cbn [cast_loop]. unfold cast_step. cbn [stack].
    destruct (decide (t = [x7b])) as [? | _]; [done |].
    by destruct (decide (t = [x7d])).
Qed.

End TextReader.

Lemma text_cast_malformed_witness :
  ArrayCasterText_cast text_cast 25 ["1"; ","; "{"; "2"; "}"]%byte
  = Raise DataError.
Proof.
  destruct (text_cast_malformed text_cast 25 ["1"; ","; "{"; "2"; "}"]%byte)
    as (_ & _ & H).
  apply (H ["1"%byte] [[x7b]; ["2"%byte]; [x7d]]); [reflexivity | done].
Defined.

End ArrayExtra.
(** ** Binary arrays *)

Module ArrayBinary.
Import ArrayModel ArrayTheory ArrayTextTheory.

#[local] Arguments be_bytes : simpl never.
#[local] Arguments be_value : simpl never.

(** *** Fields of four bytes in a payload *)





Lemma minus_one_signed : to_signed32 (be_value [xff; xff; xff; xff]) = -1.
Proof. reflexivity. Qed.

(** *** The payload of a value *)

Section Comprehension.

Context {A : Type}.
Variable f : Z -> result (pyval A * Z).

(** The comprehension of [agg], for the step [f] of an element. *)
Fixpoint comprehension (n : nat) (p : Z) : result (list (pyval A) * Z) :=
  match n with
  | O => Ok ([], p)
  | S n' =>
      r <- f p ;;
      let '(v, p) := r in
      r <- comprehension n' p ;;
      let '(vs, p) := r in
      Ok (v :: vs, p)
  end.

End Comprehension.

Section Loops.

Context {A : Type}.


End Loops.

Section Codec.

Context {A : Type}.
Variable TEXT_OID TEXT_ARRAY_OID : Z.
Variable builtins_array_oid : Z -> option Z.
Variable tx_adapt : Format -> A -> adapted.
Variable tx_adapt_none : Format -> adapted.
Variable get_cast_function : Z -> Format -> bytes -> result A.

(** An element of the payload: the length on four bytes and the
    bytes, or minus one for nil. *)
Definition leaf_bytes (d : option bytes) : bytes :=
  match d with
  | Some ad => be_bytes 4 (Z.of_nat (length ad)) ++ ad
  | None => [xff; xff; xff; xff]
  end.

(** The elements of a value, from left to right. *)
Fixpoint payload (v : pyval A) : bytes :=
  match v with
  | PNone => leaf_bytes None
  | PScalar a => leaf_bytes (adapted_data (tx_adapt BINARY a))
  | PList items => flat_map payload items
  end.

(** The value has a nil element. *)
Fixpoint has_none (v : pyval A) : bool :=
  match v with
  | PNone => true
  | PScalar _ => false
  | PList items => existsb has_none items
  end.

(** The dimensions of a payload: each length with the lower bound 1. *)
Definition dims_bytes (dims : list nat) : bytes :=
  flat_map (fun d => be_bytes 4 (Z.of_nat d) ++ be_bytes 4 1) dims.




Lemma length_dims_bytes (dims : list nat) :
  length (dims_bytes dims) = (8 * length dims)%nat.
Proof.
  unfold dims_bytes. induction dims as [| d dims IH]; [done |].
  cbn [flat_map length]. rewrite !length_app, !length_be_bytes, IH. lia.
Qed.



End Codec.

(** *** The writer on a rectangular list *)

Section WriterLoops.

Context {A : Type}.
Variable adapt_any : pyval A -> result adapted.
Variable dims : list Z.
Variable dim : nat.

(** The loop of [adapt_list] over the items of the last dimension,
    with the local [got_type] of the call. *)
Fixpoint leaf_loop (items : list (pyval A)) (got_type : bool)
    (st : binary_state) : result binary_state :=
  match items with
  | [] => Ok st
  | item :: items' =>
      ad <- adapt_any item ;;
      r <- binary_adapt_leaf ad got_type st ;;
      let '(got_type, st) := r in
      leaf_loop items' got_type st
  end.

(** The loop of [adapt_list] over the items of another dimension. *)
Fixpoint rows_loop (items : list (pyval A)) (st : binary_state)
  : result binary_state :=
  match items with
  | [] => Ok st
  | item :: items' =>
      st <- match item with
            | PList _ => binary_adapt_list adapt_any dims item (S dim) st
            | _ => Raise DataError
            end ;;
      rows_loop items' st
  end.

End WriterLoops.

Section Writer.

Context {A : Type}.
Variable TEXT_OID TEXT_ARRAY_OID : Z.
Variable builtins_array_oid : Z -> option Z.
Variable tx_adapt : Format -> A -> adapted.
Variable tx_adapt_none : Format -> adapted.

Lemma binary_adapt_list_unfold (adapt_any : pyval A -> result adapted)
    (dims : list Z) (items : list (pyval A)) (dim : nat)
    (st : binary_state) :
  binary_adapt_list adapt_any dims (PList items) dim st
  = match dims !! dim with
    | None => Raise IndexError
    | Some d =>
        if decide (Z.of_nat (length items) ≠ d) then Raise DataError
        else if decide (dim = (length dims - 1)%nat)
             then leaf_loop adapt_any items false st
             else rows_loop adapt_any dims dim items st
    end.
Proof. reflexivity. Qed.

(** What [Transformer.adapt] does with an item of the last dimension. *)
Definition adapt_item (item : pyval A) : result adapted :=
  match item with
  | PNone => Ok (tx_adapt_none BINARY)
  | PScalar a => Ok (tx_adapt BINARY a)
  | PList _ =>
      r <- binary_adapt TEXT_OID TEXT_ARRAY_OID builtins_array_oid tx_adapt
             tx_adapt_none item ;;
      Ok (WithOid (Some (fst r)) (snd r))
  end.

Lemma binary_adapt_cons (x : pyval A) (xs : list (pyval A)) :
  binary_adapt TEXT_OID TEXT_ARRAY_OID builtins_array_oid tx_adapt
    tx_adapt_none (PList (x :: xs))
  = (dims <- calc_dims (PList (x :: xs)) [] ;;
     st <- binary_adapt_list adapt_item dims (PList (x :: xs)) 0
             (mkBinaryState [[]; []] 0 0) ;;
     let oid := if decide (b_oid st = 0) then TEXT_OID else b_oid st in
     head <- _struct_head_pack (Z.of_nat (length dims)) (hasnull st)
               (if decide (oid = 0) then TEXT_OID else oid) ;;
     dimsb <- mapM (fun dim => _struct_dim_pack dim 1) dims ;;
     let data := <[ 1%nat := concat dimsb ]>
                   (<[ 0%nat := head ]> (data st)) in
     Ok (concat data,
         _array_oid TEXT_ARRAY_OID builtins_array_oid oid)).
Proof. reflexivity. Qed.

(** The OID that the elements of the list at hand are dumped with. *)
Variable o : Z.

(** The dumper gives bytes for the scalar, which fit in a signed
    length, with the OID [o] or with no OID. *)
Definition dumps (a : A) : Prop :=
  exists ad,
    (tx_adapt BINARY a = WithOid (Some ad) o
     \/ tx_adapt BINARY a = Bare (Some ad))
    /\ Z.of_nat (length ad) <= 2147483647.

(** Nil is adapted to nil, with the OID [o] or with no OID. *)
Definition dumps_none : Prop :=
  tx_adapt_none BINARY = Bare None \/ tx_adapt_none BINARY = WithOid None o.

(** What [Transformer.adapt] returns is a pair with an OID. *)
Definition with_oid (ad : adapted) : bool :=
  match ad with
  | WithOid _ _ => true
  | Bare _ => false
  end.

(** Some element of the value is adapted to a pair with an OID. *)
Fixpoint gives_oid (v : pyval A) : bool :=
  match v with
  | PNone => with_oid (tx_adapt_none BINARY)
  | PScalar a => with_oid (tx_adapt BINARY a)
  | PList items => existsb gives_oid items
  end.

(** The OID of the closure once [v] is written: an OID that was set
    stays, and one that was not is [o] when an element gives it. *)
Definition oid_after (v : pyval A) (oid : Z) : Z :=
  if decide (oid = 0) then (if gives_oid v then o else 0) else oid.

(** The state [st'] is [st] after the value [v] has been written. *)
Definition wrote (v : pyval A) (st st' : binary_state) : Prop :=
  (exists chunks,
     data st' = data st ++ chunks
     /\ concat chunks = payload tx_adapt v)
  /\ hasnull st' = (if has_none v then 1 else hasnull st)
  /\ (b_oid st' = 0 \/ b_oid st' = o)
  /\ b_oid st' = oid_after v (b_oid st).

Lemma wrote_leaf (v : pyval A) (got : bool) (st : binary_state) :
  dumps_none ->
  has_shape [] v ->
  Forall dumps (scalars v) ->
  b_oid st = 0 \/ b_oid st = o ->
  exists ad got' st',
    adapt_item v = Ok ad
    /\ binary_adapt_leaf ad got st = Ok (got', st')
    /\ wrote v st st'.
Proof.
  intros Hnone Hshape Hdumps Hinv.
  destruct v as [| a | items]; [| | done]; cbn [adapt_item].
  - exists (tx_adapt_none BINARY). unfold binary_adapt_leaf, wrote, oid_after.
    cbn [has_none payload leaf_bytes gives_oid].
    destruct Hnone as [-> | ->]; cbn [with_oid].
    + cbn [bind]. eexists _, _. split; [reflexivity |]. split; [reflexivity |].
      cbn [data hasnull b_oid].
      split; [by exists [[xff; xff; xff; xff]] |]. split; [done |].
      split; [done |]. by destruct (decide _).
    + destruct (decide (b_oid st = 0)) as [H0 | H0]; cbn [bind].
      * eexists _, _. split; [reflexivity |]. split; [reflexivity |].
        cbn [data hasnull b_oid].
        split; [by exists [[xff; xff; xff; xff]] |]. split; [done |].
        split; [by right | done].
      * destruct (decide (b_oid st <> o)) as [? | _];
          [by destruct Hinv |].
        cbn [bind]. eexists _, _. split; [reflexivity |].
        split; [reflexivity |]. cbn [data hasnull b_oid].
        split; [by exists [[xff; xff; xff; xff]] | done].
  - cbn [scalars] in Hdumps. inversion Hdumps as [| ? ? Ha _]; subst.
    destruct Ha as (ad & Had & Hlen).
    exists (tx_adapt BINARY a). unfold binary_adapt_leaf, wrote, oid_after.
    cbn [payload has_none gives_oid]. unfold _struct_len_pack, pack_i.
    destruct Had as [-> | ->]; cbn [adapted_data leaf_bytes with_oid].
    + destruct (decide (b_oid st = 0)) as [H0 | H0]; cbn [bind].
      * destruct (decide _) as [_ | ?]; [| lia]. cbn [bind].
        eexists _, _. split; [reflexivity |]. split; [reflexivity |].
        cbn [data hasnull b_oid].
        split; [| split; [done | split; [by right | done]]].
        eexists. split; [reflexivity |]. cbn. by rewrite app_nil_r.
      * destruct (decide (b_oid st <> o)) as [? | _];
          [by destruct Hinv |].
        cbn [bind]. destruct (decide _) as [_ | ?]; [| lia]. cbn [bind].
        eexists _, _. split; [reflexivity |]. split; [reflexivity |].
        cbn [data hasnull b_oid].
        split; [| done].
        eexists. split; [reflexivity |]. cbn. by rewrite app_nil_r.
    + cbn [bind]. destruct (decide _) as [_ | ?]; [| lia]. cbn [bind].
      eexists _, _. split; [reflexivity |]. split; [reflexivity |].
      cbn [data hasnull b_oid].
      split; [| split; [done | split; [done | by destruct (decide _)]]].
      eexists. split; [reflexivity |]. cbn. by rewrite app_nil_r.
Qed.

Lemma wrote_cons (x : pyval A) (items : list (pyval A))
    (st st1 st2 : binary_state) :
  wrote x st st1 -> wrote (PList items) st1 st2 ->
  wrote (PList (x :: items)) st st2.
Proof.
  intros ((ch1 & Hd1 & Hc1) & Hn1 & Hi1 & Ho1)
    ((ch2 & Hd2 & Hc2) & Hn2 & Hi2 & Ho2).
  split; [| split; [| split; [done |]]].
  - exists (ch1 ++ ch2). rewrite Hd2, Hd1, <- app_assoc. split; [done |].
    rewrite concat_app, Hc1, Hc2. reflexivity.
  - rewrite Hn2, Hn1. cbn [has_none existsb].
    destruct (has_none x); cbn [orb]; [| done].
    by destruct (existsb has_none items).
  - rewrite Ho2, Ho1. unfold oid_after. cbn [gives_oid existsb].
    destruct (decide (b_oid st = 0)) as [H0 | H0].
    + destruct (gives_oid x); cbn [orb].
      * destruct (decide (o = 0)) as [-> | ?]; [| done].
        by destruct (existsb gives_oid items).
      * by destruct (decide (0 = 0)).
    + by destruct (decide (b_oid st = 0)).
Qed.

Lemma wrote_nil (st : binary_state) :
  b_oid st = 0 \/ b_oid st = o -> wrote (PList []) st st.
Proof.
  intros Hinv. split; [| split; [done | split; [done |]]].
  - exists []. by rewrite app_nil_r.
  - unfold oid_after. cbn [gives_oid existsb]. by destruct (decide _).
Qed.

Lemma lookup_map_middle (pre : list nat) (d : nat) (ds : list nat) :
  map Z.of_nat (pre ++ d :: ds) !! length pre = Some (Z.of_nat d).
Proof.
  rewrite map_app. cbn [map].
  rewrite <- (length_map Z.of_nat pre). apply list_lookup_middle. done.
Qed.

(** The closure [adapt_list] writes the elements of a rectangular
    value, dimension after dimension. *)
Lemma wrote_list (dimsN : list nat) (v : pyval A) :
  dumps_none ->
  forall (pre : list nat) (d : nat) (ds : list nat) (st : binary_state),
    dimsN = pre ++ d :: ds ->
    has_shape (d :: ds) v ->
    Forall dumps (scalars v) ->
    b_oid st = 0 \/ b_oid st = o ->
    exists st',
      binary_adapt_list adapt_item (map Z.of_nat dimsN) v (length pre) st
      = Ok st'
      /\ wrote v st st'.
Proof.
  intros Hnone. induction v as [| a | items IH] using pyval_nested_ind;
    intros pre d ds st Hdims Hshape Hdumps Hinv; [done | done |].
  destruct Hshape as (Hlen & Hitems).
  subst dimsN. rewrite binary_adapt_list_unfold, lookup_map_middle.
  destruct (decide _) as [? | _]; [lia |].
  rewrite length_map, length_app. cbn [length].
  clear Hlen. cbn [scalars] in Hdumps.
  destruct ds as [| d' ds]; cbn [length].
  - destruct (decide _) as [_ | ?]; [| lia].
    clear IH. generalize false. intros got. revert got st Hinv.
    induction items as [| x items IHitems]; intros got st Hinv.
    + exists st. split; [done |]. by apply wrote_nil.
    + inversion Hitems as [| ? ? Hx Hrest]; subst.
      cbn [flat_map] in Hdumps. apply Forall_app in Hdumps as [Hdx Hdrest].
      destruct (wrote_leaf x got st Hnone Hx Hdx Hinv)
        as (ad & got1 & st1 & Had & Hleaf & Hw1).
      cbn [leaf_loop]. rewrite Had. cbn [bind]. rewrite Hleaf. cbn [bind].
      destruct (IHitems Hrest Hdrest got1 st1) as (st2 & Hloop & Hw2).
      { by destruct Hw1 as (_ & _ & ? & _). }
      exists st2. split; [done |]. by apply (wrote_cons x items st st1 st2).
  - destruct (decide _) as [? | _]; [lia |].
    revert st Hinv.
    induction items as [| x items IHitems]; intros st Hinv.
    + exists st. split; [done |]. by apply wrote_nil.
    + inversion Hitems as [| ? ? Hx Hrest]; subst.
      inversion IH as [| ? ? IHx IHrest]; subst.
      cbn [flat_map] in Hdumps. apply Forall_app in Hdumps as [Hdx Hdrest].
      destruct x as [| a | xitems]; [done | done |].
      destruct (IHx (pre ++ [d]) d' ds st) as (st1 & Hx1 & Hw1);
        [by rewrite <- app_assoc | done | done | done |].
      cbn [rows_loop].
      replace (S (length pre)) with (length (pre ++ [d]))
        by (rewrite length_app; cbn; lia).
      rewrite Hx1. cbn [bind].
      destruct (IHitems IHrest Hrest Hdrest st1) as (st2 & Hloop & Hw2).
      { by destruct Hw1 as (_ & _ & ? & _). }
      replace (S (length pre)) with (length (pre ++ [d])) in Hloop
        by (rewrite length_app; cbn; lia).
      exists st2. split; [done |].
      by apply (wrote_cons (PList xitems) items st st1 st2).
Qed.

Lemma calc_dims_shape (dims : list nat) :
  forall (v : pyval A) (acc : list Z),
    has_shape dims v ->
    Forall (fun d => (0 < d)%nat) dims ->
    calc_dims v acc = Ok (acc ++ map Z.of_nat dims).
Proof.
  induction dims as [| d dims IH]; intros v acc Hshape Hpos.
  - rewrite app_nil_r. by destruct v.
  - destruct v as [| a | items]; [done | done |].
    destruct Hshape as (Hlen & Hitems).
    inversion Hpos as [| ? ? Hd Hrest]; subst.
    destruct items as [| first rest]; [cbn in Hd; lia |].
    inversion Hitems as [| ? ? Hfirst _]; subst.
    cbn [calc_dims]. rewrite IH by done.
    cbn [map]. by rewrite <- app_assoc.
Qed.

Lemma dims_pack (dims : list nat) :
  Forall (fun d => Z.of_nat d <= 4294967295) dims ->
  exists dimsb,
    mapM (fun dim => _struct_dim_pack dim 1) (map Z.of_nat dims) = Ok dimsb
    /\ concat dimsb = dims_bytes dims.
Proof.
  induction 1 as [| d dims Hd _ (dimsb & IH & Hc)]; [by exists [] |].
  cbn [map mapM]. unfold _struct_dim_pack at 1, pack_I.
  destruct (decide _) as [_ | ?]; [| lia].
  destruct (decide _) as [_ | ?]; [| lia].
  cbn [bind]. rewrite IH. cbn [bind].
  eexists. split; [reflexivity |]. cbn [concat]. by rewrite Hc.
Qed.

(** The OID that the writer puts in the head: the OID [o] of the
    dumpers when some element is adapted with it and it is not 0, the
    OID of text otherwise. *)
Definition head_oid (xs : list (pyval A)) : Z :=
  if gives_oid (PList xs) && bool_decide (o <> 0) then o else TEXT_OID.

Lemma head_oid_cases (xs : list (pyval A)) :
  head_oid xs = TEXT_OID \/ head_oid xs = o.
Proof. unfold head_oid. destruct (_ && _); [by right | by left]. Qed.

(** The writer lays a rectangular list out as the head, the
    dimensions, and the elements. *)
Lemma adapt_layout (xs : list (pyval A)) (dims : list nat) :
  has_shape dims (PList xs) ->
  Forall (fun d => (0 < d)%nat /\ Z.of_nat d <= 4294967295) dims ->
  Z.of_nat (length dims) <= 4294967295 ->
  0 <= TEXT_OID <= 4294967295 ->
  0 <= o <= 4294967295 ->
  dumps_none ->
  Forall dumps (scalars (PList xs)) ->
  BinaryListAdapter_adapt TEXT_OID TEXT_ARRAY_OID builtins_array_oid
    tx_adapt tx_adapt_none xs
  = Ok (array_head (Z.of_nat (length dims))
          (if has_none (PList xs) then 1 else 0) (head_oid xs)
        ++ dims_bytes dims ++ payload tx_adapt (PList xs),
        _array_oid TEXT_ARRAY_OID builtins_array_oid (head_oid xs)).
Proof.
  intros Hshape Hdims Hndims Htext Ho Hnone Hdumps.
  assert (Hpos : Forall (fun d => (0 < d)%nat) dims)
    by (eapply Forall_impl; [exact Hdims | by intros d [? ?]]).
  assert (Hfit : Forall (fun d => Z.of_nat d <= 4294967295) dims)
    by (eapply Forall_impl; [exact Hdims | by intros d [? ?]]).
  destruct dims as [| d ds]; [done |].
  unfold BinaryListAdapter_adapt.
  destruct xs as [| x xs].
  { destruct Hshape as (Hlen & _). inversion Hpos; subst. cbn in *. lia. }
  rewrite binary_adapt_cons.
  rewrite (calc_dims_shape (d :: ds)) by done. cbn [app bind].
  destruct (wrote_list (d :: ds) (PList (x :: xs)) Hnone [] d ds
              (mkBinaryState [[]; []] 0 0))
    as (st & Hrun & (chunks & Hdata & Hchunks) & Hnull & Hinv & Hafter);
    [done | done | done | by left |].
  cbn [length] in Hrun. rewrite Hrun. cbn [bind].
  cbn [hasnull data b_oid] in Hnull, Hdata, Hafter.
  set (oid := if decide (b_oid st = 0) then TEXT_OID else b_oid st).
  assert (Hoid : oid = head_oid (x :: xs)
                 /\ (if decide (oid = 0) then TEXT_OID else oid) = oid).
  { subst oid. unfold head_oid. rewrite Hafter. unfold oid_after.
    destruct (decide (0 = 0)) as [_ | ?]; [| done].
    destruct (gives_oid (PList (x :: xs))); cbn [andb].
    - destruct (decide (o = 0)) as [H0 | H0].
      + rewrite bool_decide_eq_false_2 by (by intros ?).
        split; [done |]. by destruct (decide _).
      + rewrite bool_decide_eq_true_2 by done.
        split; [done |]. by destruct (decide _).
    - destruct (decide (0 = 0)) as [_ | ?]; [| done].
      split; [done |]. by destruct (decide _). }
  destruct Hoid as (Hoid & ->). rewrite <- Hoid.
  assert (Hrange : 0 <= oid <= 4294967295).
  { rewrite Hoid. destruct (head_oid_cases (x :: xs)) as [-> | ->]; lia. }
  unfold _struct_head_pack, pack_I. rewrite length_map, Hnull.
  destruct (decide (0 <= Z.of_nat (length (d :: ds)) <= 4294967295))
    as [_ | ?]; [| lia].
  cbn [bind].
  destruct (decide (0 <= (if has_none (PList (x :: xs)) then 1 else 0)
                    <= 4294967295)) as [_ | ?];
    [| destruct (has_none _); lia].
  cbn [bind].
  destruct (decide (0 <= oid <= 4294967295)) as [_ | ?]; [| lia].
  cbn [bind].
  destruct (dims_pack (d :: ds) Hfit) as (dimsb & -> & Hc).
  cbn [bind]. rewrite Hdata. cbn [app]. do 2 f_equal.
  change (concat (array_head (Z.of_nat (length (d :: ds)))
                    (if has_none (PList (x :: xs)) then 1 else 0) oid
                  :: concat dimsb :: chunks)
          = array_head (Z.of_nat (length (d :: ds)))
              (if has_none (PList (x :: xs)) then 1 else 0) oid
            ++ dims_bytes (d :: ds) ++ payload tx_adapt (PList (x :: xs))).
  cbn [concat]. by rewrite Hc, Hchunks.
Qed.

End Writer.

(** *** Layout and round trip *)

Section Roundtrip.

Context {A : Type}.
Variable TEXT_OID TEXT_ARRAY_OID : Z.
Variable builtins_array_oid : Z -> option Z.
Variable tx_adapt : Format -> A -> adapted.
Variable tx_adapt_none : Format -> adapted.
Variable get_cast_function : Z -> Format -> bytes -> result A.
Variable o : Z.

(** X17. For a rectangular list with no empty dimension, whose scalars
    dump to bytes with the OID [o] or with none, and whose nil elements
    are adapted to nil, the binary writer returns the 12-byte head with
    the number of dimensions, the null flag (1 exactly when the list
    has a nil element) and the OID of the elements, then for each
    dimension its length and the lower bound 1 on four bytes each, then
    the elements in row-major order, each as its length on four bytes
    and its bytes, or as minus one for nil. The OID of the elements is
    [o] when some element is adapted with it and it is not 0, and the
    OID of text otherwise; the OID of the array is looked up from it. *)
Theorem binary_array_layout (xs : list (pyval A)) (dims : list nat) :
  has_shape dims (PList xs) ->
  Forall (fun d => (0 < d)%nat /\ Z.of_nat d <= 4294967295) dims ->
  Z.of_nat (length dims) <= 4294967295 ->
  0 <= TEXT_OID <= 4294967295 ->
  0 <= o <= 4294967295 ->
  dumps_none tx_adapt_none o ->
  Forall (dumps tx_adapt o) (scalars (PList xs)) ->
  let hoid :=
    if gives_oid tx_adapt tx_adapt_none (PList xs) && bool_decide (o <> 0)
    then o else TEXT_OID in
  BinaryListAdapter_adapt TEXT_OID TEXT_ARRAY_OID builtins_array_oid
    tx_adapt tx_adapt_none xs
  = Ok (be_bytes 4 (Z.of_nat (length dims))
        ++ be_bytes 4 (if has_none (PList xs) then 1 else 0)
        ++ be_bytes 4 hoid
        ++ dims_bytes dims ++ payload tx_adapt (PList xs),
        _array_oid TEXT_ARRAY_OID builtins_array_oid hoid)
  /\ length (be_bytes 4 (Z.of_nat (length dims))
             ++ be_bytes 4 (if has_none (PList xs) then 1 else 0)
             ++ be_bytes 4 hoid ++ dims_bytes dims)
     = (12 + 8 * length dims)%nat.
Proof.
  intros Hshape Hdims Hndims Htext Ho Hnone Hdumps hoid.
  rewrite (adapt_layout TEXT_OID TEXT_ARRAY_OID builtins_array_oid tx_adapt
             tx_adapt_none o xs dims) by done.
  split.
  - unfold array_head. fold hoid. by rewrite <- !app_assoc.
  - rewrite !length_app, length_dims_bytes, !length_be_bytes. lia.
Qed.



(** A value is a list down to the depth of [dims], with the lengths
    that [dims] gives. *)
Fixpoint shaped (dims : list Z) (v : pyval A) : Prop :=
  match dims with
  | [] => True
  | d :: dims' =>
      match v with
      | PList items =>
          Z.of_nat (length items) = d /\ Forall (shaped dims') items
      | _ => False
      end
  end.

Lemma rows_loop_inv (adapt_any : pyval A -> result adapted)
    (dims : list Z) (dim : nat) (items : list (pyval A)) :
  forall st st',
    rows_loop adapt_any dims dim items st = Ok st' ->
    Forall (fun item =>
              exists st1 st2,
                binary_adapt_list adapt_any dims item (S dim) st1 = Ok st2)
      items.
Proof.
  induction items as [| x items IH]; intros st st' H; [constructor |].
  cbn [rows_loop] in H. apply bind_Ok_inv in H as (st1 & Hx & H).
  constructor; [| by eapply IH].
  destruct x; [done | done | by exists st, st1].
Qed.

Lemma adapt_list_shaped (adapt_any : pyval A -> result adapted)
    (dims : list Z) (v : pyval A) :
  forall (dim : nat) (st st' : binary_state),
    binary_adapt_list adapt_any dims v dim st = Ok st' ->
    shaped (drop dim dims) v.
Proof.
  induction v as [| a | items IH] using pyval_nested_ind;
    intros dim st st' H; [done | done |].
  rewrite binary_adapt_list_unfold in H.
  destruct (dims !! dim) as [d |] eqn:Hd; [| done].
  destruct (decide _) as [? | Hlen]; [done |]. apply dec_stable in Hlen.
  rewrite (drop_S _ _ _ Hd). cbn [shaped]. split; [done |].
  destruct (decide _) as [Hlast | Hmore].
  - assert (Hnil : drop (S dim) dims = []).
    { apply drop_ge. apply lookup_lt_Some in Hd. lia. }
    rewrite Hnil. apply Forall_forall. by intros.
  - apply rows_loop_inv in H.
    apply Forall_forall. intros x Hx.
    rewrite Forall_forall in IH, H.
    destruct (H x Hx) as (st1 & st2 & Hrun). by eapply IH.
Qed.

Lemma calc_dims_positive (v : pyval A) :
  forall acc dims,
    calc_dims v acc = Ok dims ->
    exists new, dims = acc ++ new /\ Forall (fun d => 0 < d) new.
Proof.
  induction v as [| a | items IH] using pyval_nested_ind;
    intros acc dims H.
  - injection H as <-. exists []. by rewrite app_nil_r.
  - injection H as <-. exists []. by rewrite app_nil_r.
  - destruct items as [| first rest]; [done |].
    inversion IH as [| ? ? IHfirst _]; subst.
    cbn [calc_dims] in H. apply IHfirst in H as (new & -> & Hnew).
    exists (Z.of_nat (length (first :: rest)) :: new).
    split; [by rewrite <- app_assoc |].
    constructor; [cbn [length]; lia | done].
Qed.

(** X19. When the binary writer returns for a list that is not empty,
    the dimensions that it found along the first elements are positive
    and the list has them: down to the depth of these dimensions every
    item is a list, of the length of its dimension. The items of the
    last dimension are handed to the transformer as they are, and this
    says nothing of them. *)
Theorem binary_adapt_rectangular (xs : list (pyval A)) (r : bytes * Z) :
  xs <> [] ->
  BinaryListAdapter_adapt TEXT_OID TEXT_ARRAY_OID builtins_array_oid
    tx_adapt tx_adapt_none xs = Ok r ->
  exists dims,
    calc_dims (PList xs) [] = Ok dims
    /\ dims <> []
    /\ Forall (fun d => 0 < d) dims
    /\ shaped dims (PList xs).
Proof.
  intros Hne H. destruct xs as [| x xs]; [done |].
  unfold BinaryListAdapter_adapt in H. rewrite binary_adapt_cons in H.
  apply bind_Ok_inv in H as (dims & Hdims & H).
  apply bind_Ok_inv in H as (st & Hrun & _).
  exists dims. split; [done |].
  destruct (calc_dims_positive _ _ _ Hdims) as (new & -> & Hpos).
  cbn [app] in *. split.
  { destruct new; [| done]. cbn [calc_dims] in Hdims.
    apply calc_dims_positive in Hdims as (new & Heq & _).
    by destruct new. }
  split; [done |].
  apply adapt_list_shaped in Hrun. by rewrite drop_0 in Hrun.
Qed.

End Roundtrip.

(** A two by two value with a nil element, its scalars byte strings
    dumped as they are with the OID of text. *)
Definition typed_adapt (fmt : Format) (b : bytes) : adapted :=
  WithOid (Some b) 25.

Definition square_value : list (pyval bytes) :=
  [ PList [PScalar ["a"%byte]; PScalar ["b"%byte; "c"%byte]];
    PList [PScalar []; PNone] ].

Lemma square_shape : has_shape [2%nat; 2%nat] (PList square_value).
Proof. cbn. repeat constructor. Qed.

(** Dumpers that give byte strings as they are with the OID 23 of
    int4, and nil without an OID; the table knows the array OID 1007 of
    that OID. *)
Definition int4_adapt (fmt : Format) (b : bytes) : adapted :=
  WithOid (Some b) 23.

Definition nil_adapt_none (fmt : Format) : adapted := Bare None.

Definition int4_builtins (oid : Z) : option Z :=
  if decide (oid = 23) then Some 1007 else None.

(** The head holds the OID 23 of the dumpers, not the OID 25 of text,
    and the OID of the array is 1007. *)
Lemma binary_array_layout_witness :
  BinaryListAdapter_adapt 25 1009 int4_builtins int4_adapt nil_adapt_none
    square_value
  = Ok ([x00; x00; x00; x02; x00; x00; x00; x01; x00; x00; x00; x17;
         x00; x00; x00; x02; x00; x00; x00; x01;
         x00; x00; x00; x02; x00; x00; x00; x01;
         x00; x00; x00; x01; "a";
         x00; x00; x00; x02; "b"; "c";
         x00; x00; x00; x00;
         xff; xff; xff; xff]%byte, 1007).
Proof.
  assert (H : has_shape [2%nat; 2%nat] (PList square_value)
              /\ Forall (dumps int4_adapt 23) (scalars (PList square_value))).
  { split; [exact square_shape |].
    cbn. repeat constructor; eexists; (split; [by left | cbn; lia]). }
  destruct H as (Hshape & Hdumps).
  pose proof (binary_array_layout 25 1009 int4_builtins int4_adapt
                nil_adapt_none 23 square_value [2%nat; 2%nat] Hshape) as H.
  cbv zeta in H. destruct H as (-> & _); [| | | | | exact Hdumps | reflexivity].
  - repeat constructor; lia.
  - cbn. lia.
  - lia.
  - lia.
  - by left.
Defined.

(** With dumpers that give no OID the head holds the OID of text. *)
Example binary_array_layout_untyped :
  BinaryListAdapter_adapt 25 1009 int4_builtins bare_adapt nil_adapt_none
    [PScalar ["a"%byte]; PNone]
  = Ok ([x00; x00; x00; x01; x00; x00; x00; x01; x00; x00; x00; x19;
         x00; x00; x00; x02; x00; x00; x00; x01;
         x00; x00; x00; x01; "a";
         xff; xff; xff; xff]%byte, 1009).
Proof. reflexivity. Qed.


Lemma binary_adapt_rectangular_witness :
  exists dims,
    calc_dims (PList square_value) [] = Ok dims
    /\ dims <> []
    /\ Forall (fun d => 0 < d) dims
    /\ shaped dims (PList square_value).
Proof.
  assert (H : exists r,
            BinaryListAdapter_adapt 25 1009 no_builtins typed_adapt
              bare_adapt_none square_value = Ok r)
    by (eexists; vm_compute; reflexivity).
  destruct H as (r & H).
  apply (binary_adapt_rectangular 25 1009 no_builtins typed_adapt
           bare_adapt_none square_value r); [done | exact H].
Defined.

(** The items of the last dimension are not inspected: a list of a
    byte string and two lists of different lengths has the one
    dimension 3, and is written, the two lists as elements. *)
Example binary_adapt_ragged_leaf :
  let xs := [PScalar ["a"%byte]; PList [PScalar ["b"%byte]];
             PList [PScalar ["c"%byte]; PScalar ["d"%byte]]] in
  calc_dims (PList xs) [] = Ok [3]
  /\ exists data,
       BinaryListAdapter_adapt text_oid text_array_oid no_builtins bare_adapt
         bare_adapt_none xs = Ok (data, text_array_oid)
       /\ length data = 88%nat.
Proof. split; [reflexivity |]. eexists. split; reflexivity. Qed.

(** The OID that differs is met in the call of [adapt_list] that fixed
    the first: DataError. It is met in another call, where [got_type]
    has no value: UnboundLocalError. *)
Example binary_adapt_mismatch :
  BinaryListAdapter_adapt 25 1009 no_builtins ArrayExtra.first_byte_adapt
    nil_adapt_none [PScalar ["a"%byte]; PScalar ["b"%byte]]
  = Raise DataError
  /\ BinaryListAdapter_adapt 25 1009 no_builtins ArrayExtra.first_byte_adapt
       nil_adapt_none
       [PList [PScalar ["a"%byte]]; PList [PScalar ["b"%byte]]]
     = Raise UnboundLocalError.
Proof. split; reflexivity. Qed.

End ArrayBinary.
